(** * ABNT formatter: a shallow embedding of [abnt.py]

    The program rewrites a word-processing document in place through the
    python-docx object model.  The development below embeds the document
    tree (sections, footers, style registry, body blocks), the helper
    passes of [abnt.py] and the pipeline [apply_abnt_formatting], and
    proves properties of the marker scanners, of the body walker, of the
    table hardening and of the blank-paragraph collapse. *)

From Stdlib Require Import List NArith ZArith Bool Lia String Ascii Arith.
From Stdlib Require Import DecimalString.
From stdpp Require Import base list.
From Equations Require Import Equations.
From Equations.Prop Require Import Logic.
Import ListNotations.

Set Default Proof Using "Type".

(** ** Text

    A Python [str] is a sequence of Unicode code points; code points are
    kept as numbers so that whitespace and substring search are exactly
    those of Python. *)

Module Text.

Definition char := N.
Definition text := list char.

(** A literal of ASCII characters as a text. *)
Definition str (s : string) : text := map N_of_ascii (list_ascii_of_string s).

Definition text_eqb (a b : text) : bool := bool_decide (a = b).

(** [s.startswith(prefix)] *)
Fixpoint startswith (prefix s : text) : bool :=
  match prefix, s with
  | [], _ => true
  | a :: p', b :: s' => N.eqb a b && startswith p' s'
  | _ :: _, [] => false
  end.

(** [needle in hay] *)
Fixpoint contains (needle hay : text) : bool :=
  startswith needle hay
  || match hay with
     | [] => false
     | _ :: hay' => contains needle hay'
     end.

(** The scan of [str.replace]: left to right, occurrences do not overlap;
    [skip] counts the characters of a matched occurrence still to drop. *)
Fixpoint replace_scan (old new : text) (skip : nat) (s : text) : text :=
  match s with
  | [] => []
  | c :: s' =>
      match skip with
      | S k => replace_scan old new k s'
      | O =>
          if startswith old s
          then new ++ replace_scan old new (length old - 1) s'
          else c :: replace_scan old new 0 s'
      end
  end.

Fixpoint intersperse_all (new s : text) : text :=
  match s with
  | [] => new
  | c :: s' => new ++ c :: intersperse_all new s'
  end.

(** [s.replace(old, new)] *)
Definition replace (old new s : text) : text :=
  match old with
  | [] => intersperse_all new s
  | _ :: _ => replace_scan old new 0 s
  end.

Definition in_range (lo hi c : N) : bool := N.leb lo c && N.leb c hi.

(** [c.isspace()]: the code points Python treats as whitespace. *)
Definition isspace (c : char) : bool :=
  in_range 9 13 c || in_range 28 32 c || N.eqb c 133 || N.eqb c 160
  || N.eqb c 5760 || in_range 8192 8202 c || N.eqb c 8232 || N.eqb c 8233
  || N.eqb c 8239 || N.eqb c 8287 || N.eqb c 12288.

Fixpoint lstrip (s : text) : text :=
  match s with
  | [] => []
  | c :: s' => if isspace c then lstrip s' else s
  end.

Fixpoint rstrip (s : text) : text :=
  match s with
  | [] => []
  | c :: s' =>
      match rstrip s' with
      | [] => if isspace c then [] else [c]
      | r => c :: r
      end
  end.

(** [s.strip()] *)
Definition strip (s : text) : text := rstrip (lstrip s).

(** The truth value of a text: [bool(s)]. *)
Definition truthy (s : text) : bool :=
  match s with [] => false | _ :: _ => true end.

(** Decimal rendering of a counter inside an f-string. *)
Definition decimal (n : nat) : text :=
  str (NilEmpty.string_of_uint (Nat.to_uint n)).

(** [str.upper] and [str.lower] follow the Unicode case tables, which are
    not reproduced here; the passes are parametric in them. *)
Class CaseMapping := {
  str_upper : text -> text;
  str_lower : text -> text
}.

End Text.
Import Text.

(** ** Exceptions

    A pass either returns or raises; what a raising pass leaves behind is
    not observed (the caller drops the document). *)

Inductive exn := KeyError | IndexError | AttributeError.

Inductive result (A : Type) : Type :=
  | Ok (a : A)
  | Raise (e : exn).
Arguments Ok {A} a.
Arguments Raise {A} e.

#[global] Instance result_ret : MRet result := fun A a => Ok a.
#[global] Instance result_bind : MBind result := fun A B f m =>
  match m with
  | Ok a => f a
  | Raise e => Raise e
  end.

(** ** Lengths and enumerations of python-docx *)

(** Lengths are whole numbers of English Metric Units.  [Cm n] and
    [Pt n] are python-docx's [Cm(n)] and [Pt(n)] at whole numbers;
    [Cm_1_25] is [Cm(1.25)]. *)
Definition Cm (n : Z) : Z := (n * 360000)%Z.
Definition Pt (n : Z) : Z := (n * 12700)%Z.
Definition Cm_1_25 : Z := 450000%Z.

Inductive WD_ALIGN_PARAGRAPH := LEFT | CENTER | RIGHT | JUSTIFY.

(** A line spacing is a multiple of the line height, kept as python-docx
    stores it (240ths of a line), or an exact length. *)
Inductive LineSpacing :=
  | Lines (n240 : Z)
  | Exactly (emu : Z).

Definition single_spacing : LineSpacing := Lines 240.
Definition one_and_a_half_spacing : LineSpacing := Lines 360.

Inductive WD_STYLE_TYPE := PARAGRAPH | CHARACTER | TABLE | LIST.

(** ** The document tree *)

Record ParagraphFormat := mkParagraphFormat {
  alignment : option WD_ALIGN_PARAGRAPH;
  first_line_indent : option Z;
  left_indent : option Z;
  right_indent : option Z;
  line_spacing : option LineSpacing;
  space_before : option Z;
  space_after : option Z
}.

Inductive FldCharType := fld_begin | fld_separate | fld_end.

(** The children of a run: literal text (tabs and breaks stand as their
    characters), an embedded drawing, and the pieces of a field. *)
Inductive RunChild :=
  | RText (s : text)
  | RDrawing
  | RFldChar (k : FldCharType)
  | RInstrText (s : text).

Record Run := mkRun {
  r_italic : option bool;
  r_content : list RunChild
}.

Record Paragraph := mkParagraph {
  p_style : option text;
  p_format : ParagraphFormat;
  p_runs : list Run
}.

(** The children of a row-properties element. *)
Inductive TrPrChild :=
  | cantSplit
  | tblHeader
  | trPr_other (tag : text).

(** A table row; [trPr] is absent until some pass asks for it.  Cells are
    left out: no pass reads or writes them. *)
Record Row := mkRow {
  trPr : option (list TrPrChild)
}.

Inductive TblPrChild :=
  | tblLayout_fixed
  | tblPr_other (tag : text).

Record Table := mkTable {
  tbl_rows : list Row;
  tblPr : list TblPrChild
}.

(** A child of the document body: a paragraph, a table, or any other
    element, kept with its tag and text. *)
Inductive Block :=
  | BParagraph (p : Paragraph)
  | BTable (t : Table)
  | BOther (tag content : text).

(** An entry of the style registry, in the order of the styles part.
    [style_name] is [style.name]: [None] for a style that has no name
    element. *)
Record Style := mkStyle {
  style_id : text;
  style_type : WD_STYLE_TYPE;
  style_default : bool;
  style_name : option text;
  font_name : option text;
  font_size : option Z;
  style_format : ParagraphFormat
}.

(** A section: its margins and its own footer definition, if it has one
    (a section without one inherits the footer of the section before). *)
Record Section := mkSection {
  top_margin : option Z;
  left_margin : option Z;
  right_margin : option Z;
  bottom_margin : option Z;
  footer_ref : option nat
}.

Record Footer := mkFooter {
  ftr_paragraphs : list Paragraph
}.

Record Document := mkDocument {
  sections : list Section;
  footers : list Footer;
  styles : list Style;
  body : list Block
}.

(** Field updates. *)

Definition set_alignment (v : option WD_ALIGN_PARAGRAPH) (f : ParagraphFormat) :=
  mkParagraphFormat v (first_line_indent f) (left_indent f) (right_indent f)
    (line_spacing f) (space_before f) (space_after f).
Definition set_first_line_indent (v : option Z) (f : ParagraphFormat) :=
  mkParagraphFormat (alignment f) v (left_indent f) (right_indent f)
    (line_spacing f) (space_before f) (space_after f).
Definition set_left_indent (v : option Z) (f : ParagraphFormat) :=
  mkParagraphFormat (alignment f) (first_line_indent f) v (right_indent f)
    (line_spacing f) (space_before f) (space_after f).
Definition set_right_indent (v : option Z) (f : ParagraphFormat) :=
  mkParagraphFormat (alignment f) (first_line_indent f) (left_indent f) v
    (line_spacing f) (space_before f) (space_after f).
Definition set_line_spacing (v : option LineSpacing) (f : ParagraphFormat) :=
  mkParagraphFormat (alignment f) (first_line_indent f) (left_indent f)
    (right_indent f) v (space_before f) (space_after f).
Definition set_space_before (v : option Z) (f : ParagraphFormat) :=
  mkParagraphFormat (alignment f) (first_line_indent f) (left_indent f)
    (right_indent f) (line_spacing f) v (space_after f).
Definition set_space_after (v : option Z) (f : ParagraphFormat) :=
  mkParagraphFormat (alignment f) (first_line_indent f) (left_indent f)
    (right_indent f) (line_spacing f) (space_before f) v.

(** [with_format g p] is the paragraph [p] after the assignments [g] to
    [p.paragraph_format] (and [p.alignment], which is the same record). *)
Definition with_format (g : ParagraphFormat -> ParagraphFormat) (p : Paragraph) :=
  mkParagraph (p_style p) (g (p_format p)) (p_runs p).
Definition with_runs (rs : list Run) (p : Paragraph) :=
  mkParagraph (p_style p) (p_format p) rs.

Definition with_body (b : list Block) (d : Document) :=
  mkDocument (sections d) (footers d) (styles d) b.
Definition with_styles (s : list Style) (d : Document) :=
  mkDocument (sections d) (footers d) s (body d).
Definition with_sections (s : list Section) (d : Document) :=
  mkDocument s (footers d) (styles d) (body d).

(** ** Reading the tree as python-docx does *)

(** [run.text] *)
Definition run_text (r : Run) : text :=
  flat_map (fun c => match c with RText s => s | _ => [] end) (r_content r).

(** [run.text = s]: the content of the run is cleared (drawings and field
    pieces included) and the text, if any, is put back. *)
Definition set_run_text (s : text) (r : Run) : Run :=
  mkRun (r_italic r) (if truthy s then [RText s] else []).

(** [paragraph.text] *)
Definition paragraph_text (p : Paragraph) : text := flat_map run_text (p_runs p).

(** [paragraph.text = s]: every run is removed and one new run holds [s]. *)
Definition set_paragraph_text (s : text) (p : Paragraph) : Paragraph :=
  with_runs [set_run_text s (mkRun None [])] p.

(** [paragraph._element.xpath('.//w:drawing')] is non-empty. *)
Definition is_drawing (c : RunChild) : bool :=
  match c with RDrawing => true | _ => false end.
Definition has_drawing (p : Paragraph) : bool :=
  existsb (fun r => existsb is_drawing (r_content r)) (p_runs p).

(** [doc.paragraphs] and [doc.tables]: the paragraphs, and the tables,
    that are children of the body, in document order. *)
Definition paragraphs (b : list Block) : list Paragraph :=
  flat_map (fun x => match x with BParagraph p => [p] | _ => [] end) b.
Definition tables (b : list Block) : list Table :=
  flat_map (fun x => match x with BTable t => [t] | _ => [] end) b.

(** *** Style lookup *)

Fixpoint find_index {A} (f : A -> bool) (l : list A) : option nat :=
  match l with
  | [] => None
  | x :: l' => if f x then Some 0 else S <$> find_index f l'
  end.

Fixpoint find_last_index {A} (f : A -> bool) (l : list A) : option nat :=
  match l with
  | [] => None
  | x :: l' =>
      match find_last_index f l' with
      | Some i => Some (S i)
      | None => if f x then Some 0 else None
      end
  end.

Definition style_type_eqb (a b : WD_STYLE_TYPE) : bool :=
  match a, b with
  | PARAGRAPH, PARAGRAPH | CHARACTER, CHARACTER | TABLE, TABLE | LIST, LIST => true
  | _, _ => false
  end.

(** The default style of a type: the last one flagged as default. *)
Definition default_for (ty : WD_STYLE_TYPE) (st : list Style) : option nat :=
  find_last_index (fun s => style_type_eqb (style_type s) ty && style_default s) st.

(** [styles.get_by_id(id, type)]: the first style with that id if it has
    the type asked for, the default of the type otherwise. *)
Definition get_by_id (sid : option text) (ty : WD_STYLE_TYPE) (st : list Style) : option nat :=
  match sid with
  | None => default_for ty st
  | Some i =>
      match find_index (fun s => text_eqb (style_id s) i) st with
      | Some k =>
          match st !! k with
          | Some s => if style_type_eqb (style_type s) ty then Some k else default_for ty st
          | None => default_for ty st
          end
      | None => default_for ty st
      end
  end.

(** [paragraph.style]: the position in the registry of the style object
    the paragraph resolves to, [None] when the registry has no default. *)
Definition paragraph_style (st : list Style) (p : Paragraph) : option nat :=
  get_by_id (p_style p) PARAGRAPH st.

(** [doc.styles[key]]: by name, then by id, else [KeyError]. *)
Definition styles_getitem (key : text) (st : list Style) : result nat :=
  match find_index (fun s => bool_decide (style_name s = Some key)) st with
  | Some k => Ok k
  | None =>
      match find_index (fun s => text_eqb (style_id s) key) st with
      | Some k => Ok k
      | None => Raise KeyError
      end
  end.

(** [paragraph.style.font.size], read through the shared style object. *)
Definition paragraph_font_size (st : list Style) (p : Paragraph) : option Z :=
  k ← paragraph_style st p; s ← st !! k; font_size s.

(** [paragraph.style.name], or [None] without a style or without a
    name. *)
Definition paragraph_style_name (st : list Style) (p : Paragraph) : option text :=
  k ← paragraph_style st p; s ← st !! k; style_name s.

(** ** Loops over [doc.paragraphs]

    A pass walks the paragraphs of the body in order and mutates each in
    place; tables and other blocks are not visited. *)

Definition map_paragraphs (f : Paragraph -> Paragraph) (b : list Block) : list Block :=
  map (fun x => match x with BParagraph p => BParagraph (f p) | _ => x end) b.

(** A loop that carries a state [S] from one paragraph to the next. *)
Fixpoint scan_paragraphs {S} (f : S -> Paragraph -> S * Paragraph)
    (s : S) (b : list Block) : S * list Block :=
  match b with
  | [] => (s, [])
  | BParagraph p :: rest =>
      let '(s1, p') := f s p in
      let '(s2, rest') := scan_paragraphs f s1 rest in
      (s2, BParagraph p' :: rest')
  | x :: rest =>
      let '(s2, rest') := scan_paragraphs f s rest in
      (s2, x :: rest')
  end.

(** The same loop when the body of the loop may raise. *)
Fixpoint for_paragraphs {S} (f : S -> Paragraph -> result (S * Paragraph))
    (s : S) (b : list Block) : result (S * list Block) :=
  match b with
  | [] => Ok (s, [])
  | BParagraph p :: rest =>
      '(s1, p') ← f s p;
      '(s2, rest') ← for_paragraphs f s1 rest;
      Ok (s2, BParagraph p' :: rest')
  | x :: rest =>
      '(s2, rest') ← for_paragraphs f s rest;
      Ok (s2, x :: rest')
  end.

(** A loop that mutates each paragraph and may raise. *)
Fixpoint try_map_paragraphs (f : Paragraph -> result Paragraph) (b : list Block)
    : result (list Block) :=
  match b with
  | [] => Ok []
  | BParagraph p :: rest =>
      p' ← f p;
      rest' ← try_map_paragraphs f rest;
      Ok (BParagraph p' :: rest')
  | x :: rest =>
      rest' ← try_map_paragraphs f rest;
      Ok (x :: rest')
  end.

(** ** ABNT helper functions *)

Definition set_margins (top left right bottom : Z) (s : Section) : Section :=
  mkSection (Some top) (Some left) (Some right) (Some bottom) (footer_ref s).

(** [set_page_margins(doc, top_cm, left_cm, right_cm, bottom_cm)]; the
    arguments are the lengths [Cm(top_cm)], ... *)
Definition set_page_margins (top left right bottom : Z) (d : Document) : Document :=
  with_sections (map (set_margins top left right bottom) (sections d)) d.

Definition set_style_font (name : option text) (size : option Z) (s : Style) : Style :=
  mkStyle (style_id s) (style_type s) (style_default s) (style_name s)
    name size (style_format s).
Definition set_font_size (size : option Z) (s : Style) : Style :=
  set_style_font (font_name s) size s.
Definition with_style_format (g : ParagraphFormat -> ParagraphFormat) (s : Style) : Style :=
  mkStyle (style_id s) (style_type s) (style_default s) (style_name s)
    (font_name s) (font_size s) (g (style_format s)).

(** The attributes of the style proxies of python-docx: paragraph and
    table styles have a font and a paragraph format, a character style
    has a font only, a numbering style has neither. *)
Definition has_font (ty : WD_STYLE_TYPE) : bool :=
  match ty with LIST => false | _ => true end.
Definition has_paragraph_format (ty : WD_STYLE_TYPE) : bool :=
  match ty with PARAGRAPH | TABLE => true | _ => false end.

(** [configure_default_style(doc, font_name, font_size_pt, line_spacing,
    first_line_indent_cm, justify)]; sizes and indents come as lengths.
    The [justify] argument is not used by the function.  The style found
    under the key [Normal] may be of any type: [normal.font] raises on a
    numbering style and [normal.paragraph_format] on a character
    style. *)
Definition configure_default_style (name : text) (size : Z) (spacing : LineSpacing)
    (indent : Z) (justify : bool) (d : Document) : result Document :=
  normal ← styles_getitem (str "Normal") (styles d);
  let ty := from_option style_type PARAGRAPH (styles d !! normal) in
  if negb (has_font ty) then Raise AttributeError
  else if negb (has_paragraph_format ty) then Raise AttributeError
  else
    let update (s : Style) :=
      let s := set_style_font (Some name) (font_size s) s in
      let s := set_font_size (Some size) s in
      let s := with_style_format (set_line_spacing (Some spacing)) s in
      let s := with_style_format (set_space_before (Some (Pt 0))) s in
      let s := with_style_format (set_space_after (Some (Pt 0))) s in
      with_style_format (set_first_line_indent (Some indent)) s in
    Ok (with_styles (alter update normal (styles d)) d).

Section Passes.
Context `{CaseMapping}.

(** [p.style and p.style.name.lower().startswith("heading")]: a
    paragraph without a style is no heading; on a style without a name
    [p.style.name] is [None] and the call of [lower] raises. *)
Definition is_heading (st : list Style) (p : Paragraph) : result bool :=
  match paragraph_style st p with
  | None => Ok false
  | Some k =>
      match style_name <$> st !! k with
      | Some (Some name) => Ok (startswith (str "heading") (str_lower name))
      | Some None => Raise AttributeError
      | None => Ok false
      end
  end.

(** The body of the loop of [style_all_paragraphs]. *)
Definition style_paragraph (justify : bool) (indent : Z) (st : list Style)
    (p : Paragraph) : result Paragraph :=
  heading ← is_heading st p;
  if heading : bool then
    let p := with_format (set_alignment (Some LEFT)) p in
    let p := with_format (set_first_line_indent (Some (Cm 0))) p in
    let p := with_format (set_space_before (Some (Pt 0))) p in
    Ok (with_format (set_space_after (Some (Pt 0))) p)
  else
    let p := if justify then with_format (set_alignment (Some JUSTIFY)) p else p in
    let p := with_format (set_first_line_indent (Some indent)) p in
    let p := with_format (set_space_before (Some (Pt 0))) p in
    Ok (with_format (set_space_after (Some (Pt 0))) p).

(** [style_all_paragraphs(doc, justify, first_line_indent_cm)] *)
Definition style_all_paragraphs (justify : bool) (indent : Z) (d : Document)
    : result Document :=
  b ← try_map_paragraphs (style_paragraph justify indent (styles d)) (body d);
  Ok (with_body b d).

(** [uppercase_heading_runs(paragraph)] *)
Definition uppercase_heading_runs (p : Paragraph) : Paragraph :=
  with_runs (map (fun r => set_run_text (str_upper (run_text r)) r) (p_runs p)) p.

(** [name in heading_map and heading_map[name]]; the name of a style
    without a name is [None], which is no key of the map either. *)
Definition heading_map_lookup (h1_caps h2_caps h3_caps : bool) (name : text) : bool :=
  if text_eqb name (str "Heading 1") then h1_caps
  else if text_eqb name (str "Heading 2") then h2_caps
  else if text_eqb name (str "Heading 3") then h3_caps
  else false.

(** [configure_heading_styles(doc, h1_caps, h2_caps, h3_caps)] *)
Definition configure_heading_styles (h1_caps h2_caps h3_caps : bool) (d : Document) : Document :=
  let visit (p : Paragraph) :=
    let name := default [] (paragraph_style_name (styles d) p) in
    if heading_map_lookup h1_caps h2_caps h3_caps name then
      let p := uppercase_heading_runs p in
      let p := with_format (set_alignment (Some LEFT)) p in
      with_format (set_first_line_indent (Some (Cm 0))) p
    else p in
  with_body (map_paragraphs visit (body d)) d.

End Passes.

(** *** Footers *)

(** The footer definition a section reads: its own, else the one of the
    nearest earlier section that has one. *)
Fixpoint inherited_footer (secs : list Section) (i : nat) : option nat :=
  match secs !! i with
  | None => None
  | Some s =>
      match footer_ref s with
      | Some k => Some k
      | None =>
          match i with
          | O => None
          | S j => inherited_footer secs j
          end
      end
  end.

(** The footer python-docx creates on demand: one empty paragraph of
    style [Footer]. *)
Definition default_footer : Footer :=
  mkFooter [mkParagraph (Some (str "Footer")) (mkParagraphFormat None None None None None None None) []].

Definition set_footer_ref (k : nat) (s : Section) : Section :=
  mkSection (top_margin s) (left_margin s) (right_margin s) (bottom_margin s) (Some k).

(** Reaching [section.footer]'s content: when no section up the chain has
    a definition, one is added to the first section. *)
Definition get_or_add_footer (i : nat) (d : Document) : Document * nat :=
  match inherited_footer (sections d) i with
  | Some k => (d, k)
  | None =>
      let k := length (footers d) in
      (mkDocument (alter (set_footer_ref k) 0 (sections d))
         (footers d ++ [default_footer]) (styles d) (body d), k)
  end.

Definition empty_paragraph : Paragraph :=
  mkParagraph None (mkParagraphFormat None None None None None None None) [].

Definition page_field_run : Run :=
  mkRun None [RFldChar fld_begin; RInstrText (str " PAGE "); RFldChar fld_separate; RFldChar fld_end].

Definition footer_alignment (position : text) : WD_ALIGN_PARAGRAPH :=
  if text_eqb position (str "center") then CENTER
  else if text_eqb position (str "left") then LEFT
  else RIGHT.

Definition add_page_field (position : text) (f : Footer) : Footer :=
  let ps := match ftr_paragraphs f with
            | [] => [empty_paragraph]
            | ps => ps
            end in
  let number (para : Paragraph) :=
    let para := with_format (set_alignment (Some (footer_alignment position))) para in
    with_runs (p_runs para ++ [page_field_run]) para in
  mkFooter (alter number 0 ps).

(** [add_page_number_to_footer(doc, position)] *)
Definition add_page_number_to_footer (position : text) (d : Document) : Document :=
  foldl (fun d i =>
           let '(d, k) := get_or_add_footer i d in
           mkDocument (sections d) (alter (add_page_field position) k (footers d))
             (styles d) (body d))
        d (seq 0 (length (sections d))).

(** *** Blank paragraphs *)

(** [not p.text.strip()] *)
Definition is_blank (p : Paragraph) : bool := negb (truthy (strip (paragraph_text p))).

(** Removing the [k]-th paragraph of [doc.paragraphs] from the body. *)
Fixpoint remove_paragraph (k : nat) (b : list Block) : list Block :=
  match b with
  | [] => []
  | BParagraph p :: rest =>
      match k with
      | O => rest
      | S k' => BParagraph p :: remove_paragraph k' rest
      end
  | x :: rest => x :: remove_paragraph k rest
  end.

(** The test of the loop body on [doc.paragraphs[i]] and
    [doc.paragraphs[i+1]]; both exist under the loop condition. *)
Definition both_blank (i : nat) (b : list Block) : bool :=
  match paragraphs b !! i, paragraphs b !! (i + 1) with
  | Some p, Some q => is_blank p && is_blank q
  | _, _ => false
  end.

(** The [while] loop of [remove_extra_blank_lines]: [doc.paragraphs] is
    read afresh at every turn; a turn either removes a paragraph and keeps
    [i], or moves [i] on.  Removing an element from its parent does not
    raise, so the [except] branch is never taken. *)
Equations? blank_lines_loop (i : nat) (b : list Block) : list Block
  by wf (length (paragraphs b) - i) lt :=
  blank_lines_loop i b with inspect (i + 1 <? length (paragraphs b)) := {
    | exist _ true Hlt =>
        if both_blank i b
        then blank_lines_loop i (remove_paragraph (i + 1) b)
        else blank_lines_loop (i + 1) b
    | exist _ false _ => b }.
Proof.
  all: apply Nat.ltb_lt in Hlt.
  - assert (Hlen : forall k c, k < length (paragraphs c) ->
               length (paragraphs (remove_paragraph k c)) = pred (length (paragraphs c))).
    { intros k c. revert k.
      induction c as [|x c IH]; intros k Hk; simpl in *; [lia|].
      destruct x; simpl in *; [|apply IH; lia|apply IH; lia].
      destruct k; simpl; [reflexivity|]. rewrite IH by lia. lia. }
    rewrite Hlen by lia. lia.
  - lia.
Qed.

(** [remove_extra_blank_lines(doc)] *)
Definition remove_extra_blank_lines (d : Document) : Document :=
  with_body (blank_lines_loop 0 (body d)) d.

(** *** Tables *)

(** [tr.get_or_add_trPr()]: the children of the row properties, created
    empty when absent. *)
Definition get_or_add_trPr (r : Row) : list TrPrChild := default [] (trPr r).

(** [_set_row_cant_split(row)] *)
Definition _set_row_cant_split (r : Row) : Row :=
  let trPr := get_or_add_trPr r in
  mkRow (Some (trPr ++ [cantSplit])).

(** [table._tbl.get_or_add_tblPr()]: python-docx declares the table
    properties of a table as a required child and generates no
    [get_or_add_] accessor for it, so the call raises. *)
Definition get_or_add_tblPr (t : Table) : result (list TblPrChild) :=
  Raise AttributeError.

(** The body of the [for] loop of the hardening, at row index [i]. *)
Definition harden_row (i : nat) (r : Row) : Row :=
  let r := _set_row_cant_split r in
  if Nat.eqb i 0 then
    let trPr := get_or_add_trPr r in
    mkRow (Some (trPr ++ [tblHeader]))
  else r.

(** [prevent_table_row_split_and_repeat_header(table)]: the row loop, then
    the layout step inside [try ... except Exception: pass]. *)
Definition prevent_table_row_split_and_repeat_header (t : Table) : Table :=
  let t := mkTable (imap harden_row (tbl_rows t)) (tblPr t) in
  match (pr ← get_or_add_tblPr t; Ok (mkTable (tbl_rows t) (pr ++ [tblLayout_fixed]))) with
  | Ok t' => t'
  | Raise _ => t
  end.

Definition map_tables (f : Table -> Table) (b : list Block) : list Block :=
  map (fun x => match x with BTable t => BTable (f t) | _ => x end) b.

(** [center_paragraphs_with_drawings(doc)] *)
Definition center_paragraphs_with_drawings (d : Document) : Document :=
  let visit (p : Paragraph) :=
    if has_drawing p then
      let p := with_format (set_alignment (Some CENTER)) p in
      with_format (set_first_line_indent (Some (Cm 0))) p
    else p in
  with_body (map_paragraphs visit (body d)) d.

(** *** Long quotations *)

Definition OPEN_LONG_QUOTE : text := str "[[CITACAO_LONGA]]".
Definition CLOSE_LONG_QUOTE : text := str "[[/CITACAO_LONGA]]".

(** [apply_long_quote_style(paragraph)].  The font size is assigned to
    [paragraph.style.font], the style object shared by every paragraph
    that resolves to it; without a style the assignment target raises. *)
Definition apply_long_quote_style (st : list Style) (p : Paragraph)
    : result (list Style * Paragraph) :=
  let p := with_format (set_first_line_indent (Some (Cm 0))) p in
  let p := with_format (set_left_indent (Some (Cm 4))) p in
  let p := with_format (set_right_indent (Some (Cm 0))) p in
  let p := with_format (set_line_spacing (Some single_spacing)) p in
  match paragraph_style st p with
  | Some k =>
      let st := alter (set_font_size (Some (Pt 10))) k st in
      Ok (st, with_format (set_alignment (Some JUSTIFY)) p)
  | None => Raise AttributeError
  end.

(** The state of the marker scan: the flag, the counter and the registry. *)
Record QuoteScan := mkQuoteScan {
  in_block : bool;
  changed : nat;
  scan_styles : list Style
}.

(** One turn of the loop of [process_long_quote_markers]. *)
Definition long_quote_step (s : QuoteScan) (p : Paragraph) : result (QuoteScan * Paragraph) :=
  let txt := paragraph_text p in
  if contains OPEN_LONG_QUOTE txt then
    let p := set_paragraph_text (replace OPEN_LONG_QUOTE [] txt) p in
    '(st, p) ← apply_long_quote_style (scan_styles s) p;
    Ok (mkQuoteScan true (changed s + 1) st, p)
  else if contains CLOSE_LONG_QUOTE txt then
    let p := set_paragraph_text (replace CLOSE_LONG_QUOTE [] txt) p in
    '(st, p) ← apply_long_quote_style (scan_styles s) p;
    Ok (mkQuoteScan false (changed s + 1) st, p)
  else if in_block s then
    '(st, p) ← apply_long_quote_style (scan_styles s) p;
    Ok (mkQuoteScan (in_block s) (changed s + 1) st, p)
  else Ok (s, p).

(** [process_long_quote_markers(doc)] *)
Definition process_long_quote_markers (d : Document) : result (nat * Document) :=
  '(s, b) ← for_paragraphs long_quote_step (mkQuoteScan false 0 (styles d)) (body d);
  Ok (changed s, mkDocument (sections d) (footers d) (scan_styles s) b).

(** *** Reference list *)

Definition OPEN_REFS : text := str "[[REFERENCIAS]]".
Definition CLOSE_REFS : text := str "[[/REFERENCIAS]]".

Definition references_format (hanging : Z) (spacing : LineSpacing) (space_between : Z)
    (p : Paragraph) : Paragraph :=
  let p := with_format (set_first_line_indent (Some (Cm 0))) p in
  let p := with_format (set_left_indent (Some hanging)) p in
  let p := with_format (set_line_spacing (Some spacing)) p in
  let p := with_format (set_space_after (Some space_between)) p in
  with_format (set_alignment (Some JUSTIFY)) p.

(** One turn of the loop of [apply_references_block_format]; the state is
    [(in_refs, count)] and [t] is the text read at the top of the turn. *)
Definition references_step (hanging : Z) (spacing : LineSpacing) (space_between : Z)
    (s : bool * nat) (p : Paragraph) : (bool * nat) * Paragraph :=
  let '(in_refs, count) := s in
  let t := paragraph_text p in
  let '(in_refs, p) :=
    if contains OPEN_REFS t then (true, set_paragraph_text (replace OPEN_REFS [] t) p)
    else if contains CLOSE_REFS t then (false, set_paragraph_text (replace CLOSE_REFS [] t) p)
    else (in_refs, p) in
  if in_refs || contains CLOSE_REFS t then
    ((in_refs, count + 1), references_format hanging spacing space_between p)
  else ((in_refs, count), p).

(** [apply_references_block_format(doc, first_line_hanging_cm,
    line_spacing, space_between_pts)]; lengths come as [Cm(...)] and
    [Pt(...)]. *)
Definition apply_references_block_format (hanging : Z) (spacing : LineSpacing)
    (space_between : Z) (d : Document) : nat * Document :=
  let '(s, b) := scan_paragraphs (references_step hanging spacing space_between)
                   (false, 0) (body d) in
  (snd s, with_body b d).

(** *** Figures and tables *)

(** [paragraph.add_run(text)] *)
Definition add_run (s : text) (p : Paragraph) : Paragraph :=
  with_runs (p_runs p ++ [set_run_text s (mkRun None [])]) p.

(** [p.insert_paragraph_after(text)]: a python-docx paragraph offers
    [insert_paragraph_before] only, so the attribute lookup raises. *)
Definition insert_paragraph_after (p : Paragraph) (s : text) : result Paragraph :=
  Raise AttributeError.

Definition set_italic (v : option bool) (r : Run) : Run := mkRun v (r_content r).

(** [add_caption_after_paragraph(p, text, italic)] *)
Definition add_caption_after_paragraph (p : Paragraph) (s : text) (italic : bool)
    : result Paragraph :=
  cap ← insert_paragraph_after p s;
  let cap := with_format (set_alignment (Some CENTER)) cap in
  let cap := with_format (set_first_line_indent (Some (Cm 0))) cap in
  let cap :=
    match italic, p_runs cap with
    | true, _ :: _ => with_runs (alter (set_italic (Some true)) 0 (p_runs cap)) cap
    | _, _ => cap
    end in
  Ok cap.

Definition en_dash : text := [8211%N].

(** [f"Figura {fig_n} – Descrição da figura"] *)
Definition figure_caption (fig_n : nat) : text :=
  str "Figura " ++ decimal fig_n ++ str " " ++ en_dash
  ++ str " Descri" ++ [231%N; 227%N] ++ str "o da figura".

(** [f"Tabela {tab_n+1} – Título da tabela"] *)
Definition table_title (tab_n : nat) : text :=
  str "Tabela " ++ decimal (tab_n + 1) ++ str " " ++ en_dash
  ++ str " T" ++ [237%N] ++ str "tulo da tabela".

(** ["Fonte: elaboração própria."] *)
Definition table_source : text :=
  str "Fonte: elabora" ++ [231%N; 227%N] ++ str "o pr" ++ [243%N] ++ str "pria.".

(** [first_p._element.__class__('w:p')]: the element class of a paragraph
    is called as a constructor.  Such a class carries no tag of its own,
    so the new element takes the name of the class as its tag, and the
    string argument becomes its text: the result is not a paragraph. *)
Definition new_element_of_class_of (first_p : Paragraph) (arg : text) : Block :=
  BOther (str "CT_P") arg.

(** The search of the new element among [doc.paragraphs], and what is
    done with the proxy when one is found. *)
Definition fill_caption (align : WD_ALIGN_PARAGRAPH) (s : text) (new_p : Block) : Block :=
  match new_p with
  | BParagraph p_obj =>
      let p_obj := with_format (set_alignment (Some align)) p_obj in
      let p_obj := with_format (set_first_line_indent (Some (Cm 0))) p_obj in
      BParagraph (add_run s p_obj)
  | _ => new_p
  end.

(** The walk of [ensure_captions] over [doc.element.body].  The iterator
    of an element's children keeps a reference to the element it will
    yield next, taken when the current one is yielded: [pending] is the
    chain that starts there, and [before] is everything up to and
    including the current element.  What a turn inserts before or right
    after the current element lands in [before] and is never yielded. *)
Fixpoint captions_walk (add_fig_captions add_tab_captions : bool)
    (fig_n tab_n : nat) (before pending : list Block) : result (list Block) :=
  match pending with
  | [] => Ok before
  | block :: rest =>
      match block with
      | BParagraph p =>
          if has_drawing p && add_fig_captions then
            let fig_n := fig_n + 1 in
            cap ← add_caption_after_paragraph p (figure_caption fig_n) false;
            captions_walk add_fig_captions add_tab_captions fig_n tab_n
              (before ++ [block; BParagraph cap]) rest
          else
            captions_walk add_fig_captions add_tab_captions fig_n tab_n
              (before ++ [block]) rest
      | BTable tbl =>
          let tbl := prevent_table_row_split_and_repeat_header tbl in
          if add_tab_captions then
            match paragraphs (before ++ BTable tbl :: rest) with
            | [] => Raise IndexError
            | first_p :: _ =>
                let new_p_above := new_element_of_class_of first_p (str "w:p") in
                let new_p_above := fill_caption CENTER (table_title tab_n) new_p_above in
                let new_p_below := new_element_of_class_of first_p (str "w:p") in
                let new_p_below := fill_caption LEFT table_source new_p_below in
                captions_walk add_fig_captions add_tab_captions fig_n (tab_n + 1)
                  (before ++ [new_p_above; BTable tbl; new_p_below]) rest
            end
          else
            captions_walk add_fig_captions add_tab_captions fig_n tab_n
              (before ++ [BTable tbl]) rest
      | BOther _ _ =>
          captions_walk add_fig_captions add_tab_captions fig_n tab_n
            (before ++ [block]) rest
      end
  end.

(** [ensure_captions(doc, add_fig_captions, add_tab_captions)] *)
Definition ensure_captions (add_fig_captions add_tab_captions : bool) (d : Document)
    : result Document :=
  b ← captions_walk add_fig_captions add_tab_captions 0 0 [] (body d);
  Ok (with_body b d).

(** ** The pipeline *)

(** The keyword arguments of [apply_abnt_formatting];
    [first_line_indent_cm] holds the length [Cm(first_line_indent_cm)]. *)
Record Config := mkConfig {
  h1_caps : bool;
  h2_caps : bool;
  h3_caps : bool;
  justify : bool;
  footer_page_numbers : bool;
  first_line_indent_cm : Z;
  center_images : bool;
  auto_captions_fig : bool;
  auto_captions_tab : bool;
  format_refs_block : bool
}.

(** The defaults of the signature. *)
Definition default_config : Config :=
  mkConfig true true true true true Cm_1_25 true true true true.

Section Pipeline.
Context `{CaseMapping}.

(** [apply_abnt_formatting(doc, ...)] *)
Definition apply_abnt_formatting (cfg : Config) (d : Document) : result Document :=
  let d := set_page_margins (Cm 3) (Cm 3) (Cm 2) (Cm 2) d in
  d ← configure_default_style (str "Times New Roman") (Pt 12) one_and_a_half_spacing
         (first_line_indent_cm cfg) true d;
  d ← style_all_paragraphs (justify cfg) (first_line_indent_cm cfg) d;
  let d := configure_heading_styles (h1_caps cfg) (h2_caps cfg) (h3_caps cfg) d in
  let d := if center_images cfg then center_paragraphs_with_drawings d else d in
  let d := with_body (map_tables prevent_table_row_split_and_repeat_header (body d)) d in
  d ← ensure_captions (auto_captions_fig cfg) (auto_captions_tab cfg) d;
  '(_, d) ← process_long_quote_markers d;
  let d := if format_refs_block cfg
           then snd (apply_references_block_format Cm_1_25 single_spacing (Pt 6) d)
           else d in
  let d := if footer_page_numbers cfg then add_page_number_to_footer (str "right") d else d in
  Ok (remove_extra_blank_lines d).

(** The three whole-document property passes, in pipeline order. *)
Definition property_passes (top left right bottom : Z) (name : text) (size : Z)
    (spacing : LineSpacing) (style_indent : Z) (style_justify : bool)
    (justify : bool) (indent : Z) (d : Document) : result Document :=
  let d := set_page_margins top left right bottom d in
  d ← configure_default_style name size spacing style_indent style_justify d;
  style_all_paragraphs justify indent d.

End Pipeline.

(** ** Reference strings and the download name *)

(** The truth value of an optional string: [None] and [''] are false. *)
Definition opt_truthy (o : option text) : bool :=
  match o with
  | Some s => truthy s
  | None => false
  end.

Section ReferenceStrings.
Context `{CaseMapping}.

(** [format_reference_livro(autor_sobrenome, autor_iniciais, titulo, ed,
    local, editora, ano)] *)
Definition format_reference_livro (autor_sobrenome autor_iniciais titulo : text)
    (ed : option text) (local editora ano : text) : text :=
  let ed_str := if opt_truthy ed then str " " ++ default [] ed ++ str "." else str "." in
  str_upper autor_sobrenome ++ str ", " ++ autor_iniciais ++ str ". " ++ titulo
  ++ str "." ++ ed_str ++ str " " ++ local ++ str ": " ++ editora ++ str ", " ++ ano
  ++ str ".".

(** [format_reference_artigo(autor_sobrenome, autor_iniciais, titulo,
    periodico, volume, numero, paginas, ano)] *)
Definition format_reference_artigo (autor_sobrenome autor_iniciais titulo periodico
    volume : text) (numero : option text) (paginas ano : text) : text :=
  let num := if opt_truthy numero then str "(" ++ default [] numero ++ str ")" else [] in
  str_upper autor_sobrenome ++ str ", " ++ autor_iniciais ++ str ". " ++ titulo
  ++ str ". " ++ periodico ++ str ", v. " ++ volume ++ str " " ++ num ++ str ", p. "
  ++ paginas ++ str ", " ++ ano ++ str ".".

(** [format_reference_site(autor_sobrenome, autor_iniciais, titulo, site,
    url, acesso_data, ano)] *)
Definition format_reference_site (autor_sobrenome autor_iniciais : option text)
    (titulo site url acesso_data : text) (ano : option text) : text :=
  let autor :=
    if opt_truthy autor_sobrenome && opt_truthy autor_iniciais
    then str_upper (default [] autor_sobrenome) ++ str ", "
         ++ default [] autor_iniciais ++ str ". "
    else [] in
  let ano_str := if opt_truthy ano then str " " ++ default [] ano ++ str "." else str "." in
  autor ++ titulo ++ str ". " ++ site ++ str ". Dispon" ++ [237%N] ++ str "vel em: <"
  ++ url ++ str ">. Acesso em: " ++ acesso_data ++ str "." ++ ano_str.

End ReferenceStrings.

(** The name of the file offered for download, from the name of the
    uploaded one: [uploaded.name.replace('.docx', '').replace('.DOCX', '')]
    and then [f"{base_name}_ABNT.docx"]. *)
Definition download_file_name (uploaded_name : text) : text :=
  let base_name := replace (str ".DOCX") [] (replace (str ".docx") [] uploaded_name) in
  base_name ++ str "_ABNT.docx".

(** ** Vocabulary of the properties *)

(** The two marker pairs and the pass each one drives. *)
Inductive RegionKind :=
  | LongQuote
  | References (hanging : Z) (spacing : LineSpacing) (space_between : Z).

Definition open_token (k : RegionKind) : text :=
  match k with LongQuote => OPEN_LONG_QUOTE | References _ _ _ => OPEN_REFS end.
Definition close_token (k : RegionKind) : text :=
  match k with LongQuote => CLOSE_LONG_QUOTE | References _ _ _ => CLOSE_REFS end.

Definition region_pass (k : RegionKind) (d : Document) : result (nat * Document) :=
  match k with
  | LongQuote => process_long_quote_markers d
  | References hanging spacing gap =>
      Ok (apply_references_block_format hanging spacing gap d)
  end.

(** The formatting record of a long quotation. *)
Definition long_quote_format (f : ParagraphFormat) : Prop :=
  first_line_indent f = Some (Cm 0) /\ left_indent f = Some (Cm 4)
  /\ right_indent f = Some (Cm 0) /\ line_spacing f = Some single_spacing
  /\ alignment f = Some JUSTIFY.

(** The formatting record of a reference entry. *)
Definition references_block_format (hanging : Z) (spacing : LineSpacing) (gap : Z)
    (f : ParagraphFormat) : Prop :=
  first_line_indent f = Some (Cm 0) /\ left_indent f = Some hanging
  /\ line_spacing f = Some spacing /\ space_after f = Some gap
  /\ alignment f = Some JUSTIFY.

(** A paragraph carries the style of a region: its formatting record has
    the target values and, for a long quotation, the font size read
    through its style is 10 pt. *)
Definition carries_region_style (k : RegionKind) (st : list Style) (p : Paragraph) : Prop :=
  match k with
  | LongQuote =>
      long_quote_format (p_format p) /\ paragraph_font_size st p = Some (Pt 10)
  | References hanging spacing gap =>
      references_block_format hanging spacing gap (p_format p)
  end.

(** Every paragraph of the body resolves to a style object. *)
Definition every_paragraph_has_style (d : Document) : Prop :=
  Forall (fun p => is_Some (paragraph_style (styles d) p)) (paragraphs (body d)).


(** What a pass needs of the document in order to return. *)
Definition region_ready (k : RegionKind) (d : Document) : Prop :=
  match k with
  | LongQuote => every_paragraph_has_style d
  | References _ _ _ => True
  end.

(** The "inside region" flag after the paragraphs [ps], read off their
    texts alone. *)
Definition flag_step (k : RegionKind) (flag : bool) (p : Paragraph) : bool :=
  if contains (open_token k) (paragraph_text p) then true
  else if contains (close_token k) (paragraph_text p) then false
  else flag.
Definition flag_after (k : RegionKind) (ps : list Paragraph) : bool :=
  foldl (flag_step k) false ps.

(** The loop over a list of paragraphs, without the blocks in between. *)
Fixpoint for_list {S} (f : S -> Paragraph -> result (S * Paragraph))
    (s : S) (ps : list Paragraph) : result (S * list Paragraph) :=
  match ps with
  | [] => Ok (s, [])
  | p :: rest =>
      '(s1, p') ← f s p;
      '(s2, rest') ← for_list f s1 rest;
      Ok (s2, p' :: rest')
  end.

Fixpoint scan_list {S} (f : S -> Paragraph -> S * Paragraph)
    (s : S) (ps : list Paragraph) : S * list Paragraph :=
  match ps with
  | [] => (s, [])
  | p :: rest =>
      let '(s1, p') := f s p in
      let '(s2, rest') := scan_list f s1 rest in
      (s2, p' :: rest')
  end.

(** What one turn of a marker scan does to a paragraph [p], read against
    the registry [st] the pass leaves: [flag] is the "inside region" flag
    on entry, [p'] the paragraph afterwards. *)
Definition step_effect (k : RegionKind) (flag : bool) (st : list Style)
    (p p' : Paragraph) : Prop :=
  p_style p' = p_style p /\
  if contains (open_token k) (paragraph_text p) then
    paragraph_text p' = replace (open_token k) [] (paragraph_text p)
    /\ carries_region_style k st p'
  else if contains (close_token k) (paragraph_text p) then
    paragraph_text p' = replace (close_token k) [] (paragraph_text p)
    /\ carries_region_style k st p'
  else if flag then p_runs p' = p_runs p /\ carries_region_style k st p'
  else p' = p.

(** What identifies a style for lookup: no pass changes it. *)
Definition style_key (s : Style) : text * WD_STYLE_TYPE * bool * option text :=
  (style_id s, style_type s, style_default s, style_name s).

(** The registry [st'] comes from [st] by assignments of 10 pt font sizes:
    every style is the old one, or the old one with its size set. *)
Definition evolves (st st' : list Style) : Prop :=
  length st' = length st /\
  forall k s, st !! k = Some s ->
    st' !! k = Some s \/ st' !! k = Some (set_font_size (Some (Pt 10)) s).

(** What a marker pass does to the registry: the reference pass nothing,
    the long-quotation pass assignments of 10 pt font sizes. *)
Definition registry_effect (k : RegionKind) (st st' : list Style) : Prop :=
  match k with
  | LongQuote => evolves st st'
  | References _ _ _ => st' = st
  end.

(** Two texts disagree at a position both have. *)
Fixpoint clash (a b : text) : bool :=
  match a, b with
  | x :: a', y :: b' => negb (N.eqb x y) || clash a' b'
  | _, _ => false
  end.

(** No occurrence of [a] can begin inside an occurrence of [b]. *)
Definition starts_nowhere_in (a b : text) : bool :=
  forallb (fun i => clash a (drop i b)) (seq 0 (length b)).

(** The collapse of blank paragraphs as a single pass over the body: a
    paragraph goes when it is blank and the paragraph kept before it is
    blank; other blocks stay and do not separate paragraphs. *)
Fixpoint collapse_body (prev_blank : bool) (b : list Block) : list Block :=
  match b with
  | [] => []
  | BParagraph p :: rest =>
      if prev_blank && is_blank p then collapse_body true rest
      else BParagraph p :: collapse_body (is_blank p) rest
  | x :: rest => x :: collapse_body prev_blank rest
  end.

Fixpoint collapse_blanks (prev_blank : bool) (ps : list Paragraph) : list Paragraph :=
  match ps with
  | [] => []
  | p :: rest =>
      if prev_blank && is_blank p then collapse_blanks true rest
      else p :: collapse_blanks (is_blank p) rest
  end.

(** The flag the collapse carries after the paragraphs [ps]. *)
Definition blank_state (flag : bool) (ps : list Paragraph) : bool :=
  match last ps with
  | Some x => is_blank x
  | None => flag
  end.

(** Row properties. *)
Definition row_children (r : Row) : list TrPrChild := default [] (trPr r).
Definition child_eqb (a b : TrPrChild) : bool :=
  match a, b with
  | cantSplit, cantSplit => true
  | tblHeader, tblHeader => true
  | trPr_other s, trPr_other t => text_eqb s t
  | _, _ => false
  end.
Definition count_child (c : TrPrChild) (r : Row) : nat :=
  length (List.filter (child_eqb c) (row_children r)).
Definition row_has (c : TrPrChild) (r : Row) : bool :=
  existsb (child_eqb c) (row_children r).

(** A case mapping to run the passes on concrete documents: letters A-Z
    and a-z only. *)
Definition ascii_upper (c : char) : char :=
  if in_range 97 122 c then (c - 32)%N else c.
Definition ascii_lower (c : char) : char :=
  if in_range 65 90 c then (c + 32)%N else c.
Definition ascii_case : CaseMapping :=
  {| str_upper := map ascii_upper; str_lower := map ascii_lower |}.

(** Concrete documents. *)
Definition no_format : ParagraphFormat := mkParagraphFormat None None None None None None None.
Definition plain (style : option text) (s : text) : Paragraph :=
  mkParagraph style no_format [mkRun None [RText s]].
Definition normal_style (size : Z) : Style :=
  mkStyle (str "Normal") PARAGRAPH true (Some (str "Normal")) None (Some size) no_format.
Definition one_section : Section := mkSection None None None None None.
Definition document_of (b : list Block) : Document :=
  mkDocument [one_section] [] [normal_style (Pt 12)] b.

(** The document [A, "<OPEN>text1", "mid", "text2<CLOSE>", B], every
    paragraph in the one style [Normal] at 12 pt. *)
Definition inclusivity_paragraphs : list Paragraph :=
  [ plain (Some (str "Normal")) (str "A");
    plain (Some (str "Normal")) (OPEN_LONG_QUOTE ++ str "text1");
    plain (Some (str "Normal")) (str "mid");
    plain (Some (str "Normal")) (str "text2" ++ CLOSE_LONG_QUOTE);
    plain (Some (str "Normal")) (str "B") ].
Definition inclusivity_document : Document :=
  document_of (map BParagraph inclusivity_paragraphs).

(** A document with an open token that is never closed, and one with a
    stray close token, with a table among the paragraphs. *)
Definition unclosed_document : Document :=
  document_of
    [ BParagraph (plain None (str "before"));
      BParagraph (plain None (OPEN_LONG_QUOTE ++ str "quoted"));
      BTable (mkTable [mkRow None] []);
      BParagraph (plain None (str "more"));
      BParagraph (plain None (str "last")) ].
Definition stray_close_document : Document :=
  document_of
    [ BParagraph (plain None (str "ordinary"));
      BParagraph (plain None (str "entry" ++ CLOSE_REFS));
      BParagraph (plain None (str "after")) ].
(** The texts of the stray close token, with the close token of a long
    quotation; the three paragraphs are in the one style [Normal] at
    12 pt. *)
Definition stray_close_quote_paragraphs : list Paragraph :=
  [ plain None (str "ordinary");
    plain None (str "entry" ++ CLOSE_LONG_QUOTE);
    plain None (str "after") ].
Definition stray_close_quote_document : Document :=
  document_of (map BParagraph stray_close_quote_paragraphs).
Definition both_tokens_document : Document :=
  document_of
    [ BParagraph (plain None (OPEN_LONG_QUOTE ++ str "quote" ++ CLOSE_LONG_QUOTE));
      BParagraph (plain None (str "next"));
      BParagraph (plain None (str "end" ++ CLOSE_LONG_QUOTE));
      BParagraph (plain None (str "outside")) ].

(** The header-repeat property as the specification states it, for one
    table: after the hardening row 0 repeats as a header, no later row
    does, and every row is kept on one page. *)
Definition header_repeat_invariant (t : Table) : Prop :=
  1 <= length (tbl_rows t) ->
  let t' := prevent_table_row_split_and_repeat_header t in
  (exists r, tbl_rows t' !! 0 = Some r /\ row_has tblHeader r = true)
  /\ (forall i r, 1 <= i -> tbl_rows t' !! i = Some r -> row_has tblHeader r = false)
  /\ (forall i r, tbl_rows t' !! i = Some r -> row_has cantSplit r = true).

(** A table whose first two rows are header rows, as a word processor
    writes it when two rows are set to repeat. *)
Definition two_header_rows : Table :=
  mkTable [mkRow (Some [tblHeader]); mkRow (Some [tblHeader]); mkRow None] [].

(** Documents with blank paragraphs: a run of three between two texts,
    and a blank paragraph followed by a paragraph that holds a picture
    and no text. *)
Definition three_blanks_document : Document :=
  document_of
    [ BParagraph (plain None (str "above"));
      BParagraph (plain None []);
      BParagraph (plain None (str "  "));
      BParagraph (mkParagraph None no_format []);
      BParagraph (plain None (str "below")) ].
Definition picture_paragraph : Paragraph :=
  mkParagraph None no_format [mkRun None [RDrawing]].
Definition blank_then_picture_document : Document :=
  document_of
    [ BParagraph (plain None (str "above"));
      BParagraph (plain None []);
      BParagraph picture_paragraph;
      BParagraph (plain None (str "below")) ].

(** Bodies for the walker: a table alone, a text and a table, a picture
    alone. *)
Definition one_row_table : Table := mkTable [mkRow None] [].
Definition table_only_document : Document := document_of [BTable one_row_table].
Definition text_and_table_document : Document :=
  document_of [BParagraph (plain None (str "text")); BTable one_row_table].
Definition picture_only_document : Document :=
  document_of [BParagraph picture_paragraph].

(** A document whose table comes with row properties already set, as a
    word processor writes it when the rows are kept on one page and the
    first one repeats as a header. *)
Definition hardened_rows_table : Table :=
  mkTable [mkRow (Some [cantSplit; tblHeader]); mkRow (Some [cantSplit])] [].
Definition hardened_rows_document : Document :=
  document_of [BParagraph (plain None (str "text")); BTable hardened_rows_table].

(** The outcome of the two hardenings as the specification states it:
    when the pipeline returns, every row of every table holds two
    cannot-split children, and row 0 holds two repeat-header children. *)
Definition two_children_per_row `{CaseMapping} (cfg : Config) (d : Document) : Prop :=
  forall d', apply_abnt_formatting cfg d = Ok d' ->
    forall k t' i r', tables (body d') !! k = Some t' -> tbl_rows t' !! i = Some r' ->
      count_child cantSplit r' = 2 /\ (i = 0 -> count_child tblHeader r' = 2).

(** What two hardenings append to the properties of row [i]. *)
Definition appended_twice (i : nat) : list TrPrChild :=
  if Nat.eqb i 0 then [cantSplit; tblHeader; cantSplit; tblHeader]
  else [cantSplit; cantSplit].

(** *** Further vocabulary *)

(** No two neighbours in a list of paragraphs are both blank. *)
Fixpoint no_blank_neighbours (ps : list Paragraph) : bool :=
  match ps with
  | p :: rest =>
      match rest with
      | q :: _ => negb (is_blank p && is_blank q)
      | [] => true
      end && no_blank_neighbours rest
  | [] => true
  end.

(** The body with its paragraphs blotted out: what is left tells where
    the paragraphs sit and what the other blocks are. *)
Definition skeleton (b : list Block) : list (option Block) :=
  map (fun x => match x with BParagraph _ => None | _ => Some x end) b.

(** The blocks of the body that are not paragraphs. *)
Definition other_blocks (b : list Block) : list Block :=
  List.filter (fun x => match x with BParagraph _ => false | _ => true end) b.

(** A marker scan styles the paragraph [p] reached with the flag [flag]. *)
Definition styled_here (k : RegionKind) (flag : bool) (p : Paragraph) : bool :=
  contains (open_token k) (paragraph_text p)
  || contains (close_token k) (paragraph_text p)
  || flag.

Definition holds_token (k : RegionKind) (p : Paragraph) : bool :=
  contains (open_token k) (paragraph_text p)
  || contains (close_token k) (paragraph_text p).

(** The number of paragraphs a marker scan styles, from the flag [flag]. *)
Fixpoint count_styled (k : RegionKind) (flag : bool) (ps : list Paragraph) : nat :=
  match ps with
  | [] => 0
  | p :: rest =>
      (if styled_here k flag p then 1 else 0) + count_styled k (flag_step k flag p) rest
  end.

(** What the walker leaves in place of a block when table captions are
    asked for. *)
Definition class_named_element : Block := BOther (str "CT_P") (str "w:p").
Definition wrap_table (x : Block) : list Block :=
  match x with
  | BTable t =>
      [class_named_element;
       BTable (prevent_table_row_split_and_repeat_header t);
       class_named_element]
  | _ => [x]
  end.

(** The margins of a section. *)
Definition margins (s : Section) : option Z * option Z * option Z * option Z :=
  (top_margin s, left_margin s, right_margin s, bottom_margin s).
Definition abnt_margins : option Z * option Z * option Z * option Z :=
  (Some (Cm 3), Some (Cm 3), Some (Cm 2), Some (Cm 2)).

(** The paragraph of a footer after [n] page fields were appended. *)
Definition numbered_footer_paragraph (position : text) (n : nat) : Paragraph :=
  mkParagraph (Some (str "Footer"))
    (set_alignment (Some (footer_alignment position)) no_format)
    (repeat page_field_run n).

(** Further concrete documents. *)
Definition styleless_document : Document :=
  mkDocument [one_section] [] []
    [ BParagraph (plain None (str "plain"));
      BParagraph (plain None (OPEN_LONG_QUOTE ++ str "quoted")) ].
Definition marker_free_document : Document :=
  document_of
    [ BParagraph (plain None (str "one"));
      BTable one_row_table;
      BParagraph (plain None (str "two")) ].
Definition picture_with_marker : Paragraph :=
  mkParagraph None no_format
    [mkRun None [RText (OPEN_REFS ++ str "entry"); RDrawing]; mkRun None [RDrawing]].
Definition picture_with_marker_document : Document :=
  document_of [BParagraph picture_with_marker].
Definition heading_style (n : string) : Style :=
  mkStyle (str "Heading" ++ str n) PARAGRAPH false (Some (str "Heading " ++ str n))
    None None no_format.
Definition heading_with_picture : Paragraph :=
  mkParagraph (Some (str "Heading1")) no_format
    [mkRun None [RText (str "title")]; mkRun None [RDrawing]].
Definition heading_document : Document :=
  mkDocument [one_section] [] [normal_style (Pt 12); heading_style "1"]
    [BParagraph heading_with_picture].
Definition three_sections_document : Document :=
  mkDocument [one_section; one_section; one_section] [] [normal_style (Pt 12)]
    [BParagraph (plain None (str "text"))].

(** What a marker scan does to each paragraph, whatever the flag: the
    style reference stays; a paragraph that holds a token is left with
    one run and no picture. *)
Definition scan_keeps (k : RegionKind) (p p1 : Paragraph) : Prop :=
  p_style p1 = p_style p
  /\ (holds_token k p = true -> has_drawing p1 = false /\ length (p_runs p1) = 1).


(** No occurrence of [old] can begin in front of the text [ext] and end
    inside it: no proper end of [old] is a beginning of [ext]. *)
Definition straddles_nowhere (old ext : text) : bool :=
  forallb (fun m => negb (startswith (drop m old) ext)) (seq 1 (length old - 1)).

(** * Properties *)

(** ** Texts *)

Section TextFacts.

Lemma N_eqb_true (a b : N) : N.eqb a b = true <-> a = b.
Proof. apply N.eqb_eq. Qed.

Lemma startswith_nil_r (a : text) : startswith a [] = true -> a = [].
Proof. destruct a; simpl; [reflexivity | discriminate]. Qed.

Lemma contains_nil_l (s : text) : contains [] s = true.
Proof. destruct s; reflexivity. Qed.

Lemma contains_cons (needle : text) (x : char) (s : text) :
  contains needle s = true -> contains needle (x :: s) = true.
Proof.
  intros Hs. cbn [contains]. rewrite Hs. apply orb_true_r.
Qed.

Lemma startswith_split (a s : text) :
  startswith a s = true -> s = a ++ drop (length a) s.
Proof.
  revert s. induction a as [|x a IH]; intros s Hs; simpl in *.
  - reflexivity.
  - destruct s as [|y s]; [discriminate|].
    apply andb_true_iff in Hs as [Hxy Hrest].
    apply N.eqb_eq in Hxy. subst y. simpl. f_equal. apply IH, Hrest.
Qed.

Lemma clash_startswith (a b r : text) :
  clash a b = true -> startswith a (b ++ r) = false.
Proof.
  revert b. induction a as [|x a IH]; intros b Hc; simpl in *.
  - discriminate.
  - destruct b as [|y b]; [discriminate|]. simpl.
    apply orb_true_iff in Hc as [Hne | Hc].
    + apply negb_true_iff in Hne. rewrite Hne. reflexivity.
    + rewrite (IH _ Hc). apply andb_false_r.
Qed.

Lemma starts_nowhere_in_at (a b : text) (i : nat) :
  starts_nowhere_in a b = true -> i < length b -> clash a (drop i b) = true.
Proof.
  unfold starts_nowhere_in. intros Hall Hi.
  rewrite forallb_forall in Hall. apply Hall.
  apply in_seq. lia.
Qed.

(** An occurrence that no [old] can cut into survives the scan. *)
Lemma scan_keeps_prefix (old x s : text) :
  (forall i, i < length x -> clash old (drop i x) = true) ->
  startswith x s = true ->
  startswith x (replace_scan old [] 0 s) = true.
Proof.
  revert s. induction x as [|c x IH]; intros s Hfree Hx.
  - reflexivity.
  - destruct s as [|c' s]; [discriminate|].
    pose proof (startswith_split _ _ Hx) as Hsplit.
    assert (Hno : startswith old (c' :: s) = false).
    { rewrite Hsplit. apply clash_startswith. apply (Hfree 0). simpl. lia. }
    cbn [replace_scan]. rewrite Hno.
    simpl in Hx. apply andb_true_iff in Hx as [Hc Hrest].
    simpl. rewrite Hc. simpl. apply IH; [|exact Hrest].
    intros i Hi. apply (Hfree (S i)). simpl. lia.
Qed.

(** The scan, whatever it is skipping, keeps an occurrence of [kept] when
    the two tokens cannot overlap. *)
Lemma scan_keeps_occurrence (old kept : text) :
  starts_nowhere_in old kept = true ->
  starts_nowhere_in kept old = true ->
  forall (s : text) (m : nat),
    (m = 0 \/ exists pre, old = pre ++ take m s /\ m <= length s) ->
    contains kept s = true ->
    contains kept (replace_scan old [] m s) = true.
Proof.
  intros Hok Hko. induction s as [|c s IH]; intros m Hinv Hc.
  - simpl in Hc. rewrite orb_false_r in Hc. apply startswith_nil_r in Hc.
    subst kept. apply contains_nil_l.
  - destruct m as [|k].
    + cbn [replace_scan].
      destruct (startswith old (c :: s)) eqn:Hold.
      * pose proof (startswith_split _ _ Hold) as Hsplit.
        destruct old as [|o old']; [simpl in *|].
        { (* an empty [old] starts everywhere: nothing begins inside [kept] *)
          destruct kept as [|k0 kept']; [apply contains_nil_l|].
          unfold starts_nowhere_in in Hok. simpl in Hok. discriminate. }
        simpl in Hsplit. injection Hsplit as Hco Hs.
        simpl. rewrite Nat.sub_0_r.
        apply IH.
        -- right. exists [o]. split.
           ++ simpl. f_equal. rewrite Hs.
              rewrite take_app_length. reflexivity.
           ++ rewrite Hs. rewrite length_app. lia.
        -- cbn [contains] in Hc. apply orb_true_iff in Hc as [Hc|Hc]; [|exact Hc].
           exfalso.
           assert (Hcl : startswith kept ((o :: old') ++ drop (length old') s) = false).
           { apply clash_startswith.
             apply (starts_nowhere_in_at kept (o :: old') 0 Hko). simpl. lia. }
           change ((o :: old') ++ drop (length old') s)
             with (o :: (old' ++ drop (length old') s)) in Hcl.
           rewrite <- Hs in Hcl. subst c. congruence.
      * cbn [contains] in Hc. apply orb_true_iff in Hc as [Hc|Hc].
        -- assert (Hkeep : startswith kept (replace_scan old [] 0 (c :: s)) = true).
           { apply scan_keeps_prefix; [|exact Hc].
             intros i Hi. apply starts_nowhere_in_at; assumption. }
           cbn [replace_scan] in Hkeep. rewrite Hold in Hkeep.
           cbn [contains]. rewrite Hkeep. reflexivity.
        -- apply contains_cons. apply IH; [left; reflexivity | exact Hc].
    + cbn [replace_scan].
      destruct Hinv as [Hm | (pre & Hold & Hlen)]; [discriminate|].
      simpl in Hold, Hlen.
      apply IH.
      * destruct k as [|k']; [left; reflexivity|].
        right. exists (pre ++ [c]). split; [|lia].
        rewrite <- app_assoc. exact Hold.
      * cbn [contains] in Hc. apply orb_true_iff in Hc as [Hc|Hc]; [|exact Hc].
        exfalso.
        assert (Hcs : c :: s = drop (length pre) old ++ drop k s).
        { rewrite Hold. rewrite drop_app_length. simpl. f_equal.
          symmetry. apply take_drop. }
        assert (Hcl : startswith kept (c :: s) = false).
        { rewrite Hcs. apply clash_startswith.
          apply starts_nowhere_in_at; [exact Hko|].
          rewrite Hold. rewrite length_app. simpl. lia. }
        congruence.
Qed.

(** [str.replace(old, '')] keeps an occurrence of a token that cannot
    overlap [old]. *)
Lemma replace_keeps_token (old kept t : text) :
  starts_nowhere_in old kept = true ->
  starts_nowhere_in kept old = true ->
  contains kept t = true ->
  contains kept (replace old [] t) = true.
Proof.
  intros Hok Hko Hc. unfold replace.
  destruct old as [|o old'].
  - destruct kept as [|k0 kept']; [apply contains_nil_l|].
    unfold starts_nowhere_in in Hok. simpl in Hok. discriminate.
  - apply scan_keeps_occurrence; auto.
Qed.

End TextFacts.

(** ** Loops over the paragraphs of the body *)

Section LoopFacts.
Context {S : Type}.

Lemma paragraphs_app (b1 b2 : list Block) :
  paragraphs (b1 ++ b2) = paragraphs b1 ++ paragraphs b2.
Proof. unfold paragraphs. apply flat_map_app. Qed.

Lemma tables_app (b1 b2 : list Block) : tables (b1 ++ b2) = tables b1 ++ tables b2.
Proof. unfold tables. apply flat_map_app. Qed.

(** A loop over the body is the loop over [doc.paragraphs]; the blocks in
    between stay as they are. *)
Lemma for_paragraphs_list (f : S -> Paragraph -> result (S * Paragraph)) :
  forall b s s' b',
    for_paragraphs f s b = Ok (s', b') ->
    for_list f s (paragraphs b) = Ok (s', paragraphs b') /\ tables b' = tables b.
Proof.
  induction b as [|x b IH]; intros s s' b' Hrun; simpl in Hrun.
  - injection Hrun as <- <-. split; reflexivity.
  - destruct x as [p|t|tag c].
    + destruct (f s p) as [[s1 p']|e] eqn:Hf; simpl in Hrun; [|discriminate].
      destruct (for_paragraphs f s1 b) as [[s2 rest']|e] eqn:Hrest;
        simpl in Hrun; [|discriminate].
      injection Hrun as <- <-.
      destruct (IH _ _ _ Hrest) as [Hl Ht].
      split; [|exact Ht].
      simpl. rewrite Hf. simpl. rewrite Hl. reflexivity.
    + destruct (for_paragraphs f s b) as [[s2 rest']|e] eqn:Hrest;
        simpl in Hrun; [|discriminate].
      injection Hrun as <- <-.
      destruct (IH _ _ _ Hrest) as [Hl Ht].
      split; [exact Hl|]. simpl. rewrite Ht. reflexivity.
    + destruct (for_paragraphs f s b) as [[s2 rest']|e] eqn:Hrest;
        simpl in Hrun; [|discriminate].
      injection Hrun as <- <-.
      destruct (IH _ _ _ Hrest) as [Hl Ht].
      split; [exact Hl | exact Ht].
Qed.

(** The loop over the body returns whenever the loop over the paragraphs
    does. *)
Lemma for_paragraphs_returns (f : S -> Paragraph -> result (S * Paragraph)) :
  forall b s s' ps',
    for_list f s (paragraphs b) = Ok (s', ps') ->
    exists b', for_paragraphs f s b = Ok (s', b').
Proof.
  induction b as [|x b IH]; intros s s' ps' Hrun; simpl in *.
  - injection Hrun as <- <-. eexists; reflexivity.
  - destruct x as [p|t|tag c]; simpl in *.
    + destruct (f s p) as [[s1 p']|e] eqn:Hf; simpl in *; [|discriminate].
      destruct (for_list f s1 (paragraphs b)) as [[s2 rest']|e] eqn:Hrest;
        simpl in *; [|discriminate].
      injection Hrun as <- <-.
      destruct (IH _ _ _ Hrest) as [b' Hb]. rewrite Hb. simpl.
      eexists; reflexivity.
    + destruct (IH _ _ _ Hrun) as [b' Hb]. rewrite Hb. simpl.
      eexists; reflexivity.
    + destruct (IH _ _ _ Hrun) as [b' Hb]. rewrite Hb. simpl.
      eexists; reflexivity.
Qed.

Lemma scan_paragraphs_list (f : S -> Paragraph -> S * Paragraph) :
  forall b s,
    scan_list f s (paragraphs b)
    = (fst (scan_paragraphs f s b), paragraphs (snd (scan_paragraphs f s b)))
    /\ tables (snd (scan_paragraphs f s b)) = tables b.
Proof.
  induction b as [|x b IH]; intros s; simpl.
  - split; reflexivity.
  - destruct x as [p|t|tag c]; simpl.
    + destruct (f s p) as [s1 p'] eqn:Hf.
      destruct (IH s1) as [Hl Ht].
      destruct (scan_paragraphs f s1 b) as [s2 rest'] eqn:Hrest.
      simpl in *. rewrite Hl. split; [reflexivity | exact Ht].
    + destruct (IH s) as [Hl Ht].
      destruct (scan_paragraphs f s b) as [s2 rest'] eqn:Hrest.
      simpl in *. rewrite Hl, Ht. split; reflexivity.
    + destruct (IH s) as [Hl Ht].
      destruct (scan_paragraphs f s b) as [s2 rest'] eqn:Hrest.
      simpl in *. rewrite Hl. split; [reflexivity | exact Ht].
Qed.

End LoopFacts.

(** The loop that may raise, seen on [doc.paragraphs]: when it returns,
    each paragraph is the outcome of the loop body on the old one, and
    the tables stay as they are. *)
Lemma try_map_paragraphs_list (f : Paragraph -> result Paragraph) :
  forall b b',
    try_map_paragraphs f b = Ok b' ->
    Forall2 (fun p p' => f p = Ok p') (paragraphs b) (paragraphs b')
    /\ tables b' = tables b.
Proof.
  induction b as [|x b IH]; intros b' Hrun; simpl in Hrun.
  - injection Hrun as <-. split; [constructor | reflexivity].
  - destruct x as [p|t|tag c].
    + destruct (f p) as [p'|e] eqn:Hf; simpl in Hrun; [|discriminate].
      destruct (try_map_paragraphs f b) as [rest'|e] eqn:Hrest; simpl in Hrun;
        [|discriminate].
      injection Hrun as <-. destruct (IH _ eq_refl) as [Hps Hts].
      split; [constructor; assumption | exact Hts].
    + destruct (try_map_paragraphs f b) as [rest'|e] eqn:Hrest; simpl in Hrun;
        [|discriminate].
      injection Hrun as <-. destruct (IH _ eq_refl) as [Hps Hts].
      split; [exact Hps | simpl; rewrite Hts; reflexivity].
    + destruct (try_map_paragraphs f b) as [rest'|e] eqn:Hrest; simpl in Hrun;
        [|discriminate].
      injection Hrun as <-. destruct (IH _ eq_refl) as [Hps Hts].
      split; [exact Hps | exact Hts].
Qed.

Lemma try_map_paragraphs_idempotent (f : Paragraph -> result Paragraph) :
  (forall p p', f p = Ok p' -> f p' = Ok p') ->
  forall b b', try_map_paragraphs f b = Ok b' -> try_map_paragraphs f b' = Ok b'.
Proof.
  intros Hf. induction b as [|x b IH]; intros b' Hrun; simpl in Hrun.
  - injection Hrun as <-. reflexivity.
  - destruct x as [p|t|tag c].
    + destruct (f p) as [p'|e] eqn:Hp; simpl in Hrun; [|discriminate].
      destruct (try_map_paragraphs f b) as [rest'|e] eqn:Hrest; simpl in Hrun;
        [|discriminate].
      injection Hrun as <-. simpl. rewrite (Hf _ _ Hp). simpl.
      rewrite (IH _ eq_refl). reflexivity.
    + destruct (try_map_paragraphs f b) as [rest'|e] eqn:Hrest; simpl in Hrun;
        [|discriminate].
      injection Hrun as <-. simpl. rewrite (IH _ eq_refl). reflexivity.
    + destruct (try_map_paragraphs f b) as [rest'|e] eqn:Hrest; simpl in Hrun;
        [|discriminate].
      injection Hrun as <-. simpl. rewrite (IH _ eq_refl). reflexivity.
Qed.

Lemma try_map_paragraphs_ext (f g : Paragraph -> result Paragraph) (b : list Block) :
  (forall p, f p = g p) -> try_map_paragraphs f b = try_map_paragraphs g b.
Proof.
  intros Hfg. induction b as [|x b IH]; [reflexivity|].
  destruct x as [p|t|tag c]; simpl; rewrite ?Hfg, IH; reflexivity.
Qed.


Lemma map_paragraphs_list (f : Paragraph -> Paragraph) (b : list Block) :
  paragraphs (map_paragraphs f b) = map f (paragraphs b)
  /\ tables (map_paragraphs f b) = tables b.
Proof.
  induction b as [|x b [IHp IHt]]; [split; reflexivity|].
  destruct x; simpl; rewrite ?IHp, ?IHt; split; reflexivity.
Qed.

(** ** The style registry *)

Lemma find_index_Some {A} (f : A -> bool) (l : list A) (k : nat) :
  find_index f l = Some k -> exists x, l !! k = Some x /\ f x = true.
Proof.
  revert k. induction l as [|x l IH]; intros k Hk; simpl in Hk; [discriminate|].
  destruct (f x) eqn:Hfx.
  - injection Hk as <-. exists x. split; [reflexivity | exact Hfx].
  - destruct (find_index f l) as [i|]; simpl in Hk; [|discriminate].
    injection Hk as <-. destruct (IH i eq_refl) as (y & Hy & Hfy).
    exists y. split; [exact Hy | exact Hfy].
Qed.

Lemma find_last_index_Some {A} (f : A -> bool) (l : list A) (k : nat) :
  find_last_index f l = Some k -> exists x, l !! k = Some x /\ f x = true.
Proof.
  revert k. induction l as [|x l IH]; intros k Hk; simpl in Hk; [discriminate|].
  destruct (find_last_index f l) as [i|].
  - injection Hk as <-. destruct (IH i eq_refl) as (y & Hy & Hfy).
    exists y. split; [exact Hy | exact Hfy].
  - destruct (f x) eqn:Hfx; [|discriminate].
    injection Hk as <-. exists x. split; [reflexivity | exact Hfx].
Qed.

Lemma find_index_map {A B} (h : A -> B) (g : B -> bool) (l : list A) :
  find_index (fun x => g (h x)) l = find_index g (map h l).
Proof.
  induction l as [|x l IH]; simpl; [reflexivity|]. rewrite IH. reflexivity.
Qed.

Lemma find_last_index_map {A B} (h : A -> B) (g : B -> bool) (l : list A) :
  find_last_index (fun x => g (h x)) l = find_last_index g (map h l).
Proof.
  induction l as [|x l IH]; simpl; [reflexivity|]. rewrite IH. reflexivity.
Qed.

(** Lookups see the keys of the styles only. *)
Lemma default_for_keys (ty : WD_STYLE_TYPE) (st st' : list Style) :
  map style_key st = map style_key st' -> default_for ty st = default_for ty st'.
Proof.
  intros Hk. unfold default_for.
  assert (E : forall l, find_last_index
                (fun s => style_type_eqb (style_type s) ty && style_default s) l
              = find_last_index
                  (fun k => style_type_eqb (snd (fst (fst k))) ty && snd (fst k))
                  (map style_key l)).
  { intros l. exact (find_last_index_map style_key _ l). }
  rewrite !E, Hk. reflexivity.
Qed.

Lemma lookup_keys (st st' : list Style) (k : nat) :
  map style_key st = map style_key st' ->
  style_key <$> (st !! k) = style_key <$> (st' !! k).
Proof.
  intros Hk. rewrite <- !list_lookup_fmap.
  change (map style_key st !! k = map style_key st' !! k). rewrite Hk. reflexivity.
Qed.

Lemma get_by_id_keys (sid : option text) (ty : WD_STYLE_TYPE) (st st' : list Style) :
  map style_key st = map style_key st' -> get_by_id sid ty st = get_by_id sid ty st'.
Proof.
  intros Hk. unfold get_by_id.
  rewrite (default_for_keys ty st st' Hk).
  destruct sid as [i|]; [|reflexivity].
  assert (E : forall l, find_index (fun s => text_eqb (style_id s) i) l
              = find_index (fun k => text_eqb (fst (fst (fst k))) i) (map style_key l)).
  { intros l. exact (find_index_map style_key _ l). }
  rewrite !E, Hk.
  destruct (find_index _ (map style_key st')) as [k|]; [|reflexivity].
  pose proof (lookup_keys st st' k Hk) as Hl.
  destruct (st !! k) as [s|], (st' !! k) as [s'|]; simpl in Hl; try discriminate;
    [|reflexivity].
  unfold style_key in Hl.
  assert (Hty : style_type s = style_type s') by congruence.
  rewrite Hty. reflexivity.
Qed.

Lemma paragraph_style_keys (st st' : list Style) (p : Paragraph) :
  map style_key st = map style_key st' -> paragraph_style st p = paragraph_style st' p.
Proof. apply get_by_id_keys. Qed.


Lemma styles_getitem_keys (key : text) (st st' : list Style) :
  map style_key st = map style_key st' -> styles_getitem key st = styles_getitem key st'.
Proof.
  intros Hk. unfold styles_getitem.
  assert (En : forall l, find_index (fun s => bool_decide (style_name s = Some key)) l
               = find_index (fun k => bool_decide (snd k = Some key)) (map style_key l)).
  { intros l. exact (find_index_map style_key _ l). }
  assert (Ei : forall l, find_index (fun s => text_eqb (style_id s) key) l
               = find_index (fun k => text_eqb (fst (fst (fst k))) key) (map style_key l)).
  { intros l. exact (find_index_map style_key _ l). }
  rewrite !En, !Ei, Hk. reflexivity.
Qed.

Lemma alter_keys (g : Style -> Style) (k : nat) (st : list Style) :
  (forall s, style_key (g s) = style_key s) ->
  map style_key (alter g k st) = map style_key st.
Proof.
  intros Hg. revert k. induction st as [|s st IH]; intros k; [reflexivity|].
  destruct k as [|k]; simpl.
  - rewrite Hg. reflexivity.
  - f_equal. apply IH.
Qed.

Lemma paragraph_style_valid (st : list Style) (p : Paragraph) (k : nat) :
  paragraph_style st p = Some k -> is_Some (st !! k).
Proof.
  unfold paragraph_style, get_by_id, default_for. intros Hk.
  assert (Hd : forall f, find_last_index f st = Some k -> is_Some (st !! k)).
  { intros f Hf. destruct (find_last_index_Some _ _ _ Hf) as (x & Hx & _).
    rewrite Hx. eexists; reflexivity. }
  destruct (p_style p) as [i|]; [|eapply Hd; exact Hk].
  destruct (find_index _ st) as [j|] eqn:Hj; [|eapply Hd; exact Hk].
  destruct (st !! j) as [s|] eqn:Hs; [|eapply Hd; exact Hk].
  destruct (style_type_eqb (style_type s) PARAGRAPH); [|eapply Hd; exact Hk].
  injection Hk as <-. rewrite Hs. eexists; reflexivity.
Qed.

(** ** The marker scans *)

Lemma evolves_refl (st : list Style) : evolves st st.
Proof. split; [reflexivity|]. intros k s Hs. left. exact Hs. Qed.

Lemma evolves_trans (a b c : list Style) : evolves a b -> evolves b c -> evolves a c.
Proof.
  intros [Hl1 Hf1] [Hl2 Hf2]. split; [congruence|].
  intros k s Hs. destruct (Hf1 k s Hs) as [Hb | Hb].
  - apply (Hf2 k s Hb).
  - destruct (Hf2 k _ Hb) as [Hc | Hc]; right; exact Hc.
Qed.

Lemma evolves_keys (st st' : list Style) :
  evolves st st' -> map style_key st = map style_key st'.
Proof.
  intros [Hlen Hf]. apply list_eq. intros k.
  change (map style_key ?l) with (style_key <$> l). rewrite !list_lookup_fmap.
  destruct (st !! k) as [s|] eqn:Hs.
  - destruct (Hf k s Hs) as [-> | ->]; reflexivity.
  - apply lookup_ge_None in Hs.
    rewrite (proj2 (lookup_ge_None st' k)) by lia. reflexivity.
Qed.

Lemma evolves_font (st st' : list Style) (p : Paragraph) :
  evolves st st' ->
  paragraph_font_size st p = Some (Pt 10) -> paragraph_font_size st' p = Some (Pt 10).
Proof.
  intros Hev. pose proof (evolves_keys st st' Hev) as Hk.
  destruct Hev as [_ Hf]. unfold paragraph_font_size.
  rewrite <- (paragraph_style_keys st st' p Hk).
  destruct (paragraph_style st p) as [k|]; simpl; [|discriminate].
  destruct (st !! k) as [s|] eqn:Hs; simpl; [|discriminate].
  intros H10. destruct (Hf k s Hs) as [-> | ->]; simpl; [exact H10 | reflexivity].
Qed.

Lemma carries_evolves (k : RegionKind) (st st' : list Style) (p : Paragraph) :
  evolves st st' -> carries_region_style k st p -> carries_region_style k st' p.
Proof.
  intros He. destruct k; simpl; [|tauto].
  intros [Hfmt Hsize]. split; [exact Hfmt|]. eapply evolves_font; eassumption.
Qed.

Lemma step_effect_evolves (k : RegionKind) (flag : bool) (st st' : list Style)
    (p p' : Paragraph) :
  evolves st st' -> step_effect k flag st p p' -> step_effect k flag st' p p'.
Proof.
  intros He [Hs H]. split; [exact Hs|].
  destruct (contains (open_token k) (paragraph_text p)).
  { destruct H as [Ht Hc]. split; [exact Ht|]. eapply carries_evolves; eassumption. }
  destruct (contains (close_token k) (paragraph_text p)).
  { destruct H as [Ht Hc]. split; [exact Ht|]. eapply carries_evolves; eassumption. }
  destruct flag; [|exact H].
  destruct H as [Ht Hc]. split; [exact Ht|]. eapply carries_evolves; eassumption.
Qed.

Lemma paragraph_text_set (s : text) (p : Paragraph) :
  paragraph_text (set_paragraph_text s p) = s.
Proof.
  unfold paragraph_text, set_paragraph_text, set_run_text, run_text. simpl.
  destruct s; simpl; [reflexivity|]. rewrite !app_nil_r. reflexivity.
Qed.

(** The long-quotation style on a paragraph that has a style. *)
Lemma apply_long_quote_style_spec (st : list Style) (p : Paragraph) :
  is_Some (paragraph_style st p) ->
  exists st' p',
    apply_long_quote_style st p = Ok (st', p')
    /\ evolves st st'
    /\ p_style p' = p_style p /\ p_runs p' = p_runs p
    /\ carries_region_style LongQuote st' p'.
Proof.
  intros [k Hk]. unfold apply_long_quote_style.
  change (paragraph_style st _) with (paragraph_style st p). rewrite Hk.
  eexists _, _. split; [reflexivity|].
  assert (Hkeys : map style_key (alter (set_font_size (Some (Pt 10))) k st)
                  = map style_key st).
  { apply alter_keys. intros s. reflexivity. }
  split; [|split; [reflexivity|split; [reflexivity|]]].
  - split; [apply length_alter|].
    intros j s Hs. destruct (decide (j = k)) as [->|Hne].
    + right. rewrite list_lookup_alter_eq. rewrite Hs. reflexivity.
    + left. rewrite list_lookup_alter_ne by congruence. exact Hs.
  - split; [repeat split|].
    unfold paragraph_font_size.
    change (paragraph_style ?a _) with (paragraph_style a p).
    rewrite (paragraph_style_keys _ st p Hkeys), Hk. simpl.
    destruct (paragraph_style_valid st p k Hk) as [s Hs].
    rewrite list_lookup_alter_eq, Hs. reflexivity.
Qed.

Lemma long_quote_step_spec (s : QuoteScan) (p : Paragraph) :
  is_Some (paragraph_style (scan_styles s) p) ->
  exists s1 p1,
    long_quote_step s p = Ok (s1, p1)
    /\ evolves (scan_styles s) (scan_styles s1)
    /\ in_block s1 = flag_step LongQuote (in_block s) p
    /\ step_effect LongQuote (in_block s) (scan_styles s1) p p1.
Proof.
  intros Hp. unfold long_quote_step, flag_step, step_effect.
  cbn [open_token close_token].
  destruct (contains OPEN_LONG_QUOTE (paragraph_text p)) eqn:Hopen.
  { destruct (apply_long_quote_style_spec (scan_styles s)
                (set_paragraph_text (replace OPEN_LONG_QUOTE [] (paragraph_text p)) p) Hp)
      as (st' & p' & Hrun & Hev & Hst & Hruns & Hc).
    rewrite Hrun. simpl. eexists _, _. split; [reflexivity|]. simpl.
    split; [exact Hev|]. split; [reflexivity|]. split; [exact Hst|].
    split; [|exact Hc].
    unfold paragraph_text at 1. rewrite Hruns. exact (paragraph_text_set _ p). }
  destruct (contains CLOSE_LONG_QUOTE (paragraph_text p)) eqn:Hclose.
  { destruct (apply_long_quote_style_spec (scan_styles s)
                (set_paragraph_text (replace CLOSE_LONG_QUOTE [] (paragraph_text p)) p) Hp)
      as (st' & p' & Hrun & Hev & Hst & Hruns & Hc).
    rewrite Hrun. simpl. eexists _, _. split; [reflexivity|]. simpl.
    split; [exact Hev|]. split; [reflexivity|]. split; [exact Hst|].
    split; [|exact Hc].
    unfold paragraph_text at 1. rewrite Hruns. exact (paragraph_text_set _ p). }
  destruct (in_block s) eqn:Hin.
  { destruct (apply_long_quote_style_spec (scan_styles s) p Hp)
      as (st' & p' & Hrun & Hev & Hst & Hruns & Hc).
    rewrite Hrun. simpl. eexists _, _. split; [reflexivity|]. simpl.
    split; [exact Hev|]. split; [reflexivity|]. split; [exact Hst|].
    split; [exact Hruns | exact Hc]. }
  eexists _, _. split; [reflexivity|].
  split; [apply evolves_refl|]. split; [exact Hin|]. split; reflexivity.
Qed.

Lemma references_step_spec (hanging : Z) (spacing : LineSpacing) (gap : Z)
    (flag : bool) (n : nat) (st : list Style) (p : Paragraph) :
  exists n1 p1,
    references_step hanging spacing gap (flag, n) p
    = ((flag_step (References hanging spacing gap) flag p, n1), p1)
    /\ step_effect (References hanging spacing gap) flag st p p1.
Proof.
  unfold references_step, flag_step, step_effect.
  cbn [open_token close_token].
  destruct (contains OPEN_REFS (paragraph_text p)) eqn:Hopen.
  { simpl. eexists _, _. split; [reflexivity|]. split; [reflexivity|].
    split; [exact (paragraph_text_set _ p) | repeat split]. }
  destruct (contains CLOSE_REFS (paragraph_text p)) eqn:Hclose.
  { simpl. eexists _, _. split; [reflexivity|]. split; [reflexivity|].
    split; [exact (paragraph_text_set _ p) | repeat split]. }
  destruct flag; simpl.
  - eexists _, _. split; [reflexivity|]. split; [reflexivity|]. repeat split.
  - eexists _, _. split; [reflexivity|]. split; reflexivity.
Qed.

Lemma long_quote_list :
  forall (ps : list Paragraph) (s : QuoteScan),
    Forall (fun p => is_Some (paragraph_style (scan_styles s) p)) ps ->
    exists s' ps',
      for_list long_quote_step s ps = Ok (s', ps')
      /\ evolves (scan_styles s) (scan_styles s')
      /\ length ps' = length ps
      /\ forall j p, ps !! j = Some p ->
           exists p', ps' !! j = Some p'
             /\ step_effect LongQuote
                  (foldl (flag_step LongQuote) (in_block s) (take j ps))
                  (scan_styles s') p p'.
Proof.
  induction ps as [|p rest IH]; intros s Hall.
  - exists s, []. split; [reflexivity|]. split; [apply evolves_refl|].
    split; [reflexivity|]. intros j p Hj. rewrite lookup_nil in Hj. discriminate.
  - apply Forall_cons in Hall as [Hp Hrest].
    destruct (long_quote_step_spec s p Hp) as (s1 & p1 & Hstep & Hev1 & Hfl & Heff).
    assert (Hrest1 : Forall (fun q => is_Some (paragraph_style (scan_styles s1) q)) rest).
    { eapply Forall_impl; [exact Hrest|]. intros q Hq. simpl in *.
      rewrite <- (paragraph_style_keys _ _ q (evolves_keys _ _ Hev1)). exact Hq. }
    destruct (IH s1 Hrest1) as (s' & ps' & Hrun & Hev2 & Hlen & Heach).
    exists s', (p1 :: ps'). split.
    { simpl. rewrite Hstep. simpl. rewrite Hrun. reflexivity. }
    split; [eapply evolves_trans; eassumption|].
    split; [simpl; rewrite Hlen; reflexivity|].
    intros [|j] q Hj; simpl in Hj.
    + injection Hj as <-. exists p1. split; [reflexivity|].
      simpl. eapply step_effect_evolves; eassumption.
    + destruct (Heach j q Hj) as (q' & Hq' & Hq). exists q'.
      split; [exact Hq'|]. simpl. rewrite <- Hfl. exact Hq.
Qed.

Lemma references_list (hanging : Z) (spacing : LineSpacing) (gap : Z) (st : list Style) :
  forall (ps : list Paragraph) (flag : bool) (n : nat),
    exists flag' n' ps',
      scan_list (references_step hanging spacing gap) (flag, n) ps = ((flag', n'), ps')
      /\ length ps' = length ps
      /\ forall j p, ps !! j = Some p ->
           exists p', ps' !! j = Some p'
             /\ step_effect (References hanging spacing gap)
                  (foldl (flag_step (References hanging spacing gap)) flag (take j ps))
                  st p p'.
Proof.
  induction ps as [|p rest IH]; intros flag n.
  - exists flag, n, []. split; [reflexivity|]. split; [reflexivity|].
    intros j p Hj. rewrite lookup_nil in Hj. discriminate.
  - destruct (references_step_spec hanging spacing gap flag n st p)
      as (n1 & p1 & Hstep & Heff).
    destruct (IH (flag_step (References hanging spacing gap) flag p) n1)
      as (flag' & n' & ps' & Hrun & Hlen & Heach).
    exists flag', n', (p1 :: ps'). split.
    { cbn [scan_list]. rewrite Hstep. rewrite Hrun. reflexivity. }
    split; [simpl; rewrite Hlen; reflexivity|].
    intros [|j] q Hj; simpl in Hj.
    + injection Hj as <-. exists p1. split; [reflexivity | exact Heff].
    + destruct (Heach j q Hj) as (q' & Hq' & Hq). exists q'.
      split; [exact Hq' | exact Hq].
Qed.

(** What a marker pass does, paragraph by paragraph: it returns, keeps the
    number of paragraphs and the tables, and treats the paragraph at each
    position according to its text and to the flag reached there. *)
Lemma region_pass_effect (k : RegionKind) (d : Document) :
  region_ready k d ->
  exists n d',
    region_pass k d = Ok (n, d')
    /\ tables (body d') = tables (body d)
    /\ registry_effect k (styles d) (styles d')
    /\ length (paragraphs (body d')) = length (paragraphs (body d))
    /\ forall j p, paragraphs (body d) !! j = Some p ->
         exists p', paragraphs (body d') !! j = Some p'
           /\ step_effect k (flag_after k (take j (paragraphs (body d))))
                (styles d') p p'.
Proof.
  intros Hready. destruct k as [|hanging spacing gap].
  - destruct (long_quote_list (paragraphs (body d)) (mkQuoteScan false 0 (styles d)) Hready)
      as (s' & ps' & Hrun & Hev & Hlen & Heach).
    destruct (for_paragraphs_returns _ _ _ _ _ Hrun) as [b' Hb].
    destruct (for_paragraphs_list _ _ _ _ _ Hb) as [Hl Ht].
    rewrite Hrun in Hl. injection Hl as Hps.
    simpl. unfold process_long_quote_markers. rewrite Hb. simpl.
    eexists _, _. split; [reflexivity|]. simpl.
    split; [exact Ht|]. split; [exact Hev|].
    rewrite <- Hps. split; [exact Hlen|]. exact Heach.
  - destruct (references_list hanging spacing gap (styles d) (paragraphs (body d)) false 0)
      as (flag' & n' & ps' & Hrun & Hlen & Heach).
    destruct (scan_paragraphs_list (references_step hanging spacing gap) (body d) (false, 0))
      as [Hl Ht].
    rewrite Hrun in Hl.
    simpl. unfold apply_references_block_format.
    destruct (scan_paragraphs _ _ (body d)) as [s b'] eqn:Hb. simpl in *.
    injection Hl as Hs Hps.
    eexists _, _. split; [reflexivity|]. simpl.
    split; [exact Ht|]. split; [reflexivity|].
    rewrite <- Hps. split; [exact Hlen|]. exact Heach.
Qed.

(** The flag along the paragraphs. *)
Lemma flag_after_snoc (k : RegionKind) (ps : list Paragraph) (j : nat) (p : Paragraph) :
  ps !! j = Some p ->
  flag_after k (take (S j) ps) = flag_step k (flag_after k (take j ps)) p.
Proof.
  intros Hj. unfold flag_after.
  rewrite (take_S_r ps j p Hj). rewrite foldl_app. reflexivity.
Qed.

(** After an open token the flag stays up as long as no paragraph holds
    the close token. *)
Lemma flag_stays_up (k : RegionKind) (ps : list Paragraph) (i : nat) (p : Paragraph) :
  ps !! i = Some p ->
  contains (open_token k) (paragraph_text p) = true ->
  forall m,
    (forall j q, i < j -> j <= i + m -> ps !! j = Some q ->
       contains (close_token k) (paragraph_text q) = false) ->
    i + m < length ps ->
    flag_after k (take (S (i + m)) ps) = true.
Proof.
  intros Hi Hopen. induction m as [|m IH]; intros Hno Hlen.
  - rewrite Nat.add_0_r. rewrite (flag_after_snoc k ps i p Hi).
    unfold flag_step. rewrite Hopen. reflexivity.
  - destruct (lookup_lt_is_Some_2 ps (i + S m) Hlen) as [q Hq].
    rewrite (flag_after_snoc k ps _ q Hq).
    replace (i + S m) with (S (i + m)) by lia.
    rewrite IH.
    + unfold flag_step.
      destruct (contains (open_token k) (paragraph_text q)); [reflexivity|].
      rewrite (Hno (i + S m) q); [reflexivity|lia|lia|exact Hq].
    + intros j r Hij Hjm Hr. apply (Hno j r); [lia|lia|exact Hr].
    + lia.
Qed.

(** Before any open token the flag is down. *)
Lemma flag_stays_down (k : RegionKind) (ps : list Paragraph) (i : nat) :
  (forall j q, j < i -> ps !! j = Some q ->
     contains (open_token k) (paragraph_text q) = false) ->
  i <= length ps ->
  flag_after k (take i ps) = false.
Proof.
  induction i as [|i IH]; intros Hno Hlen.
  - reflexivity.
  - destruct (lookup_lt_is_Some_2 ps i ltac:(lia)) as [q Hq].
    rewrite (flag_after_snoc k ps i q Hq).
    unfold flag_step. rewrite (Hno i q); [|lia|exact Hq].
    rewrite IH; [|intros j r Hj Hr; apply (Hno j r); [lia|exact Hr]|lia].
    destruct (contains (close_token k) (paragraph_text q)); reflexivity.
Qed.

(** C4.  Unclosed region.  Whichever marker pair drives the pass: when a
    paragraph holds the open token and no later paragraph holds the close
    token, the pass returns and every paragraph from that one to the last
    one of the document carries the style of the region.  (For the
    long-quotation pass the document is one whose paragraphs all resolve
    to a style; the reference pass has no such need.) *)
Theorem unclosed_region_runs_to_end
    (k : RegionKind) (d : Document) (i : nat) (p : Paragraph) :
  region_ready k d ->
  paragraphs (body d) !! i = Some p ->
  contains (open_token k) (paragraph_text p) = true ->
  (forall j q, i < j -> paragraphs (body d) !! j = Some q ->
     contains (close_token k) (paragraph_text q) = false) ->
  exists n d',
    region_pass k d = Ok (n, d')
    /\ length (paragraphs (body d')) = length (paragraphs (body d))
    /\ forall j, i <= j -> j < length (paragraphs (body d)) ->
         exists q', paragraphs (body d') !! j = Some q'
           /\ carries_region_style k (styles d') q'.
Proof.
  intros Hready Hi Hopen Hnoclose.
  destruct (region_pass_effect k d Hready) as (n & d' & Hrun & _ & _ & Hlen & Heach).
  exists n, d'. split; [exact Hrun|]. split; [exact Hlen|].
  intros j Hij Hj.
  destruct (lookup_lt_is_Some_2 _ _ Hj) as [q Hq].
  destruct (Heach j q Hq) as (q' & Hq' & _ & Heff).
  exists q'. split; [exact Hq'|].
  destruct (contains (open_token k) (paragraph_text q)) eqn:Hqo; [apply Heff|].
  assert (Hlt : i < j).
  { destruct (decide (i = j)) as [->|]; [|lia]. congruence. }
  rewrite (Hnoclose j q Hlt Hq) in Heff.
  assert (Hflag : flag_after k (take j (paragraphs (body d))) = true).
  { replace j with (S (i + (j - i - 1))) by lia.
    apply (flag_stays_up k _ i p Hi Hopen); [|lia].
    intros j' r Hij' _ Hr. apply (Hnoclose j' r Hij' Hr). }
  rewrite Hflag in Heff. apply Heff.
Qed.

(** Close before open, seen on the paragraph records.  Whichever marker
    pair drives the pass: when
    a paragraph holds the close token and no paragraph up to it holds the
    open token, the pass returns, that paragraph carries the style of the
    region and its text is the old one with the close token replaced by
    nothing; and a paragraph that holds no token and is reached with the
    flag down (in particular every token-free paragraph before the close
    token) is the same paragraph afterwards: same text, same formatting
    record, same style reference.  The reference pass leaves the style
    registry as it is; the long-quotation pass assigns 10 pt font sizes
    in it and nothing else. *)
Lemma close_before_open_records
    (k : RegionKind) (d : Document) (i : nat) (c : Paragraph) :
  region_ready k d ->
  paragraphs (body d) !! i = Some c ->
  contains (close_token k) (paragraph_text c) = true ->
  (forall j q, j <= i -> paragraphs (body d) !! j = Some q ->
     contains (open_token k) (paragraph_text q) = false) ->
  exists n d',
    region_pass k d = Ok (n, d')
    /\ (exists c', paragraphs (body d') !! i = Some c'
          /\ carries_region_style k (styles d') c'
          /\ paragraph_text c' = replace (close_token k) [] (paragraph_text c))
    /\ (forall j q, paragraphs (body d) !! j = Some q ->
          contains (open_token k) (paragraph_text q) = false ->
          contains (close_token k) (paragraph_text q) = false ->
          flag_after k (take j (paragraphs (body d))) = false ->
          paragraphs (body d') !! j = Some q)
    /\ (forall j q, j < i -> paragraphs (body d) !! j = Some q ->
          contains (close_token k) (paragraph_text q) = false ->
          paragraphs (body d') !! j = Some q)
    /\ registry_effect k (styles d) (styles d').
Proof.
  intros Hready Hi Hclose Hnoopen.
  destruct (region_pass_effect k d Hready) as (n & d' & Hrun & _ & Hreg & Hlen & Heach).
  exists n, d'. split; [exact Hrun|].
  assert (Hordinary : forall j q, paragraphs (body d) !! j = Some q ->
            contains (open_token k) (paragraph_text q) = false ->
            contains (close_token k) (paragraph_text q) = false ->
            flag_after k (take j (paragraphs (body d))) = false ->
            paragraphs (body d') !! j = Some q).
  { intros j q Hq Hqo Hqc Hflag.
    destruct (Heach j q Hq) as (q' & Hq' & _ & Heff).
    rewrite Hqo, Hqc, Hflag in Heff. rewrite Hq'. f_equal. exact Heff. }
  split; [|split; [exact Hordinary|split; [|exact Hreg]]].
  - destruct (Heach i c Hi) as (c' & Hc' & _ & Heff).
    rewrite (Hnoopen i c (Nat.le_refl i) Hi), Hclose in Heff.
    exists c'. split; [exact Hc'|]. split; apply Heff.
  - intros j q Hj Hq Hqc.
    apply Hordinary; [exact Hq| |exact Hqc|].
    + apply (Hnoopen j q); [lia | exact Hq].
    + apply flag_stays_down.
      * intros j' r Hj' Hr. apply (Hnoopen j' r); [lia | exact Hr].
      * apply lookup_lt_Some in Hq. lia.
Qed.

(** C9.  Both tokens in one paragraph.  When the text of a paragraph
    holds the open and the close token of a long quotation, the pass
    replaces the open token alone: the new text is the old one without
    the open token and still holds the close token; the paragraph carries
    the long-quotation style, the flag is up after it, and the paragraphs
    that follow carry the style as long as none of them holds the close
    token. *)
Theorem open_and_close_in_one_paragraph
    (d : Document) (i : nat) (p : Paragraph) (m : nat) :
  every_paragraph_has_style d ->
  paragraphs (body d) !! i = Some p ->
  contains OPEN_LONG_QUOTE (paragraph_text p) = true ->
  contains CLOSE_LONG_QUOTE (paragraph_text p) = true ->
  (forall j q, i < j -> j <= i + m -> paragraphs (body d) !! j = Some q ->
     contains CLOSE_LONG_QUOTE (paragraph_text q) = false) ->
  exists n d',
    process_long_quote_markers d = Ok (n, d')
    /\ (exists p', paragraphs (body d') !! i = Some p'
          /\ paragraph_text p' = replace OPEN_LONG_QUOTE [] (paragraph_text p)
          /\ contains CLOSE_LONG_QUOTE (paragraph_text p') = true
          /\ carries_region_style LongQuote (styles d') p')
    /\ flag_after LongQuote (take (S i) (paragraphs (body d))) = true
    /\ (forall j, i < j -> j <= i + m -> j < length (paragraphs (body d)) ->
          exists q', paragraphs (body d') !! j = Some q'
            /\ carries_region_style LongQuote (styles d') q').
Proof.
  intros Hready Hi Hopen Hclose Hnoclose.
  destruct (region_pass_effect LongQuote d Hready)
    as (n & d' & Hrun & _ & _ & Hlen & Heach).
  exists n, d'. split; [exact Hrun|]. split; [|split].
  - destruct (Heach i p Hi) as (p' & Hp' & _ & Heff).
    cbn [open_token close_token] in Heff. rewrite Hopen in Heff.
    destruct Heff as [Htext Hcarries].
    exists p'. split; [exact Hp'|]. split; [exact Htext|]. split; [|exact Hcarries].
    rewrite Htext. apply replace_keeps_token; [reflexivity | reflexivity | exact Hclose].
  - rewrite (flag_after_snoc LongQuote _ i p Hi). unfold flag_step.
    cbn [open_token]. rewrite Hopen. reflexivity.
  - intros j Hij Hjm Hj.
    destruct (lookup_lt_is_Some_2 _ _ Hj) as [q Hq].
    destruct (Heach j q Hq) as (q' & Hq' & _ & Heff).
    exists q'. split; [exact Hq'|].
    cbn [open_token close_token] in Heff.
    destruct (contains OPEN_LONG_QUOTE (paragraph_text q)); [apply Heff|].
    rewrite (Hnoclose j q Hij Hjm Hq) in Heff.
    assert (Hflag : flag_after LongQuote (take j (paragraphs (body d))) = true).
    { replace j with (S (i + (j - i - 1))) by lia.
      apply (flag_stays_up LongQuote _ i p Hi Hopen); [|lia].
      intros j' r Hij' Hj' Hr. apply (Hnoclose j' r Hij'); [lia | exact Hr]. }
    rewrite Hflag in Heff. apply Heff.
Qed.

Lemma unclosed_region_witness :
  exists n d',
    region_pass LongQuote unclosed_document = Ok (n, d')
    /\ length (paragraphs (body d')) = length (paragraphs (body unclosed_document))
    /\ forall j, 1 <= j -> j < length (paragraphs (body unclosed_document)) ->
         exists q', paragraphs (body d') !! j = Some q'
           /\ carries_region_style LongQuote (styles d') q'.
Proof.
  apply (unclosed_region_runs_to_end LongQuote unclosed_document 1
           (plain None (OPEN_LONG_QUOTE ++ str "quoted"))).
  - repeat constructor; vm_compute; eexists; reflexivity.
  - reflexivity.
  - vm_compute. reflexivity.
  - intros j q Hij Hq.
    destruct j as [|[|[|[|j]]]]; try lia; simpl in Hq; try discriminate;
      injection Hq as <-; vm_compute; reflexivity.
Defined.

Lemma open_and_close_witness :
  exists n d',
    process_long_quote_markers both_tokens_document = Ok (n, d')
    /\ (exists p', paragraphs (body d') !! 0 = Some p'
          /\ paragraph_text p' = str "quote" ++ CLOSE_LONG_QUOTE
          /\ carries_region_style LongQuote (styles d') p')
    /\ (exists q', paragraphs (body d') !! 1 = Some q'
          /\ carries_region_style LongQuote (styles d') q').
Proof.
  destruct (open_and_close_in_one_paragraph both_tokens_document 0
              (plain None (OPEN_LONG_QUOTE ++ str "quote" ++ CLOSE_LONG_QUOTE)) 1)
    as (n & d' & Hrun & (p' & Hp' & Htext & _ & Hcarries) & _ & Hnext).
  - repeat constructor; vm_compute; eexists; reflexivity.
  - reflexivity.
  - vm_compute. reflexivity.
  - vm_compute. reflexivity.
  - intros j q Hij Hj Hq.
    destruct j as [|[|j]]; try lia; simpl in Hq; injection Hq as <-;
      vm_compute; reflexivity.
  - exists n, d'. split; [exact Hrun|]. split.
    + exists p'. split; [exact Hp'|]. split; [exact Htext | exact Hcarries].
    + apply (Hnext 1); [lia | lia | simpl; lia].
Defined.

(** The font size of a long quotation reaches every paragraph of the same
    style: once a paragraph holding the open token is styled, any
    paragraph that resolves to the same style object, marked or not,
    reads 10 pt after the pass. *)
Lemma long_quote_font_size_is_shared
    (d : Document) (i j : nat) (p q : Paragraph) :
  every_paragraph_has_style d ->
  paragraphs (body d) !! i = Some p ->
  contains OPEN_LONG_QUOTE (paragraph_text p) = true ->
  paragraphs (body d) !! j = Some q ->
  paragraph_style (styles d) q = paragraph_style (styles d) p ->
  exists n d' q',
    process_long_quote_markers d = Ok (n, d')
    /\ paragraphs (body d') !! j = Some q'
    /\ paragraph_font_size (styles d') q' = Some (Pt 10).
Proof.
  intros Hready Hi Hopen Hj Hsame.
  destruct (region_pass_effect LongQuote d Hready)
    as (n & d' & Hrun & _ & Hreg & _ & Heach).
  destruct (Heach i p Hi) as (p' & _ & Hps & Hp).
  destruct (Heach j q Hj) as (q' & Hq' & Hqs & _).
  cbn [open_token] in Hp. rewrite Hopen in Hp. destruct Hp as [_ [_ Hfont]].
  exists n, d', q'. split; [exact Hrun|]. split; [exact Hq'|].
  pose proof (evolves_keys _ _ Hreg) as Hkeys.
  unfold paragraph_font_size in *.
  assert (Hres : paragraph_style (styles d') q' = paragraph_style (styles d') p').
  { rewrite <- !(paragraph_style_keys _ _ _ Hkeys).
    unfold paragraph_style in *. rewrite Hqs, Hps. exact Hsame. }
  rewrite Hres. exact Hfont.
Qed.

(** C1.  Region inclusivity, on the document [A, "<OPEN>text1", "mid",
    "text2<CLOSE>", B] with its five paragraphs in the style [Normal] at
    12 pt.  The pass returns 3; the
    paragraphs 1 to 3 carry the long-quotation style and hold their texts
    without the tokens; the paragraph records of [A] and [B] are the old
    ones.  But the 10 pt font size has been assigned to the style object
    the five paragraphs share: [A] and [B], which read 12 pt before the
    pass, read 10 pt after it. *)
Theorem region_inclusivity_shared_style :
  exists d',
    process_long_quote_markers inclusivity_document = Ok (3, d')
    /\ map paragraph_text (paragraphs (body d'))
       = [str "A"; str "text1"; str "mid"; str "text2"; str "B"]
    /\ (forall j q, 1 <= j <= 3 -> paragraphs (body d') !! j = Some q ->
          carries_region_style LongQuote (styles d') q)
    /\ paragraphs (body d') !! 0 = inclusivity_paragraphs !! 0
    /\ paragraphs (body d') !! 4 = inclusivity_paragraphs !! 4
    /\ map (paragraph_font_size (styles inclusivity_document)) inclusivity_paragraphs
       = [Some (Pt 12); Some (Pt 12); Some (Pt 12); Some (Pt 12); Some (Pt 12)]
    /\ map (paragraph_font_size (styles d')) (paragraphs (body d'))
       = [Some (Pt 10); Some (Pt 10); Some (Pt 10); Some (Pt 10); Some (Pt 10)].
Proof.
  eexists. split; [vm_compute; reflexivity|].
  split; [vm_compute; reflexivity|].
  split.
  { intros j q Hj Hq.
    destruct j as [|[|[|[|j]]]]; try lia; simpl in Hq; injection Hq as <-;
      (split; [repeat split | vm_compute; reflexivity]). }
  repeat split; vm_compute; reflexivity.
Qed.

(** C5.  Close before open, on the document ["ordinary", "entry<CLOSE>",
    "after"] with its three paragraphs in the style [Normal] at 12 pt.
    The long-quotation pass returns 1; the paragraph with the close token
    carries the long-quotation style and holds its text without the
    token; the paragraph records of the two ordinary paragraphs are the
    old ones.  But the 10 pt font size has been assigned to the style
    object the three paragraphs share: the ordinary paragraphs, which
    read 12 pt before the pass, read 10 pt after it.  The reference pass,
    on the same texts with its own close token, styles the paragraph with
    the token and leaves the ordinary paragraphs and the style registry
    as they were. *)
Theorem close_before_open_shared_style :
  (exists d',
     process_long_quote_markers stray_close_quote_document = Ok (1, d')
     /\ map paragraph_text (paragraphs (body d'))
        = [str "ordinary"; str "entry"; str "after"]
     /\ (forall q, paragraphs (body d') !! 1 = Some q ->
           carries_region_style LongQuote (styles d') q)
     /\ paragraphs (body d') !! 0 = stray_close_quote_paragraphs !! 0
     /\ paragraphs (body d') !! 2 = stray_close_quote_paragraphs !! 2
     /\ map (paragraph_font_size (styles stray_close_quote_document))
          stray_close_quote_paragraphs
        = [Some (Pt 12); Some (Pt 12); Some (Pt 12)]
     /\ map (paragraph_font_size (styles d')) (paragraphs (body d'))
        = [Some (Pt 10); Some (Pt 10); Some (Pt 10)])
  /\ (exists d',
        apply_references_block_format Cm_1_25 single_spacing (Pt 6) stray_close_document
        = (1, d')
        /\ map paragraph_text (paragraphs (body d'))
           = [str "ordinary"; str "entry"; str "after"]
        /\ (forall q, paragraphs (body d') !! 1 = Some q ->
              carries_region_style (References Cm_1_25 single_spacing (Pt 6)) (styles d') q)
        /\ paragraphs (body d') !! 0 = paragraphs (body stray_close_document) !! 0
        /\ paragraphs (body d') !! 2 = paragraphs (body stray_close_document) !! 2
        /\ styles d' = styles stray_close_document).
Proof.
  split.
  - eexists. split; [vm_compute; reflexivity|].
    split; [vm_compute; reflexivity|].
    split.
    { intros q Hq. simpl in Hq. injection Hq as <-.
      split; [repeat split | vm_compute; reflexivity]. }
    repeat split; vm_compute; reflexivity.
  - eexists. split; [vm_compute; reflexivity|].
    split; [vm_compute; reflexivity|].
    split.
    { intros q Hq. simpl in Hq. injection Hq as <-. repeat split. }
    repeat split; vm_compute; reflexivity.
Qed.

(** ** Table hardening *)

Lemma hardening_rows (t : Table) :
  prevent_table_row_split_and_repeat_header t
  = mkTable (imap harden_row (tbl_rows t)) (tblPr t).
Proof. reflexivity. Qed.

Lemma hardening_row_at (t : Table) (i : nat) :
  tbl_rows (prevent_table_row_split_and_repeat_header t) !! i
  = harden_row i <$> tbl_rows t !! i.
Proof. rewrite hardening_rows. simpl. apply list_lookup_imap. Qed.

Lemma harden_row_children (i : nat) (r : Row) :
  row_children (harden_row i r)
  = row_children r ++ (if Nat.eqb i 0 then [cantSplit; tblHeader] else [cantSplit]).
Proof.
  unfold harden_row, _set_row_cant_split, get_or_add_trPr, row_children.
  destruct (Nat.eqb i 0); simpl; [|reflexivity].
  rewrite <- app_assoc. reflexivity.
Qed.

Lemma count_child_app (c : TrPrChild) (r : Row) (extra : list TrPrChild) (r' : Row) :
  row_children r' = row_children r ++ extra ->
  count_child c r' = count_child c r + length (List.filter (child_eqb c) extra).
Proof.
  intros Hr. unfold count_child. rewrite Hr.
  rewrite List.filter_app, length_app. reflexivity.
Qed.

Lemma row_has_count (c : TrPrChild) (r : Row) :
  row_has c r = true <-> 0 < count_child c r.
Proof.
  unfold row_has, count_child.
  induction (row_children r) as [|x l IH]; simpl.
  - split; [discriminate | lia].
  - destruct (child_eqb c x); simpl; [split; [lia | reflexivity]|exact IH].
Qed.

Lemma harden_row_counts (i : nat) (r : Row) :
  count_child cantSplit (harden_row i r) = count_child cantSplit r + 1
  /\ count_child tblHeader (harden_row i r)
     = count_child tblHeader r + (if Nat.eqb i 0 then 1 else 0).
Proof.
  split.
  - rewrite (count_child_app _ r _ _ (harden_row_children i r)).
    destruct (Nat.eqb i 0); reflexivity.
  - rewrite (count_child_app _ r _ _ (harden_row_children i r)).
    destruct (Nat.eqb i 0); reflexivity.
Qed.

(** C3 as stated (no row after row 0 repeats as a header) fails on a table
    with two header rows: row 1 still repeats after the hardening. *)
Lemma header_repeat_counterexample : ~ header_repeat_invariant two_header_rows.
Proof.
  intros Hinv.
  destruct (Hinv ltac:(simpl; lia)) as (_ & Hlater & _).
  specialize (Hlater 1 (harden_row 1 (mkRow (Some [tblHeader]))) (Nat.le_refl 1) eq_refl).
  vm_compute in Hlater. discriminate.
Qed.

(** C3, amended.  The hardening keeps the rows in number and order; after
    it every row has the cannot-split property, row 0 has the
    repeat-header property, and a later row has the repeat-header
    property exactly when it had it before. *)
Theorem header_repeat_after_hardening (t : Table) (i : nat) (r : Row) :
  tbl_rows t !! i = Some r ->
  length (tbl_rows (prevent_table_row_split_and_repeat_header t)) = length (tbl_rows t)
  /\ exists r',
       tbl_rows (prevent_table_row_split_and_repeat_header t) !! i = Some r'
       /\ row_has cantSplit r' = true
       /\ (i = 0 -> row_has tblHeader r' = true)
       /\ (1 <= i -> row_has tblHeader r' = row_has tblHeader r
                     /\ count_child tblHeader r' = count_child tblHeader r).
Proof.
  intros Hr. split.
  { rewrite hardening_rows. simpl. apply length_imap. }
  exists (harden_row i r). split.
  { rewrite hardening_row_at, Hr. reflexivity. }
  destruct (harden_row_counts i r) as [Hcant Hhdr].
  split; [apply row_has_count; lia|]. split.
  - intros ->. apply row_has_count. simpl in Hhdr. lia.
  - intros Hi. destruct i as [|i]; [lia|]. simpl in Hhdr.
    rewrite Nat.add_0_r in Hhdr. split; [|exact Hhdr].
    destruct (row_has tblHeader r) eqn:Hb.
    + apply row_has_count. apply row_has_count in Hb. lia.
    + destruct (row_has tblHeader (harden_row (S i) r)) eqn:Hb'; [|reflexivity].
      apply row_has_count in Hb'. rewrite Hhdr in Hb'.
      apply row_has_count in Hb'. congruence.
Qed.

Lemma header_repeat_witness :
  length (tbl_rows (prevent_table_row_split_and_repeat_header two_header_rows)) = 3
  /\ exists r',
       tbl_rows (prevent_table_row_split_and_repeat_header two_header_rows) !! 2 = Some r'
       /\ row_has cantSplit r' = true
       /\ (2 = 0 -> row_has tblHeader r' = true)
       /\ (1 <= 2 -> row_has tblHeader r' = row_has tblHeader (mkRow None)
                     /\ count_child tblHeader r' = count_child tblHeader (mkRow None)).
Proof.
  apply (header_repeat_after_hardening two_header_rows 2 (mkRow None)).
  reflexivity.
Defined.

(** ** The collapse of blank paragraphs *)

Lemma blank_lines_loop_step (i : nat) (b : list Block) :
  blank_lines_loop i b
  = if i + 1 <? length (paragraphs b)
    then if both_blank i b
         then blank_lines_loop i (remove_paragraph (i + 1) b)
         else blank_lines_loop (i + 1) b
    else b.
Proof.
  rewrite blank_lines_loop_equation_1.
  destruct (inspect (i + 1 <? length (paragraphs b))) as [[] Hv].
  - rewrite blank_lines_loop_clause_1_equation_1, Hv. reflexivity.
  - rewrite blank_lines_loop_clause_1_equation_2, Hv. reflexivity.
Qed.

Lemma remove_paragraph_app (b1 b : list Block) (k : nat) :
  remove_paragraph (length (paragraphs b1) + k) (b1 ++ b) = b1 ++ remove_paragraph k b.
Proof.
  induction b1 as [|x b1 IH]; [reflexivity|].
  destruct x; simpl; rewrite IH; reflexivity.
Qed.

Lemma remove_paragraph_skip (mid : list Block) (q : Paragraph) (rest : list Block) :
  paragraphs mid = [] ->
  remove_paragraph 0 (mid ++ BParagraph q :: rest) = mid ++ rest.
Proof.
  induction mid as [|x mid IH]; intros Hmid; [reflexivity|].
  destruct x; simpl in *; [discriminate| |]; rewrite IH by assumption; reflexivity.
Qed.

Lemma collapse_body_skip (flag : bool) (mid rest : list Block) :
  paragraphs mid = [] ->
  collapse_body flag (mid ++ rest) = mid ++ collapse_body flag rest.
Proof.
  induction mid as [|x mid IH]; intros Hmid; [reflexivity|].
  destruct x; simpl in *; [discriminate| |]; rewrite IH by assumption; reflexivity.
Qed.

(** The loop at the [i]-th paragraph [p], with the body split there. *)
Lemma blank_lines_loop_from :
  forall (b2 b1 : list Block) (p : Paragraph) (mid : list Block),
    paragraphs mid = [] ->
    blank_lines_loop (length (paragraphs b1)) (b1 ++ BParagraph p :: mid ++ b2)
    = b1 ++ BParagraph p :: mid ++ collapse_body (is_blank p) b2.
Proof.
  induction b2 as [|x b2 IH]; intros b1 p mid Hmid.
  - rewrite blank_lines_loop_step.
    rewrite paragraphs_app. simpl. rewrite paragraphs_app, Hmid. simpl.
    rewrite length_app. simpl.
    destruct (Nat.ltb_spec (length (paragraphs b1) + 1) (length (paragraphs b1) + 1));
      [lia|reflexivity].
  - assert (Hps : paragraphs (b1 ++ BParagraph p :: mid ++ x :: b2)
                  = paragraphs b1 ++ p :: paragraphs (x :: b2)).
    { rewrite paragraphs_app. simpl. rewrite paragraphs_app, Hmid. reflexivity. }
    destruct x as [q|t|tag c].
    + rewrite blank_lines_loop_step. rewrite Hps.
      assert (Hlt : length (paragraphs b1) + 1
                    < length (paragraphs b1 ++ p :: paragraphs (BParagraph q :: b2))).
      { rewrite length_app. simpl. lia. }
      apply Nat.ltb_lt in Hlt. rewrite Hlt.
      assert (Hboth : both_blank (length (paragraphs b1))
                        (b1 ++ BParagraph p :: mid ++ BParagraph q :: b2)
                      = is_blank p && is_blank q).
      { unfold both_blank. rewrite Hps.
        rewrite lookup_app_r by lia. rewrite Nat.sub_diag. simpl.
        rewrite lookup_app_r by lia.
        replace (length (paragraphs b1) + 1 - length (paragraphs b1)) with 1 by lia.
        reflexivity. }
      rewrite Hboth. simpl.
      destruct (is_blank p && is_blank q) eqn:Hpq.
      * apply andb_true_iff in Hpq as [Hp Hq].
        rewrite remove_paragraph_app. simpl.
        rewrite remove_paragraph_skip by assumption.
        rewrite (IH b1 p mid Hmid). rewrite Hp. reflexivity.
      * assert (Hidx : length (paragraphs b1) + 1
                       = length (paragraphs (b1 ++ BParagraph p :: mid))).
        { rewrite paragraphs_app. simpl. rewrite Hmid. rewrite length_app. simpl. lia. }
        rewrite Hidx.
        replace (b1 ++ BParagraph p :: mid ++ BParagraph q :: b2)
          with ((b1 ++ BParagraph p :: mid) ++ BParagraph q :: [] ++ b2).
        2:{ rewrite <- app_assoc. reflexivity. }
        rewrite (IH (b1 ++ BParagraph p :: mid) q [] eq_refl).
        rewrite <- app_assoc. reflexivity.
    + replace (b1 ++ BParagraph p :: mid ++ BTable t :: b2)
        with (b1 ++ BParagraph p :: (mid ++ [BTable t]) ++ b2).
      2:{ rewrite <- app_assoc. reflexivity. }
      rewrite IH.
      * rewrite <- app_assoc. reflexivity.
      * rewrite paragraphs_app, Hmid. reflexivity.
    + replace (b1 ++ BParagraph p :: mid ++ BOther tag c :: b2)
        with (b1 ++ BParagraph p :: (mid ++ [BOther tag c]) ++ b2).
      2:{ rewrite <- app_assoc. reflexivity. }
      rewrite IH.
      * rewrite <- app_assoc. reflexivity.
      * rewrite paragraphs_app, Hmid. reflexivity.
Qed.

Lemma first_paragraph_split (b : list Block) :
  paragraphs b = []
  \/ exists mid p rest, b = mid ++ BParagraph p :: rest /\ paragraphs mid = [].
Proof.
  induction b as [|x b IH]; [left; reflexivity|].
  destruct x as [p|t|tag c].
  - right. exists [], p, b. split; reflexivity.
  - destruct IH as [Hnil | (mid & p & rest & -> & Hmid)].
    + left. exact Hnil.
    + right. exists (BTable t :: mid), p, rest. split; [reflexivity | exact Hmid].
  - destruct IH as [Hnil | (mid & p & rest & -> & Hmid)].
    + left. exact Hnil.
    + right. exists (BOther tag c :: mid), p, rest. split; [reflexivity | exact Hmid].
Qed.

(** The [while] loop computes the one-pass collapse. *)
Lemma blank_lines_loop_collapse (b : list Block) :
  blank_lines_loop 0 b = collapse_body false b.
Proof.
  destruct (first_paragraph_split b) as [Hnil | (mid & p & rest & -> & Hmid)].
  - rewrite blank_lines_loop_step, Hnil. simpl.
    rewrite <- (app_nil_r b) at 2. rewrite collapse_body_skip by assumption.
    simpl. rewrite app_nil_r. reflexivity.
  - rewrite collapse_body_skip by assumption. simpl.
    pose proof (blank_lines_loop_from rest mid p [] eq_refl) as Hloop.
    rewrite Hmid in Hloop. simpl in Hloop. exact Hloop.
Qed.

Lemma collapse_body_paragraphs (flag : bool) (b : list Block) :
  paragraphs (collapse_body flag b) = collapse_blanks flag (paragraphs b)
  /\ tables (collapse_body flag b) = tables b.
Proof.
  revert flag. induction b as [|x b IH]; intros flag; [split; reflexivity|].
  destruct x as [p|t|tag c]; simpl.
  - destruct (flag && is_blank p); simpl.
    + apply IH.
    + destruct (IH (is_blank p)) as [Hp Ht]. rewrite Hp. split; [reflexivity | exact Ht].
  - destruct (IH flag) as [Hp Ht]. rewrite Ht. split; [exact Hp | reflexivity].
  - apply IH.
Qed.

Lemma blank_state_cons (g h : bool) (y : Paragraph) (ps : list Paragraph) :
  blank_state g (y :: ps) = blank_state h (y :: ps).
Proof.
  unfold blank_state. destruct (last (y :: ps)) eqn:E; [reflexivity|].
  apply last_None in E. discriminate.
Qed.

Lemma collapse_blanks_app (flag : bool) (pre rest : list Paragraph) :
  collapse_blanks flag (pre ++ rest)
  = collapse_blanks flag pre ++ collapse_blanks (blank_state flag pre) rest.
Proof.
  revert flag. induction pre as [|x pre IH]; intros flag; [reflexivity|].
  assert (Hstate : forall g, blank_state g pre = blank_state flag (x :: pre)
                             \/ (pre = [] /\ blank_state flag (x :: pre) = is_blank x)).
  { intros g. destruct pre as [|y pre]; [right; split; reflexivity|].
    left. apply (blank_state_cons g flag y pre). }
  simpl. destruct (flag && is_blank x) eqn:Hfx.
  - rewrite IH. f_equal.
    destruct (Hstate true) as [-> | [-> Hx]]; [reflexivity|].
    rewrite Hx. apply andb_true_iff in Hfx as [_ Hb]. simpl.
    unfold blank_state. simpl. rewrite Hb. reflexivity.
  - simpl. rewrite IH. f_equal. f_equal.
    destruct (Hstate (is_blank x)) as [-> | [-> Hx]]; [reflexivity|].
    rewrite Hx. reflexivity.
Qed.

Lemma collapse_body_app (flag : bool) (b1 rest : list Block) :
  collapse_body flag (b1 ++ rest)
  = collapse_body flag b1 ++ collapse_body (blank_state flag (paragraphs b1)) rest.
Proof.
  revert flag. induction b1 as [|x b1 IH]; intros flag; [reflexivity|].
  destruct x as [p|t|tag c]; simpl.
  - assert (Hstate : forall g, blank_state g (paragraphs b1)
                               = blank_state flag (p :: paragraphs b1)
                               \/ (paragraphs b1 = []
                                   /\ blank_state flag (p :: paragraphs b1) = is_blank p)).
    { intros g. destruct (paragraphs b1) as [|y ps]; [right; split; reflexivity|].
      left. apply (blank_state_cons g flag y ps). }
    destruct (flag && is_blank p) eqn:Hfp.
    + rewrite IH. f_equal.
      destruct (Hstate true) as [-> | [Hnil Hp]]; [reflexivity|].
      rewrite Hp. unfold blank_state. rewrite Hnil. simpl.
      apply andb_true_iff in Hfp as [_ Hb]. rewrite Hb. reflexivity.
    + simpl. rewrite IH. f_equal. f_equal.
      destruct (Hstate (is_blank p)) as [-> | [Hnil Hp]]; [reflexivity|].
      rewrite Hp. unfold blank_state. rewrite Hnil. reflexivity.
  - rewrite IH. reflexivity.
  - rewrite IH. reflexivity.
Qed.

Lemma collapse_blanks_head (post : list Paragraph) :
  (forall y, head post = Some y -> is_blank y = false) ->
  collapse_blanks true post = collapse_blanks false post.
Proof.
  destruct post as [|y post]; intros Hy; [reflexivity|].
  simpl. rewrite (Hy y eq_refl). reflexivity.
Qed.

Lemma remove_extra_blank_lines_collapse (d : Document) :
  remove_extra_blank_lines d = with_body (collapse_body false (body d)) d.
Proof. unfold remove_extra_blank_lines. rewrite blank_lines_loop_collapse. reflexivity. Qed.

Lemma paragraph_split (b : list Block) (k : nat) (q : Paragraph) :
  paragraphs b !! k = Some q ->
  exists b1 b2, b = b1 ++ BParagraph q :: b2 /\ length (paragraphs b1) = k.
Proof.
  revert k. induction b as [|x b IH]; intros k Hk; [discriminate|].
  destruct x as [p|t|tag c]; simpl in Hk.
  - destruct k as [|k]; simpl in Hk.
    + injection Hk as ->. exists [], b. split; reflexivity.
    + destruct (IH k Hk) as (b1 & b2 & -> & Hlen).
      exists (BParagraph p :: b1), b2. split; [reflexivity|]. simpl. lia.
  - destruct (IH k Hk) as (b1 & b2 & -> & Hlen).
    exists (BTable t :: b1), b2. split; [reflexivity | exact Hlen].
  - destruct (IH k Hk) as (b1 & b2 & -> & Hlen).
    exists (BOther tag c :: b1), b2. split; [reflexivity | exact Hlen].
Qed.

(** C7.  Blank-line collapse.  When the paragraphs of the document are
    [pre], then three blank paragraphs, then [post], and the three are a
    whole run (the last of [pre] and the first of [post] are not blank),
    the paragraphs after [remove_extra_blank_lines] are what the pass
    keeps of [pre], then the first of the three alone, then what it keeps
    of [post]; the tables are untouched. *)
Theorem three_blank_paragraphs_collapse
    (d : Document) (pre post : list Paragraph) (b1 b2 b3 : Paragraph) :
  paragraphs (body d) = pre ++ [b1; b2; b3] ++ post ->
  is_blank b1 = true -> is_blank b2 = true -> is_blank b3 = true ->
  (forall x, last pre = Some x -> is_blank x = false) ->
  (forall y, head post = Some y -> is_blank y = false) ->
  paragraphs (body (remove_extra_blank_lines d))
  = collapse_blanks false pre ++ [b1] ++ collapse_blanks false post
  /\ tables (body (remove_extra_blank_lines d)) = tables (body d).
Proof.
  intros Hps H1 H2 H3 Hpre Hpost.
  rewrite remove_extra_blank_lines_collapse. simpl.
  destruct (collapse_body_paragraphs false (body d)) as [Hp Ht].
  split; [|exact Ht].
  rewrite Hp, Hps, collapse_blanks_app.
  assert (Hstate : blank_state false pre = false).
  { unfold blank_state. destruct (last pre) as [x|] eqn:Hx; [|reflexivity].
    apply Hpre. reflexivity. }
  rewrite Hstate. simpl. rewrite H1, H2, H3. simpl.
  rewrite (collapse_blanks_head post Hpost). reflexivity.
Qed.

Lemma three_blank_paragraphs_witness :
  paragraphs (body (remove_extra_blank_lines three_blanks_document))
  = collapse_blanks false [plain None (str "above")] ++ [plain None []]
    ++ collapse_blanks false [plain None (str "below")]
  /\ tables (body (remove_extra_blank_lines three_blanks_document))
     = tables (body three_blanks_document).
Proof.
  apply (three_blank_paragraphs_collapse three_blanks_document
           [plain None (str "above")] [plain None (str "below")]
           (plain None []) (plain None (str "  ")) (mkParagraph None no_format [])).
  - reflexivity.
  - reflexivity.
  - reflexivity.
  - reflexivity.
  - intros x Hx. injection Hx as <-. reflexivity.
  - intros y Hy. injection Hy as <-. reflexivity.
Defined.

(** C8.  Blankness is judged by the text alone.  When two neighbours in
    [doc.paragraphs] both have a blank text, the second one is deleted,
    whatever else it holds (a drawing, for one): the paragraphs left are
    what the pass keeps of the paragraphs up to the first of the two,
    then what it keeps of those after the second; and the pass gives the
    very document it gives when the second is removed beforehand. *)
Theorem blank_neighbour_is_deleted
    (d : Document) (i : nat) (p q : Paragraph) :
  paragraphs (body d) !! i = Some p ->
  paragraphs (body d) !! (i + 1) = Some q ->
  is_blank p = true -> is_blank q = true ->
  paragraphs (body (remove_extra_blank_lines d))
  = collapse_blanks false (take (i + 1) (paragraphs (body d)))
    ++ collapse_blanks true (drop (i + 2) (paragraphs (body d)))
  /\ remove_extra_blank_lines d
     = remove_extra_blank_lines (with_body (remove_paragraph (i + 1) (body d)) d).
Proof.
  intros Hp Hq Hbp Hbq.
  assert (Hlast : forall ps : list Paragraph,
            length ps = i + 1 -> ps !! i = Some p -> blank_state false ps = true).
  { intros ps Hlen Hi. unfold blank_state. rewrite last_lookup.
    replace (Init.Nat.pred (length ps)) with i by lia.
    rewrite Hi. exact Hbp. }
  split.
  - rewrite remove_extra_blank_lines_collapse. simpl.
    rewrite (proj1 (collapse_body_paragraphs false (body d))).
    rewrite <- (take_drop_middle _ _ _ Hq) at 1.
    rewrite collapse_blanks_app.
    rewrite Hlast.
    + simpl. rewrite Hbq. replace (S (i + 1)) with (i + 2) by lia. reflexivity.
    + rewrite length_take. apply lookup_lt_Some in Hq. lia.
    + rewrite lookup_take_lt by lia. exact Hp.
  - rewrite !remove_extra_blank_lines_collapse.
    destruct d as [secs ftrs st b]. unfold with_body. simpl in *. f_equal.
    destruct (paragraph_split b (i + 1) q Hq) as (b1 & b2 & -> & Hlen).
    rewrite <- Hlen at 1. rewrite <- (Nat.add_0_r (length (paragraphs b1))).
    rewrite remove_paragraph_app. simpl.
    rewrite !collapse_body_app. f_equal.
    rewrite Hlast; [simpl; rewrite Hbq; reflexivity | exact Hlen |].
    rewrite paragraphs_app in Hp. rewrite lookup_app_l in Hp by lia. exact Hp.
Qed.

Lemma blank_neighbour_witness :
  has_drawing picture_paragraph = true
  /\ paragraphs (body (remove_extra_blank_lines blank_then_picture_document))
     = [plain None (str "above"); plain None []; plain None (str "below")].
Proof.
  split; [reflexivity|].
  destruct (blank_neighbour_is_deleted blank_then_picture_document 1
              (plain None []) picture_paragraph) as [Hkept _].
  - reflexivity.
  - reflexivity.
  - reflexivity.
  - reflexivity.
  - rewrite Hkept. reflexivity.
Defined.

(** ** The whole-document property passes *)

Lemma alter_idempotent {A} (f : A -> A) (k : nat) (l : list A) :
  (forall x, f (f x) = f x) -> alter f k (alter f k l) = alter f k l.
Proof.
  intros Hf. revert k. induction l as [|x l IH]; intros k; [reflexivity|].
  destruct k as [|k]; simpl.
  - rewrite Hf. reflexivity.
  - f_equal. apply IH.
Qed.

Lemma map_paragraphs_idempotent (f : Paragraph -> Paragraph) (b : list Block) :
  (forall p, f (f p) = f p) -> map_paragraphs f (map_paragraphs f b) = map_paragraphs f b.
Proof.
  intros Hf. unfold map_paragraphs. rewrite map_map.
  apply map_ext. intros [p|t|tag c]; [rewrite Hf|..]; reflexivity.
Qed.

Lemma set_margins_idempotent (top left right bottom : Z) (s : Section) :
  set_margins top left right bottom (set_margins top left right bottom s)
  = set_margins top left right bottom s.
Proof. reflexivity. Qed.

Section PropertyPasses.
Context `{CaseMapping}.

Lemma is_heading_style (st : list Style) (p p' : Paragraph) :
  p_style p' = p_style p -> is_heading st p' = is_heading st p.
Proof.
  intros Hs. unfold is_heading, paragraph_style.
  rewrite Hs. reflexivity.
Qed.

Lemma is_heading_keys (st st' : list Style) (p : Paragraph) :
  map style_key st = map style_key st' -> is_heading st p = is_heading st' p.
Proof.
  intros Hk. unfold is_heading. rewrite (paragraph_style_keys st st' p Hk).
  destruct (paragraph_style st' p) as [k|]; [|reflexivity].
  pose proof (lookup_keys st st' k Hk) as Hl.
  destruct (st !! k) as [s|], (st' !! k) as [s'|]; simpl in *; try discriminate;
    [|reflexivity].
  unfold style_key in Hl.
  assert (Hn : style_name s = style_name s') by congruence.
  rewrite Hn. reflexivity.
Qed.

(** What the body of the loop keeps of a paragraph. *)
Lemma style_paragraph_keeps (justify : bool) (indent : Z) (st : list Style)
    (p p' : Paragraph) :
  style_paragraph justify indent st p = Ok p' ->
  p_style p' = p_style p /\ p_runs p' = p_runs p.
Proof.
  unfold style_paragraph. destruct (is_heading st p) as [[]|e]; simpl;
    [| |discriminate]; intros Hp; injection Hp as <-;
    [|destruct justify]; split; reflexivity.
Qed.

Lemma style_paragraph_idempotent (justify : bool) (indent : Z) (st : list Style)
    (p p' : Paragraph) :
  style_paragraph justify indent st p = Ok p' ->
  style_paragraph justify indent st p' = Ok p'.
Proof.
  intros Hp. pose proof (style_paragraph_keeps _ _ _ _ _ Hp) as [Hs _].
  unfold style_paragraph in *. rewrite (is_heading_style st p p' Hs).
  destruct (is_heading st p) as [[]|e]; simpl in *; [| |discriminate];
    injection Hp as <-; [reflexivity|].
  destruct justify; reflexivity.
Qed.

(** C6.  Idempotence of the property passes.  For every document and
    every choice of the arguments, running [set_page_margins],
    [configure_default_style] and [style_all_paragraphs] and then the
    same three again gives the outcome of running them once: the same
    document when they return, the same exception when the document has
    no style [Normal]. *)
Theorem property_passes_idempotent
    (top left right bottom : Z) (name : text) (size : Z) (spacing : LineSpacing)
    (style_indent : Z) (style_justify justify : bool) (indent : Z) (d : Document) :
  (property_passes top left right bottom name size spacing style_indent
     style_justify justify indent d
   ≫= property_passes top left right bottom name size spacing style_indent
        style_justify justify indent)
  = property_passes top left right bottom name size spacing style_indent
      style_justify justify indent d.
Proof.
  unfold property_passes, configure_default_style.
  change (styles (set_page_margins top left right bottom d)) with (styles d).
  destruct (styles_getitem (str "Normal") (styles d)) as [k|e] eqn:Hk; [|reflexivity].
  cbn [mbind result_bind mret result_ret].
  destruct (negb (has_font (from_option style_type PARAGRAPH (styles d !! k))))
    eqn:Hfont; [reflexivity|].
  destruct (negb (has_paragraph_format
                    (from_option style_type PARAGRAPH (styles d !! k))))
    eqn:Hformat; [reflexivity|].
  set (update := fun s : Style =>
         with_style_format (set_first_line_indent (Some style_indent))
           (with_style_format (set_space_after (Some (Pt 0)))
              (with_style_format (set_space_before (Some (Pt 0)))
                 (with_style_format (set_line_spacing (Some spacing))
                    (set_font_size (Some size)
                       (set_style_font (Some name) (font_size s) s)))))).
  assert (Hkeys : map style_key (alter update k (styles d)) = map style_key (styles d)).
  { apply alter_keys. intros s. reflexivity. }
  assert (Hty : from_option style_type PARAGRAPH (alter update k (styles d) !! k)
                = from_option style_type PARAGRAPH (styles d !! k)).
  { rewrite list_lookup_alter_eq. destruct (styles d !! k); reflexivity. }
  cbn [mbind result_bind mret result_ret].
  unfold style_all_paragraphs at 2 3.
  cbn [styles body sections with_body with_styles set_page_margins with_sections footers].
  match goal with
  | |- context [try_map_paragraphs ?f ?b] =>
      destruct (try_map_paragraphs f b) as [b1|e] eqn:Hb1; [|reflexivity]
  end.
  cbn [mbind result_bind mret result_ret].
  cbn [styles body sections with_body with_styles set_page_margins with_sections footers].
  rewrite (styles_getitem_keys _ _ _ Hkeys), Hk.
  cbn [mbind result_bind]. rewrite Hty, Hfont, Hformat.
  unfold style_all_paragraphs.
  cbn [styles body sections with_body with_styles set_page_margins with_sections footers].
  rewrite alter_idempotent by (intros s; reflexivity).
  cbn [mbind result_bind mret result_ret].
  cbn [styles body sections with_body with_styles set_page_margins with_sections footers].
  rewrite (try_map_paragraphs_idempotent _
             (style_paragraph_idempotent justify indent _) _ _ Hb1).
  cbn [mbind result_bind mret result_ret].
  unfold with_body, with_styles, set_page_margins, with_sections.
  cbn [styles body sections footers]. rewrite map_map. reflexivity.
Qed.

End PropertyPasses.

(** ** The structural walk *)

Lemma add_caption_raises (p : Paragraph) (s : text) (italic : bool) :
  add_caption_after_paragraph p s italic = Raise AttributeError.
Proof. reflexivity. Qed.

(** What a walk that returns has done: every table of the pending chain
    is hardened once, in place, and no paragraph has been added. *)
Lemma captions_walk_effect (add_fig add_tab : bool) :
  forall (pending before : list Block) (fig_n tab_n : nat) (b' : list Block),
    captions_walk add_fig add_tab fig_n tab_n before pending = Ok b' ->
    tables b' = tables before
                ++ map prevent_table_row_split_and_repeat_header (tables pending)
    /\ paragraphs b' = paragraphs before ++ paragraphs pending.
Proof.
  induction pending as [|x pending IH]; intros before fig_n tab_n b' Hrun.
  - simpl in Hrun. injection Hrun as <-. simpl. rewrite !app_nil_r. split; reflexivity.
  - destruct x as [p|t|tag c]; cbn [captions_walk] in Hrun.
    + destruct (has_drawing p && add_fig).
      * rewrite add_caption_raises in Hrun. discriminate.
      * destruct (IH _ _ _ _ Hrun) as [Ht Hp].
        rewrite Ht, Hp, tables_app, paragraphs_app. simpl.
        rewrite app_nil_r, <- app_assoc. split; reflexivity.
    + destruct add_tab.
      * destruct (paragraphs (before ++ BTable _ :: pending)) as [|first_p ps];
          [discriminate|].
        destruct (IH _ _ _ _ Hrun) as [Ht Hp].
        rewrite Ht, Hp, tables_app, paragraphs_app. simpl.
        rewrite app_nil_r, <- app_assoc. split; reflexivity.
      * destruct (IH _ _ _ _ Hrun) as [Ht Hp].
        rewrite Ht, Hp, tables_app, paragraphs_app. simpl.
        rewrite app_nil_r, <- app_assoc. split; reflexivity.
    + destruct (IH _ _ _ _ Hrun) as [Ht Hp].
      rewrite Ht, Hp, tables_app, paragraphs_app. simpl.
      rewrite !app_nil_r. split; reflexivity.
Qed.

Lemma ensure_captions_effect (add_fig add_tab : bool) (d d' : Document) :
  ensure_captions add_fig add_tab d = Ok d' ->
  tables (body d') = map prevent_table_row_split_and_repeat_header (tables (body d))
  /\ paragraphs (body d') = paragraphs (body d)
  /\ styles d' = styles d.
Proof.
  unfold ensure_captions. intros Hrun.
  destruct (captions_walk add_fig add_tab 0 0 [] (body d)) as [b'|e] eqn:Hwalk;
    [|discriminate].
  injection Hrun as <-. destruct (captions_walk_effect _ _ _ _ _ _ _ Hwalk) as [Ht Hp].
  simpl. split; [exact Ht|]. split; [exact Hp | reflexivity].
Qed.

(** C2.  Structural walk, with both caption flags on.  On a body that is
    one table, reading [doc.paragraphs[0]] raises.  On a body of a text
    and a table the walk returns, but what it puts above and below the
    table are two elements tagged with the name of the paragraph class,
    not paragraphs: [doc.paragraphs] is as before and no title or source
    text is written.  On a body that is one picture the caption cannot
    be inserted and the walk raises.  In no case is a caption made. *)
Theorem structural_walk_makes_no_caption :
  ensure_captions true true table_only_document = Raise IndexError
  /\ (exists d',
        ensure_captions true true text_and_table_document = Ok d'
        /\ body d'
           = [ BParagraph (plain None (str "text"));
               BOther (str "CT_P") (str "w:p");
               BTable (prevent_table_row_split_and_repeat_header one_row_table);
               BOther (str "CT_P") (str "w:p") ]
        /\ paragraphs (body d') = paragraphs (body text_and_table_document))
  /\ ensure_captions true true picture_only_document = Raise AttributeError.
Proof.
  split; [reflexivity|]. split; [|reflexivity].
  eexists. split; [reflexivity|]. split; reflexivity.
Qed.

(** ** The pipeline and the tables *)

Lemma map_tables_list (f : Table -> Table) (b : list Block) :
  tables (map_tables f b) = map f (tables b).
Proof.
  induction b as [|x b IH]; [reflexivity|].
  destruct x; simpl; rewrite ?IH; reflexivity.
Qed.

Lemma configure_default_style_body (name : text) (size : Z) (spacing : LineSpacing)
    (indent : Z) (justify : bool) (d d1 : Document) :
  configure_default_style name size spacing indent justify d = Ok d1 -> body d1 = body d.
Proof.
  unfold configure_default_style.
  destruct (styles_getitem (str "Normal") (styles d)) as [k|e]; [|discriminate].
  simpl. destruct (negb (has_font _)); [discriminate|].
  destruct (negb (has_paragraph_format _)); [discriminate|].
  intros Hd. injection Hd as <-. reflexivity.
Qed.

Lemma add_page_number_body (position : text) (d : Document) :
  body (add_page_number_to_footer position d) = body d.
Proof.
  unfold add_page_number_to_footer.
  generalize (seq 0 (length (sections d))). intros l. revert d.
  induction l as [|i l IH]; intros d; [reflexivity|].
  simpl. rewrite IH. unfold get_or_add_footer.
  destruct (inherited_footer (sections d) i); reflexivity.
Qed.

Lemma long_quote_tables (d d' : Document) (n : nat) :
  process_long_quote_markers d = Ok (n, d') -> tables (body d') = tables (body d).
Proof.
  unfold process_long_quote_markers.
  destruct (for_paragraphs long_quote_step _ (body d)) as [[s b]|e] eqn:Hrun;
    [|discriminate].
  intros Hd. injection Hd as _ <-. simpl.
  apply (for_paragraphs_list _ _ _ _ _ Hrun).
Qed.

Lemma references_tables (hanging : Z) (spacing : LineSpacing) (gap : Z) (d : Document) :
  tables (body (snd (apply_references_block_format hanging spacing gap d)))
  = tables (body d).
Proof.
  unfold apply_references_block_format.
  pose proof (scan_paragraphs_list (references_step hanging spacing gap) (body d) (false, 0))
    as [_ Ht].
  destruct (scan_paragraphs _ _ (body d)) as [s b]. exact Ht.
Qed.

Lemma remove_extra_blank_lines_tables (d : Document) :
  tables (body (remove_extra_blank_lines d)) = tables (body d).
Proof.
  rewrite remove_extra_blank_lines_collapse. simpl.
  apply collapse_body_paragraphs.
Qed.

Lemma hardened_twice_row (t : Table) (i : nat) (r : Row) :
  tbl_rows t !! i = Some r ->
  exists r',
    tbl_rows (prevent_table_row_split_and_repeat_header
                (prevent_table_row_split_and_repeat_header t)) !! i = Some r'
    /\ row_children r' = row_children r ++ appended_twice i.
Proof.
  intros Hr. exists (harden_row i (harden_row i r)). split.
  - rewrite !hardening_row_at, Hr. reflexivity.
  - rewrite !harden_row_children, <- app_assoc. unfold appended_twice.
    destruct (Nat.eqb i 0); reflexivity.
Qed.

Lemma captions_walk_returns (add_fig add_tab : bool) :
  forall (pending before : list Block) (fig_n tab_n : nat),
    (add_fig = true -> Forall (fun p => has_drawing p = false) (paragraphs pending)) ->
    (add_tab = true -> tables pending <> [] -> paragraphs (before ++ pending) <> []) ->
    exists b', captions_walk add_fig add_tab fig_n tab_n before pending = Ok b'.
Proof.
  induction pending as [|x pending IH]; intros before fig_n tab_n Hfig Htab.
  - eexists. reflexivity.
  - destruct x as [p|t|tag c]; cbn [captions_walk].
    + assert (Hno : has_drawing p && add_fig = false).
      { destruct add_fig; [|apply andb_false_r].
        specialize (Hfig eq_refl). simpl in Hfig. apply Forall_cons in Hfig as [Hp _].
        rewrite Hp. reflexivity. }
      rewrite Hno. apply IH.
      * intros Ha. specialize (Hfig Ha). simpl in Hfig.
        apply Forall_cons in Hfig as [_ Hrest]. exact Hrest.
      * intros Ha Ht. rewrite <- app_assoc. simpl. apply Htab; [exact Ha|].
        simpl. exact Ht.
    + destruct add_tab eqn:Ha.
      * assert (Hps : paragraphs (before ++ BTable (prevent_table_row_split_and_repeat_header t) :: pending)
                      = paragraphs (before ++ BTable t :: pending)).
        { rewrite !paragraphs_app. reflexivity. }
        rewrite Hps.
        destruct (paragraphs (before ++ BTable t :: pending)) as [|first_p ps] eqn:Hfirst.
        { exfalso. apply (Htab eq_refl); [simpl; discriminate | reflexivity]. }
        apply IH.
        -- intros Hf. specialize (Hfig Hf). exact Hfig.
        -- intros _ _. rewrite <- app_assoc. rewrite paragraphs_app. simpl.
           rewrite paragraphs_app in Hfirst. simpl in Hfirst. rewrite Hfirst. discriminate.
      * apply IH.
        -- intros Hf. specialize (Hfig Hf). exact Hfig.
        -- intros Hfalse. discriminate.
    + apply IH.
      * intros Hf. specialize (Hfig Hf). exact Hfig.
      * intros Ha Ht. rewrite <- app_assoc. simpl. apply Htab; [exact Ha|].
        simpl. exact Ht.
Qed.

Section PipelineFacts.
Context `{CaseMapping}.

(** What [style_all_paragraphs] leaves alone when it returns. *)
Lemma style_all_paragraphs_effect (justify : bool) (indent : Z) (d d' : Document) :
  style_all_paragraphs justify indent d = Ok d' ->
  sections d' = sections d /\ footers d' = footers d /\ styles d' = styles d
  /\ tables (body d') = tables (body d)
  /\ Forall2 (fun p p' => p_style p' = p_style p /\ p_runs p' = p_runs p)
       (paragraphs (body d)) (paragraphs (body d')).
Proof.
  unfold style_all_paragraphs.
  destruct (try_map_paragraphs _ (body d)) as [b|e] eqn:Hb; [|discriminate].
  simpl. intros Hd. injection Hd as <-.
  apply try_map_paragraphs_list in Hb as [Hps Hts].
  repeat (split; [reflexivity|]). split; [exact Hts|]. simpl.
  eapply Forall2_impl; [exact Hps|].
  intros p p' Hp. apply (style_paragraph_keeps _ _ _ _ _ Hp).
Qed.

Lemma pipeline_tables (cfg : Config) (d d' : Document) :
  apply_abnt_formatting cfg d = Ok d' ->
  tables (body d')
  = map (fun t => prevent_table_row_split_and_repeat_header
                    (prevent_table_row_split_and_repeat_header t))
        (tables (body d)).
Proof.
  unfold apply_abnt_formatting. intros Hrun.
  destruct (configure_default_style _ _ _ _ _ _) as [d1|e] eqn:H1; [|discriminate].
  apply configure_default_style_body in H1. simpl in H1.
  cbn [mbind result_bind] in Hrun.
  destruct (style_all_paragraphs _ _ d1) as [d1'|e] eqn:Hsty; [|discriminate].
  apply style_all_paragraphs_effect in Hsty as (_ & _ & _ & Hsty & _).
  cbn [mbind result_bind] in Hrun.
  destruct (ensure_captions _ _ _) as [d2|e] eqn:H2; [|discriminate].
  apply ensure_captions_effect in H2 as (H2 & _ & _).
  cbn [mbind result_bind] in Hrun.
  destruct (process_long_quote_markers d2) as [[n d3]|e] eqn:H3; [|discriminate].
  apply long_quote_tables in H3.
  cbn [mbind result_bind] in Hrun. injection Hrun as <-.
  rewrite remove_extra_blank_lines_tables.
  assert (H4 : forall d4,
            tables (body (if footer_page_numbers cfg
                          then add_page_number_to_footer (str "right") d4 else d4))
            = tables (body d4)).
  { intros d4. destruct (footer_page_numbers cfg); [|reflexivity].
    rewrite add_page_number_body. reflexivity. }
  rewrite H4.
  assert (H5 : tables (body (if format_refs_block cfg
                            then snd (apply_references_block_format Cm_1_25
                                        single_spacing (Pt 6) d3)
                            else d3))
               = tables (body d3)).
  { destruct (format_refs_block cfg); [apply references_tables | reflexivity]. }
  rewrite H5, H3, H2. cbn [body with_body].
  rewrite map_tables_list, map_map.
  f_equal.
  assert (H6 : forall d6,
            tables (body (if center_images cfg
                          then center_paragraphs_with_drawings d6 else d6))
            = tables (body d6)).
  { intros d6. destruct (center_images cfg); [|reflexivity].
    unfold center_paragraphs_with_drawings. cbn [body with_body].
    apply map_paragraphs_list. }
  rewrite H6.
  unfold configure_heading_styles. cbn [body with_body].
  rewrite (proj2 (map_paragraphs_list _ _)).
  rewrite Hsty, H1. reflexivity.
Qed.

Lemma map_tables_paragraphs (f : Table -> Table) (b : list Block) :
  paragraphs (map_tables f b) = paragraphs b.
Proof.
  induction b as [|x b IH]; [reflexivity|].
  destruct x; simpl; rewrite ?IH; reflexivity.
Qed.

Lemma uppercase_no_drawing (p : Paragraph) :
  has_drawing (uppercase_heading_runs p) = false.
Proof.
  unfold has_drawing, uppercase_heading_runs. simpl.
  induction (p_runs p) as [|r rs IH]; [reflexivity|].
  simpl. rewrite IH. unfold set_run_text. simpl.
  destruct (truthy (str_upper (run_text r))); reflexivity.
Qed.

(** The passes between [style_all_paragraphs] and the walk keep the style
    reference of a paragraph and give it no drawing. *)
Lemma early_passes_paragraphs (cfg : Config) (d2 : Document) :
  let d3 := configure_heading_styles (h1_caps cfg) (h2_caps cfg) (h3_caps cfg) d2 in
  let d4 := if center_images cfg then center_paragraphs_with_drawings d3 else d3 in
  let d5 := with_body (map_tables prevent_table_row_split_and_repeat_header (body d4)) d4 in
  styles d5 = styles d2
  /\ exists f : Paragraph -> Paragraph,
       paragraphs (body d5) = map f (paragraphs (body d2))
       /\ forall p, p_style (f p) = p_style p
                    /\ (has_drawing p = false -> has_drawing (f p) = false).
Proof.
  cbv zeta. cbn [body with_body]. split.
  { destruct (center_images cfg); reflexivity. }
  rewrite map_tables_paragraphs.
  set (st := styles d2).
  set (f2 := fun p : Paragraph =>
               if heading_map_lookup (h1_caps cfg) (h2_caps cfg) (h3_caps cfg)
                    (default [] (paragraph_style_name st p))
               then with_format (set_first_line_indent (Some (Cm 0)))
                      (with_format (set_alignment (Some LEFT)) (uppercase_heading_runs p))
               else p).
  set (f3 := fun p : Paragraph =>
               if has_drawing p
               then with_format (set_first_line_indent (Some (Cm 0)))
                      (with_format (set_alignment (Some CENTER)) p)
               else p).
  assert (H2 : forall p, p_style (f2 p) = p_style p
                         /\ (has_drawing p = false -> has_drawing (f2 p) = false)).
  { intros p. unfold f2. destruct (heading_map_lookup _ _ _ _); [|tauto].
    split; [reflexivity|]. intros _. apply (uppercase_no_drawing p). }
  assert (H3 : forall p, p_style (f3 p) = p_style p /\ has_drawing (f3 p) = has_drawing p).
  { intros p. unfold f3. destruct (has_drawing p) eqn:E; split;
      try reflexivity; exact E. }
  destruct (center_images cfg).
  - exists (fun p => f3 (f2 p)). split.
    + unfold center_paragraphs_with_drawings, configure_heading_styles.
      cbn [body with_body styles].
      rewrite !(proj1 (map_paragraphs_list _ _)), !map_map. reflexivity.
    + intros p. destruct (H2 p) as [Hc Hd], (H3 (f2 p)) as [He Hf].
      split; [congruence|]. intros Hp. rewrite Hf. apply Hd. exact Hp.
  - exists f2. split.
    + unfold configure_heading_styles. cbn [body with_body styles].
      rewrite !(proj1 (map_paragraphs_list _ _)). reflexivity.
    + exact H2.
Qed.




(** C10, amended.  Two hardenings per table.  When
    [apply_abnt_formatting] returns, every table of the body has gone
    through the hardening twice (once in the loop over [doc.tables], once
    in the walk of [ensure_captions]), and each time new children were
    appended to the row properties: a row ends with two more cannot-split
    children than it had, row 0 also with two more repeat-header
    children, so a row that had none holds exactly two.  Hardening a
    hardened table changes it again. *)
Theorem pipeline_hardens_tables_twice (cfg : Config) (d d' : Document) :
  apply_abnt_formatting cfg d = Ok d' ->
  tables (body d')
  = map (fun t => prevent_table_row_split_and_repeat_header
                    (prevent_table_row_split_and_repeat_header t))
        (tables (body d))
  /\ (forall k t, tables (body d) !! k = Some t ->
        exists t', tables (body d') !! k = Some t'
          /\ length (tbl_rows t') = length (tbl_rows t)
          /\ forall i r, tbl_rows t !! i = Some r ->
               exists r', tbl_rows t' !! i = Some r'
                 /\ row_children r' = row_children r ++ appended_twice i
                 /\ count_child cantSplit r' = count_child cantSplit r + 2
                 /\ count_child tblHeader r'
                    = count_child tblHeader r + (if Nat.eqb i 0 then 2 else 0))
  /\ (forall t, tbl_rows t <> [] ->
        prevent_table_row_split_and_repeat_header
          (prevent_table_row_split_and_repeat_header t)
        <> prevent_table_row_split_and_repeat_header t).
Proof.
  intros Hrun. pose proof (pipeline_tables cfg d d' Hrun) as Htables.
  split; [exact Htables|]. split.
  - intros k t Hk.
    exists (prevent_table_row_split_and_repeat_header
              (prevent_table_row_split_and_repeat_header t)).
    split.
    { rewrite Htables. change (map ?f ?l) with (f <$> l).
      rewrite list_lookup_fmap, Hk. reflexivity. }
    split.
    { rewrite !hardening_rows. simpl. rewrite !length_imap. reflexivity. }
    intros i r Hr.
    destruct (hardened_twice_row t i r Hr) as (r' & Hr' & Hchildren).
    exists r'. split; [exact Hr'|]. split; [exact Hchildren|].
    rewrite !(count_child_app _ r _ _ Hchildren). unfold appended_twice.
    destruct (Nat.eqb i 0); split; reflexivity.
  - intros t Hrows Heq.
    destruct (tbl_rows t) as [|r rows] eqn:Ht; [congruence|].
    assert (Hr : tbl_rows t !! 0 = Some r) by (rewrite Ht; reflexivity).
    destruct (hardened_twice_row t 0 r Hr) as (r' & Hr' & Hchildren).
    rewrite Heq, hardening_row_at, Hr in Hr'. simpl in Hr'.
    injection Hr' as <-. rewrite harden_row_children in Hchildren.
    apply (f_equal length) in Hchildren. rewrite !length_app in Hchildren.
    simpl in Hchildren. lia.
Qed.

End PipelineFacts.

(** C10 as stated (two children of each kind after the pipeline) fails on
    a table whose rows come with the properties already set: its rows
    end with three cannot-split children, row 0 with three repeat-header
    children. *)
Lemma pipeline_hardens_tables_counterexample :
  ~ @two_children_per_row ascii_case default_config hardened_rows_document.
Proof.
  intros Hclaim.
  destruct (Hclaim _ ltac:(vm_compute; reflexivity) 0 _ 0 _ eq_refl eq_refl) as [Hcant _].
  vm_compute in Hcant. discriminate.
Qed.

Lemma pipeline_hardens_tables_witness :
  exists d',
    @apply_abnt_formatting ascii_case default_config text_and_table_document = Ok d'
    /\ exists t', tables (body d') !! 0 = Some t'
         /\ exists r', tbl_rows t' !! 0 = Some r'
              /\ row_children r' = [cantSplit; tblHeader; cantSplit; tblHeader].
Proof.
  eexists. split; [vm_compute; reflexivity|].
  match goal with
  | |- context [tables (body ?d')] =>
      destruct (@pipeline_hardens_tables_twice ascii_case default_config
                  text_and_table_document d' ltac:(vm_compute; reflexivity))
        as (_ & Heach & _)
  end.
  destruct (Heach 0 one_row_table eq_refl) as (t' & Ht' & _ & Hrows).
  destruct (Hrows 0 (mkRow None) eq_refl) as (r' & Hr' & Hchildren & _).
  exists t'. split; [exact Ht'|]. exists r'. split; [exact Hr' | exact Hchildren].
Defined.

(** * Further properties of the code *)

(** ** Blank paragraphs, in general *)

Lemma collapse_blanks_neighbours (flag : bool) (ps : list Paragraph) :
  no_blank_neighbours (collapse_blanks flag ps) = true
  /\ (flag = true ->
      forall y, head (collapse_blanks flag ps) = Some y -> is_blank y = false).
Proof.
  revert flag. induction ps as [|p rest IH]; intros flag.
  - split; [reflexivity | intros _ y Hy; discriminate].
  - simpl. destruct (flag && is_blank p) eqn:Hfp.
    + apply andb_true_iff in Hfp as [-> _]. apply IH.
    + destruct (IH (is_blank p)) as [Hrest Hhead]. split.
      * simpl. rewrite Hrest, andb_true_r.
        destruct (collapse_blanks (is_blank p) rest) as [|q r] eqn:Hc; [reflexivity|].
        destruct (is_blank p) eqn:Hp; [|reflexivity].
        simpl. rewrite (Hhead eq_refl q eq_refl). reflexivity.
      * intros -> y Hy. simpl in Hy. injection Hy as <-. exact Hfp.
Qed.

Lemma collapse_blanks_keeps (flag : bool) (ps : list Paragraph) :
  List.filter (fun p => negb (is_blank p)) (collapse_blanks flag ps)
  = List.filter (fun p => negb (is_blank p)) ps.
Proof.
  revert flag. induction ps as [|p rest IH]; intros flag; [reflexivity|].
  simpl. destruct (flag && is_blank p) eqn:Hfp.
  - apply andb_true_iff in Hfp as [_ Hp]. rewrite Hp. simpl. apply IH.
  - simpl. rewrite IH. reflexivity.
Qed.

Lemma collapse_body_others (flag : bool) (b : list Block) :
  other_blocks (collapse_body flag b) = other_blocks b.
Proof.
  revert flag. induction b as [|x b IH]; intros flag; [reflexivity|].
  destruct x as [p|t|tag c]; simpl.
  - destruct (flag && is_blank p); simpl; apply IH.
  - rewrite IH. reflexivity.
  - rewrite IH. reflexivity.
Qed.

(** A body without blank neighbours is left as it is. *)
Lemma collapse_body_fixed (flag : bool) (b : list Block) :
  no_blank_neighbours (paragraphs b) = true ->
  (flag = true -> forall y, head (paragraphs b) = Some y -> is_blank y = false) ->
  collapse_body flag b = b.
Proof.
  revert flag. induction b as [|x b IH]; intros flag Hno Hhead; [reflexivity|].
  destruct x as [p|t|tag c]; simpl in *.
  - assert (Hfp : flag && is_blank p = false).
    { destruct flag; [|reflexivity]. simpl. apply (Hhead eq_refl p eq_refl). }
    rewrite Hfp. f_equal.
    apply andb_true_iff in Hno as [Hpq Hrest].
    apply IH; [exact Hrest|].
    intros Hp y Hy. destruct (paragraphs b) as [|q r]; [discriminate|].
    simpl in Hy. injection Hy as <-. rewrite Hp in Hpq. simpl in Hpq.
    apply negb_true_iff in Hpq. exact Hpq.
  - f_equal. apply IH; assumption.
  - f_equal. apply IH; assumption.
Qed.

Lemma no_blank_neighbours_after (d : Document) :
  no_blank_neighbours (paragraphs (body (remove_extra_blank_lines d))) = true.
Proof.
  rewrite remove_extra_blank_lines_collapse. simpl.
  rewrite (proj1 (collapse_body_paragraphs false (body d))).
  apply collapse_blanks_neighbours.
Qed.

Lemma no_more_paragraphs_after (d : Document) :
  length (paragraphs (body (remove_extra_blank_lines d))) <= length (paragraphs (body d)).
Proof.
  rewrite remove_extra_blank_lines_collapse. simpl.
  rewrite (proj1 (collapse_body_paragraphs false (body d))).
  generalize false. induction (paragraphs (body d)) as [|p rest IH]; intros flag;
    [reflexivity|].
  simpl. destruct (flag && is_blank p); simpl.
  - specialize (IH true). lia.
  - specialize (IH (is_blank p)). lia.
Qed.

(** X1.  After [remove_extra_blank_lines], whatever the document, no two
    neighbours in [doc.paragraphs] are both blank, and the paragraphs are
    at most as many as before. *)
Theorem no_blank_neighbours_left (d : Document) :
  no_blank_neighbours (paragraphs (body (remove_extra_blank_lines d))) = true
  /\ length (paragraphs (body (remove_extra_blank_lines d)))
     <= length (paragraphs (body d)).
Proof.
  split; [apply no_blank_neighbours_after | apply no_more_paragraphs_after].
Qed.

(** X2.  [remove_extra_blank_lines] deletes blank paragraphs only: the
    paragraphs that are not blank are all kept, in their order; so are the
    tables and the other blocks of the body; footers and styles are not
    touched. *)
Theorem only_blank_paragraphs_deleted (d : Document) :
  List.filter (fun p => negb (is_blank p)) (paragraphs (body (remove_extra_blank_lines d)))
  = List.filter (fun p => negb (is_blank p)) (paragraphs (body d))
  /\ other_blocks (body (remove_extra_blank_lines d)) = other_blocks (body d)
  /\ footers (remove_extra_blank_lines d) = footers d
  /\ styles (remove_extra_blank_lines d) = styles d.
Proof.
  rewrite remove_extra_blank_lines_collapse. simpl.
  rewrite (proj1 (collapse_body_paragraphs false (body d))).
  rewrite collapse_blanks_keeps, collapse_body_others. repeat split.
Qed.

(** X3.  [remove_extra_blank_lines] is idempotent: a second run finds
    nothing to delete. *)
Theorem remove_extra_blank_lines_idempotent (d : Document) :
  remove_extra_blank_lines (remove_extra_blank_lines d) = remove_extra_blank_lines d.
Proof.
  rewrite !remove_extra_blank_lines_collapse.
  destruct d as [secs ftrs st b]. unfold with_body. simpl. f_equal.
  apply collapse_body_fixed; [|discriminate].
  rewrite (proj1 (collapse_body_paragraphs false b)).
  apply collapse_blanks_neighbours.
Qed.

(** The test [not p.text.strip()] holds exactly of the texts made of
    whitespace (the empty text among them). *)
Lemma lstrip_blank (s : text) : lstrip s = [] <-> forallb isspace s = true.
Proof.
  induction s as [|c s IH]; simpl; [tauto|].
  destruct (isspace c); simpl; [exact IH|]. split; discriminate.
Qed.

Lemma rstrip_blank (s : text) : rstrip s = [] <-> forallb isspace s = true.
Proof.
  induction s as [|c s IH]; simpl; [tauto|].
  destruct (rstrip s) as [|r rs].
  - destruct (isspace c); simpl; [|split; discriminate].
    split; intros _; [apply IH|]; reflexivity.
  - split; [discriminate|]. intros Hc. apply andb_true_iff in Hc as [_ Hs].
    apply IH in Hs. discriminate.
Qed.

Lemma lstrip_suffix (s : text) : exists pre, s = pre ++ lstrip s /\ forallb isspace pre = true.
Proof.
  induction s as [|c s (pre & Hs & Hpre)]; [exists []; split; reflexivity|].
  simpl. destruct (isspace c) eqn:Hc.
  - exists (c :: pre). split; [simpl; f_equal; exact Hs|]. simpl. rewrite Hc. exact Hpre.
  - exists []. split; reflexivity.
Qed.

(** X4.  A paragraph counts as blank exactly when every character of its
    text is whitespace. *)
Theorem blank_is_all_whitespace (p : Paragraph) :
  is_blank p = forallb isspace (paragraph_text p).
Proof.
  unfold is_blank, strip.
  destruct (lstrip_suffix (paragraph_text p)) as (pre & Hs & Hpre).
  destruct (forallb isspace (paragraph_text p)) eqn:Hall.
  - apply lstrip_blank in Hall. rewrite Hall. reflexivity.
  - assert (Hl : forallb isspace (lstrip (paragraph_text p)) = false).
    { rewrite Hs in Hall. rewrite forallb_app, Hpre in Hall. exact Hall. }
    destruct (rstrip (lstrip (paragraph_text p))) eqn:Hr; [|reflexivity].
    apply rstrip_blank in Hr. congruence.
Qed.

(** ** The marker scans, in general *)

Lemma for_paragraphs_skeleton {S} (f : S -> Paragraph -> result (S * Paragraph)) :
  forall b s s' b', for_paragraphs f s b = Ok (s', b') -> skeleton b' = skeleton b.
Proof.
  induction b as [|x b IH]; intros s s' b' Hrun; simpl in Hrun.
  - injection Hrun as <- <-. reflexivity.
  - destruct x as [p|t|tag c].
    + destruct (f s p) as [[s1 p']|e]; simpl in Hrun; [|discriminate].
      destruct (for_paragraphs f s1 b) as [[s2 rest']|e] eqn:Hrest;
        simpl in Hrun; [|discriminate].
      injection Hrun as <- <-. simpl. f_equal. apply (IH _ _ _ Hrest).
    + destruct (for_paragraphs f s b) as [[s2 rest']|e] eqn:Hrest;
        simpl in Hrun; [|discriminate].
      injection Hrun as <- <-. simpl. f_equal. apply (IH _ _ _ Hrest).
    + destruct (for_paragraphs f s b) as [[s2 rest']|e] eqn:Hrest;
        simpl in Hrun; [|discriminate].
      injection Hrun as <- <-. simpl. f_equal. apply (IH _ _ _ Hrest).
Qed.

Lemma scan_paragraphs_skeleton {S} (f : S -> Paragraph -> S * Paragraph) :
  forall b s, skeleton (snd (scan_paragraphs f s b)) = skeleton b.
Proof.
  induction b as [|x b IH]; intros s; [reflexivity|].
  destruct x as [p|t|tag c]; simpl.
  - destruct (f s p) as [s1 p']. specialize (IH s1).
    destruct (scan_paragraphs f s1 b) as [s2 rest']. simpl in *. f_equal. exact IH.
  - specialize (IH s). destruct (scan_paragraphs f s b) as [s2 rest'].
    simpl in *. f_equal. exact IH.
  - specialize (IH s). destruct (scan_paragraphs f s b) as [s2 rest'].
    simpl in *. f_equal. exact IH.
Qed.

Lemma for_paragraphs_app {S} (f : S -> Paragraph -> result (S * Paragraph)) :
  forall b1 b2 s,
    for_paragraphs f s (b1 ++ b2)
    = '(s1, b1') ← for_paragraphs f s b1;
      '(s2, b2') ← for_paragraphs f s1 b2;
      Ok (s2, b1' ++ b2').
Proof.
  induction b1 as [|x b1 IH]; intros b2 s.
  - simpl. destruct (for_paragraphs f s b2) as [[s2 b2']|e]; reflexivity.
  - destruct x as [p|t|tag c]; simpl.
    + destruct (f s p) as [[s1 p']|e]; simpl; [|reflexivity].
      rewrite IH. destruct (for_paragraphs f s1 b1) as [[s2 b1']|e]; simpl; [|reflexivity].
      destruct (for_paragraphs f s2 b2) as [[s3 b2']|e]; reflexivity.
    + rewrite IH. destruct (for_paragraphs f s b1) as [[s2 b1']|e]; simpl; [|reflexivity].
      destruct (for_paragraphs f s2 b2) as [[s3 b2']|e]; reflexivity.
    + rewrite IH. destruct (for_paragraphs f s b1) as [[s2 b1']|e]; simpl; [|reflexivity].
      destruct (for_paragraphs f s2 b2) as [[s3 b2']|e]; reflexivity.
Qed.

(** What the long-quotation style does when it returns. *)
Lemma apply_long_quote_style_ok (st st' : list Style) (p p' : Paragraph) :
  apply_long_quote_style st p = Ok (st', p') ->
  evolves st st' /\ p_style p' = p_style p /\ p_runs p' = p_runs p.
Proof.
  intros Hrun. destruct (paragraph_style st p) as [k|] eqn:Hk.
  - destruct (apply_long_quote_style_spec st p ltac:(eexists; exact Hk))
      as (st2 & p2 & Hrun2 & Hev & Hs & Hr & _).
    rewrite Hrun in Hrun2. injection Hrun2 as <- <-.
    split; [exact Hev|]. split; [exact Hs | exact Hr].
  - unfold apply_long_quote_style in Hrun.
    change (paragraph_style st _) with (paragraph_style st p) in Hrun.
    rewrite Hk in Hrun. discriminate.
Qed.

Lemma set_paragraph_text_runs (s : text) (p : Paragraph) :
  has_drawing (set_paragraph_text s p) = false
  /\ length (p_runs (set_paragraph_text s p)) = 1.
Proof.
  unfold set_paragraph_text, set_run_text, has_drawing. simpl.
  destruct (truthy s); split; reflexivity.
Qed.

(** One turn of the long-quotation scan that returns. *)
Lemma long_quote_step_ok (s s1 : QuoteScan) (p p1 : Paragraph) :
  long_quote_step s p = Ok (s1, p1) ->
  p_style p1 = p_style p
  /\ evolves (scan_styles s) (scan_styles s1)
  /\ in_block s1 = flag_step LongQuote (in_block s) p
  /\ changed s1 = changed s + (if styled_here LongQuote (in_block s) p then 1 else 0)
  /\ (holds_token LongQuote p = true ->
      has_drawing p1 = false /\ length (p_runs p1) = 1)
  /\ (styled_here LongQuote (in_block s) p = false -> p1 = p /\ s1 = s).
Proof.
  unfold long_quote_step, flag_step, styled_here, holds_token.
  cbn [open_token close_token]. intros Hrun.
  destruct (contains OPEN_LONG_QUOTE (paragraph_text p)) eqn:Hopen.
  { destruct (apply_long_quote_style _ _) as [[st' p']|e] eqn:Hst;
      simpl in Hrun; [|discriminate].
    injection Hrun as <- <-. apply apply_long_quote_style_ok in Hst as (Hev & Hs & Hr).
    simpl. split; [exact Hs|]. split; [exact Hev|]. split; [reflexivity|].
    split; [reflexivity|]. split; [|discriminate].
    intros _. unfold has_drawing. rewrite Hr. apply set_paragraph_text_runs. }
  destruct (contains CLOSE_LONG_QUOTE (paragraph_text p)) eqn:Hclose.
  { destruct (apply_long_quote_style _ _) as [[st' p']|e] eqn:Hst;
      simpl in Hrun; [|discriminate].
    injection Hrun as <- <-. apply apply_long_quote_style_ok in Hst as (Hev & Hs & Hr).
    simpl. split; [exact Hs|]. split; [exact Hev|]. split; [reflexivity|].
    split; [reflexivity|]. split; [|discriminate].
    intros _. unfold has_drawing. rewrite Hr. apply set_paragraph_text_runs. }
  destruct (in_block s) eqn:Hin.
  { destruct (apply_long_quote_style _ _) as [[st' p']|e] eqn:Hst;
      simpl in Hrun; [|discriminate].
    injection Hrun as <- <-. apply apply_long_quote_style_ok in Hst as (Hev & Hs & Hr).
    simpl. split; [exact Hs|]. split; [exact Hev|]. split; [reflexivity|].
    split; [reflexivity|]. split; discriminate. }
  injection Hrun as <- <-. simpl.
  split; [reflexivity|]. split; [apply evolves_refl|]. split; [exact Hin|].
  split; [lia|]. split; [discriminate|]. intros _. split; reflexivity.
Qed.

Lemma references_step_ok (hanging : Z) (spacing : LineSpacing) (gap : Z)
    (flag : bool) (n : nat) (p : Paragraph) :
  exists p1,
    references_step hanging spacing gap (flag, n) p
    = ((flag_step (References hanging spacing gap) flag p,
        n + (if styled_here (References hanging spacing gap) flag p then 1 else 0)), p1)
    /\ p_style p1 = p_style p
    /\ (holds_token (References hanging spacing gap) p = true ->
        has_drawing p1 = false /\ length (p_runs p1) = 1)
    /\ (styled_here (References hanging spacing gap) flag p = false -> p1 = p).
Proof.
  unfold references_step, flag_step, styled_here, holds_token.
  cbn [open_token close_token].
  destruct (contains OPEN_REFS (paragraph_text p)) eqn:Hopen.
  { simpl. eexists. split; [reflexivity|]. split; [reflexivity|].
    split; [|discriminate]. intros _.
    exact (set_paragraph_text_runs (replace OPEN_REFS [] (paragraph_text p)) p). }
  destruct (contains CLOSE_REFS (paragraph_text p)) eqn:Hclose.
  { simpl. eexists. split; [reflexivity|]. split; [reflexivity|].
    split; [|discriminate]. intros _.
    exact (set_paragraph_text_runs (replace CLOSE_REFS [] (paragraph_text p)) p). }
  destruct flag; simpl.
  - eexists. split; [reflexivity|]. split; [reflexivity|]. split; discriminate.
  - rewrite Nat.add_0_r. eexists. split; [reflexivity|]. split; [reflexivity|].
    split; [discriminate|]. reflexivity.
Qed.

Lemma long_quote_list_ok :
  forall (ps : list Paragraph) (s s' : QuoteScan) (ps' : list Paragraph),
    for_list long_quote_step s ps = Ok (s', ps') ->
    changed s' = changed s + count_styled LongQuote (in_block s) ps
    /\ evolves (scan_styles s) (scan_styles s')
    /\ Forall2 (scan_keeps LongQuote) ps ps'.
Proof.
  induction ps as [|p rest IH]; intros s s' ps' Hrun; simpl in Hrun.
  - injection Hrun as <- <-. simpl. split; [lia|]. split; [apply evolves_refl|constructor].
  - destruct (long_quote_step s p) as [[s1 p1]|e] eqn:Hstep; simpl in Hrun; [|discriminate].
    destruct (for_list long_quote_step s1 rest) as [[s2 rest']|e] eqn:Hrest;
      simpl in Hrun; [|discriminate].
    injection Hrun as <- <-.
    apply long_quote_step_ok in Hstep as (Hs & Hev & Hfl & Hch & Hdraw & _).
    destruct (IH _ _ _ Hrest) as (Hcount & Hev2 & Hall).
    split; [simpl; rewrite <- Hfl; lia|].
    split; [eapply evolves_trans; eassumption|].
    constructor; [split; assumption | exact Hall].
Qed.

Lemma references_list_ok (hanging : Z) (spacing : LineSpacing) (gap : Z) :
  forall (ps : list Paragraph) (flag : bool) (n : nat),
    snd (fst (scan_list (references_step hanging spacing gap) (flag, n) ps))
    = n + count_styled (References hanging spacing gap) flag ps
    /\ Forall2 (scan_keeps (References hanging spacing gap)) ps
         (snd (scan_list (references_step hanging spacing gap) (flag, n) ps)).
Proof.
  induction ps as [|p rest IH]; intros flag n.
  - simpl. split; [lia | constructor].
  - destruct (references_step_ok hanging spacing gap flag n p)
      as (p1 & Hstep & Hs & Hdraw & _).
    cbn [scan_list]. rewrite Hstep.
    specialize (IH (flag_step (References hanging spacing gap) flag p)
                  (n + (if styled_here (References hanging spacing gap) flag p
                        then 1 else 0))).
    destruct (scan_list _ _ rest) as [[flag' n'] rest'] eqn:Hrest.
    simpl in *. destruct IH as [Hcount Hall]. split; [lia|].
    constructor; [split; assumption | exact Hall].
Qed.

(** A marker pass that returns, seen from the document. *)
Lemma region_pass_ok (k : RegionKind) (d d' : Document) (n : nat) :
  region_pass k d = Ok (n, d') ->
  n = count_styled k false (paragraphs (body d))
  /\ registry_effect k (styles d) (styles d')
  /\ Forall2 (scan_keeps k) (paragraphs (body d)) (paragraphs (body d'))
  /\ skeleton (body d') = skeleton (body d)
  /\ sections d' = sections d /\ footers d' = footers d.
Proof.
  destruct k as [|hanging spacing gap]; simpl.
  - unfold process_long_quote_markers.
    destruct (for_paragraphs long_quote_step _ (body d)) as [[s b]|e] eqn:Hrun;
      simpl; [|discriminate].
    intros Hd. injection Hd as <- <-. simpl.
    pose proof (for_paragraphs_skeleton _ _ _ _ _ Hrun) as Hsk.
    apply for_paragraphs_list in Hrun as [Hl _].
    apply long_quote_list_ok in Hl as (Hcount & Hev & Hall).
    simpl in Hcount. split; [exact Hcount|]. split; [exact Hev|].
    split; [exact Hall|]. split; [exact Hsk|]. split; reflexivity.
  - unfold apply_references_block_format.
    pose proof (scan_paragraphs_list (references_step hanging spacing gap) (body d) (false, 0))
      as [Hl _].
    pose proof (scan_paragraphs_skeleton (references_step hanging spacing gap)
                  (body d) (false, 0)) as Hsk.
    destruct (references_list_ok hanging spacing gap (paragraphs (body d)) false 0)
      as [Hcount Hall].
    rewrite Hl in Hcount, Hall.
    destruct (scan_paragraphs _ _ (body d)) as [s b] eqn:Hb. simpl in *.
    intros Hd. injection Hd as <- <-. simpl. split; [lia|]. split; [reflexivity|].
    split; [exact Hall|]. split; [exact Hsk|]. split; reflexivity.
Qed.

Lemma count_styled_bound (k : RegionKind) (flag : bool) (ps : list Paragraph) :
  count_styled k flag ps <= length ps.
Proof.
  revert flag. induction ps as [|p rest IH]; intros flag; simpl; [lia|].
  specialize (IH (flag_step k flag p)).
  destruct (styled_here k flag p); lia.
Qed.

(** X5.  The number a marker pass returns (either pass) is the number of
    paragraphs it has styled: those that hold a token and those reached
    with the flag up; it never exceeds the number of paragraphs. *)
Theorem region_pass_count (k : RegionKind) (d d' : Document) (n : nat) :
  region_pass k d = Ok (n, d') ->
  n = count_styled k false (paragraphs (body d))
  /\ n <= length (paragraphs (body d)).
Proof.
  intros Hrun. apply region_pass_ok in Hrun as (-> & _).
  split; [reflexivity | apply count_styled_bound].
Qed.

Lemma region_pass_count_witness :
  3 = count_styled LongQuote false (paragraphs (body both_tokens_document))
  /\ 3 <= length (paragraphs (body both_tokens_document)).
Proof.
  eapply (region_pass_count LongQuote both_tokens_document _ 3).
  vm_compute. reflexivity.
Defined.

(** X6.  A marker pass (either pass) adds, removes and moves nothing:
    the tables and the other blocks of the body stay where they are and
    as they are, every paragraph keeps its place and its style reference,
    sections and footers are not touched; the reference pass leaves the
    style registry alone and the long-quotation pass only sets font sizes
    to 10 pt in it. *)
Theorem region_pass_keeps_structure (k : RegionKind) (d d' : Document) (n : nat) :
  region_pass k d = Ok (n, d') ->
  skeleton (body d') = skeleton (body d)
  /\ map p_style (paragraphs (body d')) = map p_style (paragraphs (body d))
  /\ sections d' = sections d
  /\ footers d' = footers d
  /\ registry_effect k (styles d) (styles d').
Proof.
  intros Hrun. apply region_pass_ok in Hrun as (_ & Hreg & Hall & Hsk & Hsec & Hft).
  split; [exact Hsk|]. split; [|split; [exact Hsec|]; split; [exact Hft | exact Hreg]].
  induction Hall as [|p p' ps ps' [Hs _] _ IH]; [reflexivity|].
  simpl. rewrite Hs, IH. reflexivity.
Qed.

Lemma region_pass_keeps_structure_witness :
  exists n d',
    region_pass (References Cm_1_25 single_spacing (Pt 6)) stray_close_document = Ok (n, d')
    /\ skeleton (body d') = skeleton (body stray_close_document)
    /\ styles d' = styles stray_close_document.
Proof.
  eexists _, _. split; [vm_compute; reflexivity|].
  match goal with
  | |- skeleton (body ?d') = _ /\ _ =>
      destruct (region_pass_keeps_structure (References Cm_1_25 single_spacing (Pt 6))
                  stray_close_document d' 1 ltac:(vm_compute; reflexivity))
        as (Hsk & _ & _ & _ & Hreg)
  end.
  split; [exact Hsk | exact Hreg].
Defined.

(** X7.  A paragraph that holds a marker is rewritten as one run of text:
    whatever else it held, pictures included, is gone after the pass
    (either pass). *)
Theorem marked_paragraph_loses_pictures
    (k : RegionKind) (d d' : Document) (n j : nat) (p : Paragraph) :
  region_pass k d = Ok (n, d') ->
  paragraphs (body d) !! j = Some p ->
  holds_token k p = true ->
  exists p', paragraphs (body d') !! j = Some p'
    /\ has_drawing p' = false /\ length (p_runs p') = 1.
Proof.
  intros Hrun Hj Htok. apply region_pass_ok in Hrun as (_ & _ & Hall & _).
  destruct (Forall2_lookup_l _ _ _ _ _ Hall Hj) as (p' & Hp' & _ & Hdraw).
  exists p'. split; [exact Hp' | apply Hdraw, Htok].
Qed.

Lemma marked_paragraph_loses_pictures_witness :
  has_drawing picture_with_marker = true
  /\ exists d' p',
       region_pass (References Cm_1_25 single_spacing (Pt 6)) picture_with_marker_document
       = Ok (1, d')
       /\ paragraphs (body d') !! 0 = Some p'
       /\ has_drawing p' = false /\ length (p_runs p') = 1.
Proof.
  split; [reflexivity|]. eexists. 
  match goal with
  | |- exists p', ?r = Ok (1, ?d') /\ _ =>
      assert (Hrun : r = Ok (1, d')) by (vm_compute; reflexivity)
  end.
  destruct (marked_paragraph_loses_pictures _ _ _ _ 0 picture_with_marker Hrun eq_refl)
    as (p' & Hp' & Hdraw); [reflexivity|].
  exists p'. split; [exact Hrun|]. split; [exact Hp' | exact Hdraw].
Defined.

Lemma for_paragraphs_raises {S} (f : S -> Paragraph -> result (S * Paragraph)) :
  forall b s e,
    for_list f s (paragraphs b) = Raise e -> for_paragraphs f s b = Raise e.
Proof.
  induction b as [|x b IH]; intros s e Hrun; simpl in Hrun; [discriminate|].
  destruct x as [p|t|tag c]; simpl in *.
  - destruct (f s p) as [[s1 p']|e1]; simpl in *; [|congruence].
    destruct (for_list f s1 (paragraphs b)) as [[s2 ps']|e2] eqn:Hrest;
      simpl in Hrun; [discriminate|].
    rewrite (IH _ _ Hrest). simpl. congruence.
  - rewrite (IH _ _ Hrun). reflexivity.
  - rewrite (IH _ _ Hrun). reflexivity.
Qed.

(** A turn of the long-quotation scan at a paragraph without a token,
    reached with the flag down, does nothing. *)
Lemma long_quote_step_quiet (s : QuoteScan) (p : Paragraph) :
  styled_here LongQuote (in_block s) p = false -> long_quote_step s p = Ok (s, p).
Proof.
  unfold styled_here, long_quote_step. cbn [open_token close_token]. intros Hq.
  apply orb_false_iff in Hq as [Hq Hin]. apply orb_false_iff in Hq as [Hopen Hclose].
  rewrite Hopen, Hclose, Hin. reflexivity.
Qed.

(** The only exception a turn of the long-quotation scan raises. *)
Lemma long_quote_step_raises (s : QuoteScan) (p : Paragraph) (e : exn) :
  long_quote_step s p = Raise e -> e = AttributeError.
Proof.
  unfold long_quote_step, apply_long_quote_style.
  repeat match goal with
         | |- context [if ?c then _ else _] => destruct c
         | |- context [match paragraph_style ?st ?q with _ => _ end] =>
             destruct (paragraph_style st q)
         end; simpl; intros Hrun; congruence.
Qed.

(** A turn at a paragraph that is to be styled and resolves to no style. *)
Lemma long_quote_step_no_style (s : QuoteScan) (p : Paragraph) :
  styled_here LongQuote (in_block s) p = true ->
  paragraph_style (scan_styles s) p = None ->
  long_quote_step s p = Raise AttributeError.
Proof.
  unfold styled_here, long_quote_step, apply_long_quote_style.
  cbn [open_token close_token]. intros Hst Hnone.
  destruct (contains OPEN_LONG_QUOTE (paragraph_text p)).
  { change (paragraph_style (scan_styles s) _) with (paragraph_style (scan_styles s) p).
    rewrite Hnone. reflexivity. }
  destruct (contains CLOSE_LONG_QUOTE (paragraph_text p)).
  { change (paragraph_style (scan_styles s) _) with (paragraph_style (scan_styles s) p).
    rewrite Hnone. reflexivity. }
  simpl in Hst. rewrite Hst.
  change (paragraph_style (scan_styles s) _) with (paragraph_style (scan_styles s) p).
  rewrite Hnone. reflexivity.
Qed.

Lemma long_quote_list_no_style :
  forall (ps : list Paragraph) (s : QuoteScan) (j : nat) (p : Paragraph),
    ps !! j = Some p ->
    styled_here LongQuote (foldl (flag_step LongQuote) (in_block s) (take j ps)) p = true ->
    paragraph_style (scan_styles s) p = None ->
    for_list long_quote_step s ps = Raise AttributeError.
Proof.
  induction ps as [|q rest IH]; intros s j p Hj Hst Hnone; [discriminate|].
  destruct j as [|j].
  - injection Hj as ->. simpl in Hst. cbn [for_list].
    rewrite (long_quote_step_no_style s p Hst Hnone). reflexivity.
  - cbn [for_list]. destruct (long_quote_step s q) as [[s1 q1]|e] eqn:Hstep.
    + apply long_quote_step_ok in Hstep as (_ & Hev & Hfl & _).
      cbn [mbind result_bind]. rewrite (IH s1 j p).
      * reflexivity.
      * exact Hj.
      * rewrite Hfl. exact Hst.
      * rewrite <- (paragraph_style_keys _ _ p (evolves_keys _ _ Hev)). exact Hnone.
    + apply long_quote_step_raises in Hstep as ->. reflexivity.
Qed.

(** X8.  On a document without a marker a marker pass (either pass)
    returns 0 and the document as it was, whatever its styles are. *)
Theorem marker_free_document_unchanged (k : RegionKind) (d : Document) :
  Forall (fun p => holds_token k p = false) (paragraphs (body d)) ->
  region_pass k d = Ok (0, d).
Proof.
  intros Hfree. destruct d as [secs fts st b]. simpl in Hfree.
  destruct k as [|hanging spacing gap]; simpl.
  - unfold process_long_quote_markers. cbn [styles body sections footers].
    assert (Hrun : forall s, in_block s = false ->
              for_paragraphs long_quote_step s b = Ok (s, b)).
    { induction b as [|x b IH]; intros s Hin; [reflexivity|].
      destruct x as [p|t|tag c]; simpl in *.
      - apply Forall_cons in Hfree as [Hp Hrest].
        rewrite long_quote_step_quiet
          by (unfold styled_here; unfold holds_token in Hp; rewrite Hp, Hin; reflexivity).
        simpl. rewrite (IH Hrest s Hin). reflexivity.
      - rewrite (IH Hfree s Hin). reflexivity.
      - rewrite (IH Hfree s Hin). reflexivity. }
    rewrite (Hrun (mkQuoteScan false 0 st) eq_refl). reflexivity.
  - unfold apply_references_block_format. cbn [body].
    assert (Hrun : forall n,
              scan_paragraphs (references_step hanging spacing gap) (false, n) b
              = ((false, n), b)).
    { induction b as [|x b IH]; intros n; [reflexivity|].
      destruct x as [p|t|tag c]; simpl in Hfree; cbn [scan_paragraphs].
      - apply Forall_cons in Hfree as [Hp Hrest].
        destruct (references_step_ok hanging spacing gap false n p)
          as (p1 & Hstep & _ & _ & Hsame).
        assert (Hq : styled_here (References hanging spacing gap) false p = false)
          by (unfold styled_here; unfold holds_token in Hp; rewrite Hp; reflexivity).
        rewrite Hstep, Hq, (Hsame Hq), Nat.add_0_r.
        assert (Hfl : flag_step (References hanging spacing gap) false p = false).
        { unfold flag_step. unfold holds_token in Hp.
          apply orb_false_iff in Hp as [-> ->]. reflexivity. }
        rewrite Hfl, (IH Hrest n). reflexivity.
      - rewrite (IH Hfree n). reflexivity.
      - rewrite (IH Hfree n). reflexivity. }
    rewrite (Hrun 0). reflexivity.
Qed.

Lemma marker_free_document_witness :
  region_pass LongQuote marker_free_document = Ok (0, marker_free_document).
Proof.
  apply (marker_free_document_unchanged LongQuote marker_free_document).
  repeat constructor.
Defined.

(** X9.  The long-quotation pass raises [AttributeError] as soon as a
    paragraph it has to style (one that holds a token, or one reached
    with the flag up) resolves to no style object: the font size is
    assigned through [paragraph.style]. *)
Theorem long_quote_without_style_raises (d : Document) (j : nat) (p : Paragraph) :
  paragraphs (body d) !! j = Some p ->
  styled_here LongQuote (flag_after LongQuote (take j (paragraphs (body d)))) p = true ->
  paragraph_style (styles d) p = None ->
  process_long_quote_markers d = Raise AttributeError.
Proof.
  intros Hj Hst Hnone. unfold process_long_quote_markers.
  rewrite (for_paragraphs_raises long_quote_step (body d) _ AttributeError);
    [reflexivity|].
  apply (long_quote_list_no_style _ _ j p Hj); [exact Hst | exact Hnone].
Qed.

Lemma long_quote_without_style_witness :
  process_long_quote_markers styleless_document = Raise AttributeError.
Proof.
  apply (long_quote_without_style_raises styleless_document 1
           (plain None (OPEN_LONG_QUOTE ++ str "quoted")));
    reflexivity.
Defined.

(** ** The structural walk, in general *)

(** The body a walk leaves when it returns. *)
Lemma captions_walk_body (add_fig add_tab : bool) :
  forall (pending before : list Block) (fig_n tab_n : nat) (b' : list Block),
    captions_walk add_fig add_tab fig_n tab_n before pending = Ok b' ->
    b' = before
         ++ (if add_tab then flat_map wrap_table pending
             else map_tables prevent_table_row_split_and_repeat_header pending).
Proof.
  induction pending as [|x pending IH]; intros before fig_n tab_n b' Hrun.
  - simpl in Hrun. injection Hrun as <-. destruct add_tab; simpl; rewrite app_nil_r;
      reflexivity.
  - destruct x as [p|t|tag c]; cbn [captions_walk] in Hrun.
    + destruct (has_drawing p && add_fig).
      * rewrite add_caption_raises in Hrun. discriminate.
      * rewrite (IH _ _ _ _ Hrun), <- app_assoc. destruct add_tab; reflexivity.
    + destruct add_tab.
      * destruct (paragraphs (before ++ BTable _ :: pending)) as [|first_p ps];
          [discriminate|].
        rewrite (IH _ _ _ _ Hrun), <- app_assoc. reflexivity.
      * rewrite (IH _ _ _ _ Hrun), <- app_assoc. reflexivity.
    + rewrite (IH _ _ _ _ Hrun), <- app_assoc. destruct add_tab; reflexivity.
Qed.

(** With figure captions asked for, a picture in the pending chain makes
    the walk raise. *)
Lemma captions_walk_picture (add_tab : bool) :
  forall (pending before : list Block) (fig_n tab_n : nat),
    Exists (fun p => has_drawing p = true) (paragraphs pending) ->
    captions_walk true add_tab fig_n tab_n before pending = Raise AttributeError.
Proof.
  induction pending as [|x pending IH]; intros before fig_n tab_n Hpic.
  - simpl in Hpic. inversion Hpic.
  - destruct x as [p|t|tag c]; cbn [captions_walk]; simpl in Hpic.
    + destruct (has_drawing p) eqn:Hp.
      * reflexivity.
      * simpl. apply IH. apply Exists_cons in Hpic as [Hhere | Hrest];
          [congruence | exact Hrest].
    + destruct add_tab; [|apply IH; exact Hpic].
      destruct (paragraphs (before ++ BTable _ :: pending)) as [|first_p ps] eqn:Hps.
      * rewrite paragraphs_app in Hps. apply app_eq_nil in Hps as [_ Hps].
        simpl in Hps. rewrite Hps in Hpic. inversion Hpic.
      * apply IH. exact Hpic.
    + apply IH. exact Hpic.
Qed.

(** With table captions asked for, a table in the pending chain of a body
    without a paragraph makes the walk raise. *)
Lemma captions_walk_no_paragraph (add_fig : bool) :
  forall (pending before : list Block) (fig_n tab_n : nat),
    paragraphs (before ++ pending) = [] ->
    tables pending <> [] ->
    captions_walk add_fig true fig_n tab_n before pending = Raise IndexError.
Proof.
  induction pending as [|x pending IH]; intros before fig_n tab_n Hnone Htab.
  - exfalso. apply Htab. reflexivity.
  - destruct x as [p|t|tag c]; cbn [captions_walk].
    + rewrite paragraphs_app in Hnone. apply app_eq_nil in Hnone as [_ Hnone].
      discriminate.
    + assert (Hps : paragraphs (before ++ BTable (prevent_table_row_split_and_repeat_header t)
                                  :: pending) = []).
      { rewrite paragraphs_app in *. exact Hnone. }
      rewrite Hps. reflexivity.
    + apply IH.
      * rewrite <- app_assoc. exact Hnone.
      * exact Htab.
Qed.

(** X10.  With both caption flags off, [ensure_captions] always returns,
    and all it has done is harden every table of the body, in place. *)
Theorem captions_off_only_hardens (d : Document) :
  ensure_captions false false d
  = Ok (with_body (map_tables prevent_table_row_split_and_repeat_header (body d)) d).
Proof.
  unfold ensure_captions.
  destruct (captions_walk_returns false false (body d) [] 0 0) as [b' Hwalk];
    [discriminate | discriminate |].
  rewrite Hwalk. rewrite (captions_walk_body _ _ _ _ _ _ _ Hwalk). reflexivity.
Qed.

(** X11.  With figure captions asked for, [ensure_captions] raises
    [AttributeError] on every document that holds a picture in a body
    paragraph, whatever else the body holds and whatever the other flag:
    the caption is to be inserted by [insert_paragraph_after], which a
    paragraph does not offer. *)
Theorem figure_caption_raises (add_tab_captions : bool) (d : Document) :
  Exists (fun p => has_drawing p = true) (paragraphs (body d)) ->
  ensure_captions true add_tab_captions d = Raise AttributeError.
Proof.
  intros Hpic. unfold ensure_captions.
  rewrite (captions_walk_picture add_tab_captions (body d) [] 0 0 Hpic). reflexivity.
Qed.

Lemma figure_caption_raises_witness :
  ensure_captions true false blank_then_picture_document = Raise AttributeError.
Proof.
  apply (figure_caption_raises false blank_then_picture_document).
  apply Exists_cons_tl, Exists_cons_tl, Exists_cons_hd. reflexivity.
Defined.

(** X12.  With table captions asked for, a walk that returns has put,
    above and below every table of the body, an element tagged with the
    name of the paragraph class and holding the text [w:p], and has
    hardened the table; nothing else in the document has changed, and no
    title or source text is anywhere. *)
Theorem table_captions_are_class_named_elements
    (add_fig_captions : bool) (d d' : Document) :
  ensure_captions add_fig_captions true d = Ok d' ->
  d' = with_body (flat_map wrap_table (body d)) d
  /\ paragraphs (body d') = paragraphs (body d).
Proof.
  intros Hrun. pose proof (ensure_captions_effect _ _ _ _ Hrun) as (_ & Hps & _).
  split; [|exact Hps].
  unfold ensure_captions in Hrun.
  destruct (captions_walk add_fig_captions true 0 0 [] (body d)) as [b'|e] eqn:Hwalk;
    [|discriminate].
  injection Hrun as <-. rewrite (captions_walk_body _ _ _ _ _ _ _ Hwalk). reflexivity.
Qed.

Lemma table_captions_witness :
  exists d',
    ensure_captions true true marker_free_document = Ok d'
    /\ d' = with_body (flat_map wrap_table (body marker_free_document)) marker_free_document
    /\ paragraphs (body d') = paragraphs (body marker_free_document).
Proof.
  eexists. split; [vm_compute; reflexivity|].
  apply (table_captions_are_class_named_elements true marker_free_document).
  vm_compute. reflexivity.
Defined.

(** X13.  With table captions asked for, [ensure_captions] raises
    [IndexError] on every document that holds a table and no paragraph in
    its body: the walk reads [doc.paragraphs[0]] at the first table. *)
Theorem table_caption_needs_a_paragraph (add_fig_captions : bool) (d : Document) :
  paragraphs (body d) = [] ->
  tables (body d) <> [] ->
  ensure_captions add_fig_captions true d = Raise IndexError.
Proof.
  intros Hnone Htab. unfold ensure_captions.
  rewrite (captions_walk_no_paragraph add_fig_captions (body d) [] 0 0 Hnone Htab).
  reflexivity.
Qed.

Lemma table_caption_needs_a_paragraph_witness :
  ensure_captions false true (document_of [BTable one_row_table; BTable one_row_table])
  = Raise IndexError.
Proof.
  apply (table_caption_needs_a_paragraph false
           (document_of [BTable one_row_table; BTable one_row_table])).
  - reflexivity.
  - discriminate.
Defined.

(** ** Footers *)

Lemma alter_first_margins (g : Section -> Section) (secs : list Section) :
  (forall s, margins (g s) = margins s) ->
  map margins (alter g 0 secs) = map margins secs.
Proof.
  intros Hg. destruct secs as [|s secs]; [reflexivity|].
  simpl. rewrite Hg. reflexivity.
Qed.

(** The page-number pass leaves the margins of the sections, the styles
    and the body alone. *)
Lemma add_page_number_frame (position : text) (d : Document) :
  map margins (sections (add_page_number_to_footer position d)) = map margins (sections d)
  /\ styles (add_page_number_to_footer position d) = styles d.
Proof.
  unfold add_page_number_to_footer.
  generalize (seq 0 (length (sections d))). intros l. revert d.
  induction l as [|i l IH]; intros d; [split; reflexivity|].
  simpl. destruct (IH (let '(d0, k) := get_or_add_footer i d in
                       mkDocument (sections d0)
                         (alter (add_page_field position) k (footers d0))
                         (styles d0) (body d0))) as [Hm Hs].
  rewrite Hm, Hs. unfold get_or_add_footer.
  destruct (inherited_footer (sections d) i); simpl; [split; reflexivity|].
  split; [|reflexivity]. apply alter_first_margins. reflexivity.
Qed.

(** Every section without a definition of its own reads the footer of
    the first. *)
Lemma inherited_from_first (secs : list Section) (k : nat) :
  (exists s, secs !! 0 = Some s /\ footer_ref s = Some k) ->
  (forall j s, 1 <= j -> secs !! j = Some s -> footer_ref s = None) ->
  forall i, i < length secs -> inherited_footer secs i = Some k.
Proof.
  intros (s0 & H0 & Hk) Hrest. induction i as [|i IH]; intros Hi.
  - cbn [inherited_footer]. rewrite H0, Hk. reflexivity.
  - cbn [inherited_footer].
    destruct (lookup_lt_is_Some_2 secs (S i) Hi) as [s Hs]. rewrite Hs.
    rewrite (Hrest (S i) s ltac:(lia) Hs). apply IH. lia.
Qed.

Lemma add_page_field_again (position : text) (n : nat) :
  add_page_field position (mkFooter [numbered_footer_paragraph position n])
  = mkFooter [numbered_footer_paragraph position (S n)].
Proof.
  unfold add_page_field, numbered_footer_paragraph, with_runs, with_format. simpl.
  rewrite <- repeat_cons. reflexivity.
Qed.

Lemma shared_footer_fold (position : text) (secs : list Section) (fts : list Footer)
    (st : list Style) (b : list Block) :
  secs <> [] ->
  Forall (fun s => footer_ref s = None) secs ->
  forall m, m < length secs ->
    foldl (fun d i =>
             let '(d, k) := get_or_add_footer i d in
             mkDocument (sections d) (alter (add_page_field position) k (footers d))
               (styles d) (body d))
          (mkDocument secs fts st b) (seq 0 (S m))
    = mkDocument (alter (set_footer_ref (length fts)) 0 secs)
        (fts ++ [mkFooter [numbered_footer_paragraph position (S m)]]) st b.
Proof.
  intros Hsecs Hnone. induction m as [|m IH]; intros Hm.
  - simpl. unfold get_or_add_footer. cbn [sections footers styles body].
    destruct secs as [|s0 secs]; [congruence|].
    apply Forall_cons in Hnone as [H0 _].
    cbn [inherited_footer]. simpl. rewrite H0.
    cbn [sections footers styles body]. f_equal.
    rewrite <- (Nat.add_0_r (length fts)), alter_app_r. reflexivity.
  - rewrite seq_S, foldl_snoc, IH by lia. simpl.
    unfold get_or_add_footer. cbn [sections footers styles body].
    rewrite (inherited_from_first _ (length fts)).
    + cbn [sections footers styles body]. f_equal.
      rewrite <- (Nat.add_0_r (length fts)), alter_app_r. simpl.
      rewrite add_page_field_again. reflexivity.
    + destruct secs as [|s0 secs]; [congruence|].
      exists (set_footer_ref (length fts) s0). split; reflexivity.
    + intros j s Hj Hs. rewrite list_lookup_alter_ne in Hs by lia.
      rewrite Forall_lookup in Hnone. apply (Hnone j s Hs).
    + rewrite length_alter. lia.
Qed.

(** X14.  Sections that share one footer get one page field each, all in
    the same paragraph: on a document none of whose sections has a footer
    definition, the page-number pass creates a single footer, hangs it on
    the first section, and leaves in its paragraph as many [PAGE] fields
    as the document has sections. *)
Theorem shared_footer_gets_a_field_per_section (position : text) (d : Document) :
  sections d <> [] ->
  Forall (fun s => footer_ref s = None) (sections d) ->
  add_page_number_to_footer position d
  = mkDocument (alter (set_footer_ref (length (footers d))) 0 (sections d))
      (footers d ++ [mkFooter [numbered_footer_paragraph position (length (sections d))]])
      (styles d) (body d).
Proof.
  intros Hsecs Hnone. unfold add_page_number_to_footer.
  destruct d as [secs fts st b]. cbn [sections footers styles body] in *.
  destruct (length secs) as [|m] eqn:Hlen.
  - destruct secs; [congruence | discriminate].
  - apply shared_footer_fold; [exact Hsecs | exact Hnone | lia].
Qed.

Lemma shared_footer_witness :
  footers (add_page_number_to_footer (str "right") three_sections_document)
  = [mkFooter [mkParagraph (Some (str "Footer")) (set_alignment (Some RIGHT) no_format)
                 [page_field_run; page_field_run; page_field_run]]].
Proof.
  rewrite (shared_footer_gets_a_field_per_section (str "right") three_sections_document).
  - reflexivity.
  - discriminate.
  - repeat constructor.
Defined.

(** ** The pipeline, in general *)

Section PipelineOutcome.
Context `{CaseMapping}.

(** X15.  Without a style named (or identified as) [Normal] the pipeline
    raises [KeyError], whatever the options and the rest of the
    document. *)
Theorem pipeline_needs_normal_style (cfg : Config) (d : Document) :
  styles_getitem (str "Normal") (styles d) = Raise KeyError ->
  apply_abnt_formatting cfg d = Raise KeyError.
Proof.
  intros Hnone. unfold apply_abnt_formatting, configure_default_style.
  change (styles (set_page_margins (Cm 3) (Cm 3) (Cm 2) (Cm 2) d)) with (styles d).
  rewrite Hnone. reflexivity.
Qed.

Lemma configure_default_style_sections (name : text) (size : Z) (spacing : LineSpacing)
    (indent : Z) (justify : bool) (d d' : Document) :
  configure_default_style name size spacing indent justify d = Ok d' ->
  sections d' = sections d.
Proof.
  unfold configure_default_style. destruct (styles_getitem _ _); [|discriminate].
  simpl. destruct (negb (has_font _)); [discriminate|].
  destruct (negb (has_paragraph_format _)); [discriminate|].
  intros Hd. injection Hd as <-. reflexivity.
Qed.

Lemma ensure_captions_sections (add_fig add_tab : bool) (d d' : Document) :
  ensure_captions add_fig add_tab d = Ok d' -> sections d' = sections d.
Proof.
  unfold ensure_captions. destruct (captions_walk _ _ _ _ _ _); [|discriminate].
  simpl. intros Hd. injection Hd as <-. reflexivity.
Qed.

Lemma references_sections (hanging : Z) (spacing : LineSpacing) (gap : Z) (d : Document) :
  sections (snd (apply_references_block_format hanging spacing gap d)) = sections d.
Proof.
  unfold apply_references_block_format.
  destruct (scan_paragraphs _ _ _) as [s b]. reflexivity.
Qed.

(** The margins of the sections the model keeps, when the pipeline
    returns. *)
Lemma pipeline_sections (cfg : Config) (d d' : Document) :
  apply_abnt_formatting cfg d = Ok d' ->
  map margins (sections d') = map (fun _ => abnt_margins) (sections d).
Proof.
  intros Hrun. unfold apply_abnt_formatting in Hrun.
  destruct (configure_default_style _ _ _ _ _ _) as [d1|e] eqn:H1; [|discriminate].
  apply configure_default_style_sections in H1.
  cbn [mbind result_bind] in Hrun.
  destruct (style_all_paragraphs _ _ d1) as [d1'|e] eqn:Hsty; [|discriminate].
  apply style_all_paragraphs_effect in Hsty as (Hsty & _).
  cbn [mbind result_bind] in Hrun.
  destruct (ensure_captions _ _ _) as [d2|e] eqn:H2; [|discriminate].
  apply ensure_captions_sections in H2.
  cbn [mbind result_bind] in Hrun.
  destruct (process_long_quote_markers d2) as [[n d3]|e] eqn:H3; [|discriminate].
  apply (region_pass_ok LongQuote) in H3 as (_ & _ & _ & _ & H3 & _).
  cbn [mbind result_bind] in Hrun. injection Hrun as <-.
  rewrite remove_extra_blank_lines_collapse. cbn [sections with_body].
  assert (H4 : forall d4,
            map margins (sections (if footer_page_numbers cfg
                                   then add_page_number_to_footer (str "right") d4
                                   else d4))
            = map margins (sections d4)).
  { intros d4. destruct (footer_page_numbers cfg); [|reflexivity].
    apply add_page_number_frame. }
  rewrite H4.
  assert (H5 : sections (if format_refs_block cfg
                         then snd (apply_references_block_format Cm_1_25
                                     single_spacing (Pt 6) d3)
                         else d3)
               = sections d3).
  { destruct (format_refs_block cfg); [apply references_sections | reflexivity]. }
  rewrite H5, H3, H2. cbn [sections with_body].
  assert (H6 : forall d6,
            sections (if center_images cfg
                      then center_paragraphs_with_drawings d6 else d6)
            = sections d6).
  { intros d6. destruct (center_images cfg); reflexivity. }
  rewrite H6. unfold configure_heading_styles.
  cbn [sections with_body]. rewrite Hsty, H1. unfold set_page_margins.
  cbn [sections with_sections]. rewrite map_map. reflexivity.
Qed.

(** X16.  Whenever the pipeline returns, every section has the margins
    3 cm top, 3 cm left, 2 cm right and 2 cm bottom, no two neighbours
    in [doc.paragraphs] are both blank, and the body holds as many tables
    as before and no more paragraphs than before: no caption paragraph is
    ever added. *)
Theorem pipeline_margins_and_blanks (cfg : Config) (d d' : Document) :
  apply_abnt_formatting cfg d = Ok d' ->
  Forall (fun s => margins s = abnt_margins) (sections d')
  /\ no_blank_neighbours (paragraphs (body d')) = true
  /\ length (tables (body d')) = length (tables (body d))
  /\ length (paragraphs (body d')) <= length (paragraphs (body d)).
Proof.
  intros Hrun. pose proof (pipeline_tables cfg d d' Hrun) as Htables.
  pose proof (pipeline_sections cfg d d' Hrun) as Hsections.
  unfold apply_abnt_formatting in Hrun.
  destruct (configure_default_style _ _ _ _ _ _) as [d1|e] eqn:H1; [|discriminate].
  pose proof (configure_default_style_body _ _ _ _ _ _ _ H1) as Hb1.
  cbn [mbind result_bind] in Hrun.
  destruct (style_all_paragraphs _ _ d1) as [d1'|e] eqn:Hsty; [|discriminate].
  apply style_all_paragraphs_effect in Hsty as (_ & _ & _ & _ & Hsty).
  apply Forall2_length in Hsty.
  cbn [mbind result_bind] in Hrun.
  pose proof (early_passes_paragraphs cfg d1') as Hearly. cbv zeta in Hearly.
  destruct Hearly as (_ & f & Hps5 & _).
  destruct (ensure_captions _ _ _) as [d2|e] eqn:H2; [|discriminate].
  pose proof (ensure_captions_effect _ _ _ _ H2) as (_ & Hps2 & _).
  cbn [mbind result_bind] in Hrun.
  destruct (process_long_quote_markers d2) as [[n d3]|e] eqn:H3; [|discriminate].
  apply (region_pass_ok LongQuote) in H3 as (_ & _ & Hps3 & _).
  apply Forall2_length in Hps3.
  cbn [mbind result_bind] in Hrun. injection Hrun as <-.
  split; [|split; [apply no_blank_neighbours_after|split]].
  - apply List.Forall_forall. intros s0 Hs0.
    apply (in_map margins) in Hs0. rewrite Hsections in Hs0.
    apply in_map_iff in Hs0 as (s1 & Hs1 & _). symmetry. exact Hs1.
  - rewrite Htables. apply length_map.
  - etransitivity; [apply no_more_paragraphs_after|].
    assert (H4 : forall d4,
              paragraphs (body (if footer_page_numbers cfg
                                then add_page_number_to_footer (str "right") d4
                                else d4))
              = paragraphs (body d4)).
    { intros d4. destruct (footer_page_numbers cfg); [|reflexivity].
      rewrite add_page_number_body. reflexivity. }
    rewrite H4.
    assert (H5 : length (paragraphs (body (if format_refs_block cfg
                           then snd (apply_references_block_format Cm_1_25
                                       single_spacing (Pt 6) d3)
                           else d3)))
                 = length (paragraphs (body d3))).
    { destruct (format_refs_block cfg); [|reflexivity].
      destruct (apply_references_block_format Cm_1_25 single_spacing (Pt 6) d3)
        as [m d4] eqn:Hrefs.
      assert (Hpass : region_pass (References Cm_1_25 single_spacing (Pt 6)) d3
                      = Ok (m, d4)) by (simpl; rewrite Hrefs; reflexivity).
      apply region_pass_ok in Hpass as (_ & _ & Hall & _).
      symmetry. apply (Forall2_length _ _ _ Hall). }
    rewrite H5, <- Hps3, Hps2, Hps5, length_map, <- Hsty, Hb1. reflexivity.
Qed.

End PipelineOutcome.

Lemma pipeline_needs_normal_style_witness :
  @apply_abnt_formatting ascii_case default_config styleless_document = Raise KeyError.
Proof.
  apply (@pipeline_needs_normal_style ascii_case default_config styleless_document).
  reflexivity.
Defined.

Lemma pipeline_margins_and_blanks_witness :
  exists d',
    @apply_abnt_formatting ascii_case default_config three_blanks_document = Ok d'
    /\ Forall (fun s => margins s = abnt_margins) (sections d')
    /\ no_blank_neighbours (paragraphs (body d')) = true
    /\ length (tables (body d')) = 0
    /\ length (paragraphs (body d')) <= 5.
Proof.
  eexists. split; [vm_compute; reflexivity|].
  apply (@pipeline_margins_and_blanks ascii_case default_config three_blanks_document).
  vm_compute. reflexivity.
Defined.

(** ** Headings *)

Section HeadingFacts.
Context `{CaseMapping}.

Lemma run_text_set (s : text) (r : Run) : run_text (set_run_text s r) = s.
Proof.
  unfold run_text, set_run_text. destruct s as [|c s]; simpl; [reflexivity|].
  rewrite app_nil_r. reflexivity.
Qed.

Lemma map_paragraphs_same (f : Paragraph -> Paragraph) (b : list Block) :
  (forall p, f p = p) -> map_paragraphs f b = b.
Proof.
  intros Hf. induction b as [|x b IH]; [reflexivity|].
  destruct x as [p|t|tag c]; simpl; rewrite ?Hf; f_equal; exact IH.
Qed.

(** X17.  With the three capitalisation flags off,
    [configure_heading_styles] leaves the document as it is. *)
Theorem heading_flags_off_nothing_changes (d : Document) :
  configure_heading_styles false false false d = d.
Proof.
  unfold configure_heading_styles. rewrite map_paragraphs_same.
  - destruct d; reflexivity.
  - intros p.
    assert (Hoff : forall name, heading_map_lookup false false false name = false).
    { intros name. unfold heading_map_lookup.
      repeat match goal with |- context [text_eqb ?a ?b] => destruct (text_eqb a b) end;
        reflexivity. }
    rewrite Hoff. reflexivity.
Qed.

(** X18.  A paragraph whose style is named [Heading 1], [Heading 2] or
    [Heading 3], with the flag of its level on, comes out of
    [configure_heading_styles] with every run holding the upper-cased
    text of that run and nothing else: pictures in the heading are gone.
    It is aligned left with no first-line indent and keeps its style. *)
Theorem capitalised_heading_keeps_text_only
    (h1_caps h2_caps h3_caps : bool) (d : Document) (j : nat) (p : Paragraph)
    (name : text) :
  paragraphs (body d) !! j = Some p ->
  paragraph_style_name (styles d) p = Some name ->
  heading_map_lookup h1_caps h2_caps h3_caps name = true ->
  exists p',
    paragraphs (body (configure_heading_styles h1_caps h2_caps h3_caps d)) !! j = Some p'
    /\ map run_text (p_runs p') = map (fun r => str_upper (run_text r)) (p_runs p)
    /\ has_drawing p' = false
    /\ alignment (p_format p') = Some LEFT
    /\ first_line_indent (p_format p') = Some (Cm 0)
    /\ p_style p' = p_style p.
Proof.
  intros Hj Hname Hflag. unfold configure_heading_styles. cbn [body with_body].
  rewrite (proj1 (map_paragraphs_list _ _)).
  change (map ?f ?l) with (f <$> l) at 1. rewrite list_lookup_fmap, Hj. simpl.
  rewrite Hname. simpl. rewrite Hflag.
  eexists. split; [reflexivity|]. cbn [p_runs p_format p_style with_format with_runs
                                       uppercase_heading_runs alignment first_line_indent
                                       set_alignment set_first_line_indent].
  split.
  - rewrite map_map. apply map_ext. intros r. apply run_text_set.
  - split; [|repeat split]. apply (uppercase_no_drawing p).
Qed.

End HeadingFacts.

Lemma capitalised_heading_witness :
  has_drawing heading_with_picture = true
  /\ exists p',
       paragraphs (body (@configure_heading_styles ascii_case true false false
                           heading_document)) !! 0 = Some p'
       /\ map run_text (p_runs p') = [str "TITLE"; []]
       /\ has_drawing p' = false.
Proof.
  split; [reflexivity|].
  destruct (@capitalised_heading_keeps_text_only ascii_case true false false
              heading_document 0 heading_with_picture (str "Heading 1")
              eq_refl eq_refl eq_refl)
    as (p' & Hp' & Htext & Hpic & _).
  exists p'. split; [exact Hp'|]. split; [exact Htext | exact Hpic].
Defined.

(** ** Reference strings and the download name *)

Lemma startswith_app_refl (a r : text) : startswith a (a ++ r) = true.
Proof.
  induction a as [|x a IH]; [reflexivity|]. simpl. rewrite N.eqb_refl. exact IH.
Qed.

Lemma contains_at (pre needle post s : text) :
  s = pre ++ needle ++ post -> contains needle s = true.
Proof.
  intros ->. induction pre as [|c pre IH].
  - pose proof (startswith_app_refl needle post) as Hs. cbn [app].
    destruct (needle ++ post); cbn [contains]; rewrite Hs; reflexivity.
  - simpl. apply contains_cons. exact IH.
Qed.

Lemma startswith_app_short (a u r : text) :
  startswith a (u ++ r) = true -> length a <= length u -> startswith a u = true.
Proof.
  revert u. induction a as [|x a IH]; intros u Hs Hlen; [reflexivity|].
  destruct u as [|c u]; [simpl in Hlen; lia|].
  simpl in *. apply andb_true_iff in Hs as [Hx Hs]. rewrite Hx. simpl.
  apply IH; [exact Hs | lia].
Qed.

Lemma startswith_app_long (a u r : text) :
  startswith a (u ++ r) = true -> length u < length a ->
  startswith (drop (length u) a) r = true.
Proof.
  revert a. induction u as [|c u IH]; intros a Hs Hlen; [exact Hs|].
  destruct a as [|x a]; [simpl in Hlen; lia|].
  simpl in *. apply andb_true_iff in Hs as [_ Hs]. apply IH; [exact Hs | lia].
Qed.

Lemma replace_scan_skip_all (old new s : text) (k : nat) :
  length s <= k -> replace_scan old new k s = [].
Proof.
  revert k. induction s as [|c s IH]; intros k Hk; [reflexivity|].
  destruct k as [|k]; [simpl in Hk; lia|]. simpl. apply IH. simpl in Hk. lia.
Qed.

Lemma replace_scan_self (old new : text) :
  old <> [] -> replace_scan old new 0 old = new.
Proof.
  intros Hold. destruct old as [|c old]; [congruence|].
  assert (Hs : startswith (c :: old) (c :: old) = true).
  { pose proof (startswith_app_refl (c :: old) []) as Hs.
    rewrite app_nil_r in Hs. exact Hs. }
  cbn [replace_scan]. rewrite Hs, replace_scan_skip_all by (simpl; lia).
  apply app_nil_r.
Qed.

(** The scan copies a text that holds no occurrence of [old], up to a
    suffix that no occurrence can run into. *)
Lemma scan_before_suffix (old new ext : text) :
  straddles_nowhere old ext = true ->
  forall t, contains old t = false ->
    replace_scan old new 0 (t ++ ext) = t ++ replace_scan old new 0 ext.
Proof.
  intros Hext. induction t as [|c t IH]; intros Hfree; [reflexivity|].
  cbn [contains] in Hfree. apply orb_false_iff in Hfree as [Hhere Hrest].
  assert (Hno : startswith old ((c :: t) ++ ext) = false).
  { destruct (startswith old ((c :: t) ++ ext)) eqn:Hs; [|reflexivity].
    destruct (le_lt_dec (length old) (length (c :: t))) as [Hshort | Hlong].
    - rewrite (startswith_app_short _ _ _ Hs Hshort) in Hhere. discriminate.
    - apply startswith_app_long in Hs; [|exact Hlong].
      unfold straddles_nowhere in Hext. rewrite forallb_forall in Hext.
      specialize (Hext (length (c :: t))). rewrite Hs in Hext.
      assert (Hin : In (length (c :: t)) (seq 1 (length old - 1)))
        by (apply in_seq; simpl in *; lia).
      specialize (Hext Hin). discriminate. }
  change ((c :: t) ++ ext) with (c :: (t ++ ext)) in *.
  cbn [replace_scan]. rewrite Hno, (IH Hrest). reflexivity.
Qed.

Lemma straddles_nowhere_nil (old : text) : straddles_nowhere old [] = true.
Proof.
  unfold straddles_nowhere. apply forallb_forall. intros m Hm.
  apply in_seq in Hm. destruct (drop m old) as [|x r] eqn:Hd; [|reflexivity].
  apply (f_equal length) in Hd. rewrite length_drop in Hd. simpl in Hd. lia.
Qed.

Lemma replace_absent (old new t : text) :
  contains old t = false -> replace old new t = t.
Proof.
  intros Hfree. unfold replace. destruct old as [|c old].
  - rewrite contains_nil_l in Hfree. discriminate.
  - pose proof (scan_before_suffix (c :: old) new [] (straddles_nowhere_nil _) t Hfree)
      as Hscan.
    cbn [replace_scan] in Hscan. rewrite !app_nil_r in Hscan. exact Hscan.
Qed.

(** X19.  The download name of an uploaded [base.docx] or [base.DOCX] is
    [base_ABNT.docx], when [base] itself holds neither [.docx] nor
    [.DOCX]; a name that holds neither (an extension in mixed case, say)
    is kept whole in front of [_ABNT.docx]. *)
Theorem download_name_of_docx (base : text) :
  contains (str ".docx") base = false ->
  contains (str ".DOCX") base = false ->
  download_file_name (base ++ str ".docx") = base ++ str "_ABNT.docx"
  /\ download_file_name (base ++ str ".DOCX") = base ++ str "_ABNT.docx"
  /\ download_file_name base = base ++ str "_ABNT.docx".
Proof.
  intros Hlow Hup. unfold download_file_name.
  assert (Hlow_end : replace (str ".docx") [] (base ++ str ".docx") = base).
  { change (replace (str ".docx") [] (base ++ str ".docx"))
      with (replace_scan (str ".docx") [] 0 (base ++ str ".docx")).
    rewrite scan_before_suffix by (reflexivity || exact Hlow).
    rewrite replace_scan_self by discriminate. apply app_nil_r. }
  assert (Hlow_other : replace (str ".docx") [] (base ++ str ".DOCX") = base ++ str ".DOCX").
  { change (replace (str ".docx") [] (base ++ str ".DOCX"))
      with (replace_scan (str ".docx") [] 0 (base ++ str ".DOCX")).
    rewrite scan_before_suffix by (reflexivity || exact Hlow). reflexivity. }
  assert (Hup_end : replace (str ".DOCX") [] (base ++ str ".DOCX") = base).
  { change (replace (str ".DOCX") [] (base ++ str ".DOCX"))
      with (replace_scan (str ".DOCX") [] 0 (base ++ str ".DOCX")).
    rewrite scan_before_suffix by (reflexivity || exact Hup).
    rewrite replace_scan_self by discriminate. apply app_nil_r. }
  rewrite Hlow_end, Hlow_other, Hup_end, (replace_absent _ _ _ Hlow),
    (replace_absent _ _ _ Hup).
  repeat split.
Qed.

Lemma download_name_witness :
  download_file_name (str "tcc.final.docx") = str "tcc.final_ABNT.docx"
  /\ download_file_name (str "tcc.final.DOCX") = str "tcc.final_ABNT.docx"
  /\ download_file_name (str "tcc.final") = str "tcc.final_ABNT.docx".
Proof.
  apply (download_name_of_docx (str "tcc.final")); reflexivity.
Defined.

Section ReferenceFacts.
Context `{CaseMapping}.

(** X20.  A book reference without an edition ([None] or the empty
    string, both read as false) is the same string in both cases, and in
    it the title is followed by two full stops. *)
Theorem book_reference_without_edition
    (autor_sobrenome autor_iniciais titulo : text) (ed : option text)
    (local editora ano : text) :
  opt_truthy ed = false ->
  format_reference_livro autor_sobrenome autor_iniciais titulo ed local editora ano
  = format_reference_livro autor_sobrenome autor_iniciais titulo None local editora ano
  /\ contains (titulo ++ str ".. " ++ local)
       (format_reference_livro autor_sobrenome autor_iniciais titulo ed local editora ano)
     = true.
Proof.
  intros Hed. unfold format_reference_livro. rewrite Hed. split; [reflexivity|].
  apply (contains_at (str_upper autor_sobrenome ++ str ", " ++ autor_iniciais ++ str ". ")
           _ (str ": " ++ editora ++ str ", " ++ ano ++ str ".")).
  rewrite <- !app_assoc. reflexivity.
Qed.

(** X21.  An article reference without an issue number is the same
    string for [None] and for the empty string, and in it the volume is
    followed by a space before the comma. *)
Theorem article_reference_without_number
    (autor_sobrenome autor_iniciais titulo periodico volume : text)
    (numero : option text) (paginas ano : text) :
  opt_truthy numero = false ->
  format_reference_artigo autor_sobrenome autor_iniciais titulo periodico volume
    numero paginas ano
  = format_reference_artigo autor_sobrenome autor_iniciais titulo periodico volume
      None paginas ano
  /\ contains (str "v. " ++ volume ++ str " , p. " ++ paginas)
       (format_reference_artigo autor_sobrenome autor_iniciais titulo periodico volume
          numero paginas ano)
     = true.
Proof.
  intros Hnum. unfold format_reference_artigo. rewrite Hnum. split; [reflexivity|].
  apply (contains_at (str_upper autor_sobrenome ++ str ", " ++ autor_iniciais ++ str ". "
                      ++ titulo ++ str ". " ++ periodico ++ str ", ")
           _ (str ", " ++ ano ++ str ".")).
  rewrite <- !app_assoc. reflexivity.
Qed.

(** X22.  A site reference prints the author only when both the surname
    and the initials are given: with either missing the string is the
    one without an author, and it begins with the title. *)
Theorem site_reference_needs_both_author_parts
    (autor_sobrenome autor_iniciais : option text)
    (titulo site url acesso_data : text) (ano : option text) :
  opt_truthy autor_sobrenome && opt_truthy autor_iniciais = false ->
  format_reference_site autor_sobrenome autor_iniciais titulo site url acesso_data ano
  = format_reference_site None None titulo site url acesso_data ano
  /\ startswith titulo
       (format_reference_site autor_sobrenome autor_iniciais titulo site url
          acesso_data ano)
     = true.
Proof.
  intros Hautor. unfold format_reference_site. rewrite Hautor.
  split; [reflexivity|]. simpl. apply startswith_app_refl.
Qed.

End ReferenceFacts.

Lemma book_reference_witness :
  @format_reference_livro ascii_case (str "silva") (str "J") (str "Redes") (Some [])
    (str "Recife") (str "UFPE") (str "2020")
  = str "SILVA, J. Redes.. Recife: UFPE, 2020.".
Proof.
  rewrite (proj1 (@book_reference_without_edition ascii_case (str "silva") (str "J")
                    (str "Redes") (Some []) (str "Recife") (str "UFPE") (str "2020")
                    eq_refl)).
  reflexivity.
Defined.

Lemma article_reference_witness :
  @format_reference_artigo ascii_case (str "silva") (str "J") (str "Redes")
    (str "Revista") (str "12") (Some []) (str "1-9") (str "2020")
  = str "SILVA, J. Redes. Revista, v. 12 , p. 1-9, 2020.".
Proof.
  rewrite (proj1 (@article_reference_without_number ascii_case (str "silva") (str "J")
                    (str "Redes") (str "Revista") (str "12") (Some []) (str "1-9")
                    (str "2020") eq_refl)).
  reflexivity.
Defined.

Lemma site_reference_witness :
  @format_reference_site ascii_case (Some (str "silva")) None (str "Redes")
    (str "Portal") (str "http://x") (str "1 jan. 2024") None
  = @format_reference_site ascii_case None None (str "Redes")
      (str "Portal") (str "http://x") (str "1 jan. 2024") None.
Proof.
  apply (@site_reference_needs_both_author_parts ascii_case (Some (str "silva")) None
           (str "Redes") (str "Portal") (str "http://x") (str "1 jan. 2024") None).
  reflexivity.
Defined.

(** ** Centred pictures *)

(** X23.  [center_paragraphs_with_drawings] is idempotent, and it keeps
    the runs and the style reference of every paragraph, the tables and
    the style registry: all it writes is in the formatting records. *)
Theorem centering_is_idempotent (d : Document) :
  center_paragraphs_with_drawings (center_paragraphs_with_drawings d)
  = center_paragraphs_with_drawings d
  /\ map (fun p => (p_style p, p_runs p))
       (paragraphs (body (center_paragraphs_with_drawings d)))
     = map (fun p => (p_style p, p_runs p)) (paragraphs (body d))
  /\ tables (body (center_paragraphs_with_drawings d)) = tables (body d)
  /\ styles (center_paragraphs_with_drawings d) = styles d.
Proof.
  unfold center_paragraphs_with_drawings. cbn [body with_body styles].
  split; [|split; [|split; [apply map_paragraphs_list | reflexivity]]].
  - unfold with_body. cbn [sections footers styles body]. f_equal.
    apply map_paragraphs_idempotent. intros p.
    destruct (has_drawing p) eqn:Hp; [|rewrite Hp; reflexivity].
    change (has_drawing (with_format _ (with_format _ p))) with (has_drawing p).
    rewrite Hp. reflexivity.
  - rewrite (proj1 (map_paragraphs_list _ _)), map_map. apply map_ext.
    intros p. destruct (has_drawing p); reflexivity.
Qed.

(** ** When the pipeline returns *)

